(** * dep-migrate: the lookup cache, the registry client, the alternative
    finder, the scanner and the migration loop of [src/index.ts]

    The program is embedded as Rocq functions.  Every effect of the source is
    explicit: the process-wide [cache] object, the HTTPS requests, the
    questions put to the operator, the [package.json] file, the install
    command and the lines printed are fields of a [world] that the functions
    thread through a small state-and-exception monad.  What the program
    cannot control (the answers of the network, of the operator and of the
    file system) is an [env].

    The values that come from the network are arbitrary JSON, so every
    conversion the engine applies to them (to a boolean, to a string, to a
    property key, to a number for a comparison) is written out, with the
    [TypeError] it throws where it throws one. *)

From Stdlib Require Import ZArith String Ascii List DecimalString Lia.
From stdpp Require Import base gmap strings list.

Open Scope string_scope.
Open Scope list_scope.

(** ** JSON values as [JSON.parse] returns them *)

(** Numbers are the integral ones (the program never computes with a number:
    it tests truthiness, compares a [length] with 0 and uses values as
    property keys).  The members of an object come in the order
    [Object.keys] lists them. *)
#[warnings="-register-all"]
Inductive json : Type :=
| JNull
| JBool (b : bool)
| JNum (n : Z)
| JStr (s : string)
| JArr (elems : list json)
| JObj (members : list (string * json)).

(** A JavaScript value that is either [undefined] ([None]) or JSON. *)
Definition value : Type := option json.

(** ToBoolean. *)
Definition truthy (v : json) : bool :=
  match v with
  | JNull => false
  | JBool b => b
  | JNum n => negb (n =? 0)%Z
  | JStr s => negb (s =? "")
  | JArr _ => true
  | JObj _ => true
  end.

Definition js_truthy (v : value) : bool :=
  match v with
  | Some j => truthy j
  | None => false
  end.

(** [v == null]: [null] or [undefined], where an optional chain stops. *)
Definition nullish (v : value) : bool :=
  match v with
  | None => true
  | Some JNull => true
  | Some _ => false
  end.

(** ** Objects used as maps: own keys in [Object.keys] order *)

(** An array index is a canonical decimal numeral below [2^32 - 1].  Own
    keys that are array indices are listed first, in ascending numeric
    order; the other string keys follow in insertion order. *)
Definition array_index (k : string) : option N :=
  match NilZero.uint_of_string k with
  | Some u =>
      let n := N.of_uint u in
      if (NilZero.string_of_uint (N.to_uint n) =? k) && (n <? 4294967295)%N
      then Some n else None
  | None => None
  end.

Section Objects.
Context {V : Type}.

(** [o[k]] for an own property. *)
Fixpoint obj_lookup (k : string) (o : list (string * V)) : option V :=
  match o with
  | [] => None
  | (k', v) :: o' => if k' =? k then Some v else obj_lookup k o'
  end.

(** [delete o[k]]. *)
Fixpoint obj_delete (k : string) (o : list (string * V)) : list (string * V) :=
  match o with
  | [] => []
  | (k', v) :: o' =>
      if k' =? k then obj_delete k o' else (k', v) :: obj_delete k o'
  end.

(** Assignment to an existing own property keeps its place. *)
Fixpoint obj_overwrite (k : string) (v : V) (o : list (string * V))
  : list (string * V) :=
  match o with
  | [] => []
  | (k', v') :: o' =>
      (if k' =? k then (k', v) else (k', v')) :: obj_overwrite k v o'
  end.

(** A new array-index key goes before the first key that is not a smaller
    array index. *)
Fixpoint obj_insert_index (i : N) (k : string) (v : V) (o : list (string * V))
  : list (string * V) :=
  match o with
  | [] => [(k, v)]
  | (k', v') :: o' =>
      match array_index k' with
      | Some j =>
          if (j <? i)%N then (k', v') :: obj_insert_index i k v o'
          else (k, v) :: o
      | None => (k, v) :: o
      end
  end.

(** An own property [k] is given the value [v], whatever the object
    inherits (CreateDataProperty, as the spread of an object literal
    does). *)
Definition obj_define (k : string) (v : V) (o : list (string * V))
  : list (string * V) :=
  match obj_lookup k o with
  | Some _ => obj_overwrite k v o
  | None =>
      match array_index k with
      | Some i => obj_insert_index i k v o
      | None => o ++ [(k, v)]
      end
  end.

(** [o[k] = v] for a [v] that is not an object, on an object whose
    prototype is [Object.prototype].  The one inherited property with a
    setter is [__proto__]: when [o] has no own property of that name the
    assignment calls the setter, which ignores a value that is not an
    object, and [o] is left as it was.  ([JSON.parse] does create own
    properties named [__proto__]; such a one is overwritten like any
    other.) *)
Definition obj_set (k : string) (v : V) (o : list (string * V))
  : list (string * V) :=
  match obj_lookup k o with
  | Some _ => obj_overwrite k v o
  | None => if k =? "__proto__" then o else obj_define k v o
  end.

(** [Object.keys(o)]. *)
Definition object_keys (o : list (string * V)) : list string :=
  List.map fst o.

(** [{...a, ...b}]: the own properties of [a], then those of [b], are
    defined on a fresh object. *)
Definition obj_spread (a b : list (string * V)) : list (string * V) :=
  fold_left (fun o kv => obj_define (fst kv) (snd kv) o) (a ++ b) [].
End Objects.

(** ** The environment *)

Inductive error : Type :=
| TypeError        (* a member of [null] or [undefined] was read, or an
                      object could not be converted to a primitive *)
| SyntaxError      (* [JSON.parse] rejected the text *)
| NetworkError     (* the request emitted ["error"] *)
| ProcessExit (code : Z).

(** Outcome of a computation that may throw. *)
Inductive result (A : Type) : Type :=
| Ok (a : A)
| Throw (e : error).
Arguments Ok {A} a.
Arguments Throw {A} e.

(** What an HTTPS request comes back with: an ["error"] event, or a body on
    which [JSON.parse] throws or that it parses. *)
Inductive response : Type :=
| ConnectionError
| BadBody
| JsonBody (parsed : json).

(** [https_get n url] answers the request for [url] issued after [n] earlier
    requests, [operator n query] is what the operator types at the question
    asked after [n] earlier ones, [exists_in_cwd] is [fs.existsSync] on a
    file of the working directory.  Two conversions of the engine are left
    to the environment: [string_gt_zero s] is [s > 0] for a string [s]
    (StringToNumber, then the comparison), consulted only when [results] is
    an object whose [length] is a string or an array; and
    [big_number_to_string n] is Number::toString for the integral literal
    [n] beyond the safe integers, where the engine prints the shortest
    digits that read back as the same double (the last of which the
    language leaves open) and, from [1e21] on, an exponent.  The choice of
    V8 is [double_to_string] below; the scenarios use it. *)
Record env : Type := {
  https_get : nat -> string -> response;
  operator : nat -> string -> string;
  exists_in_cwd : string -> bool;
  string_gt_zero : string -> bool;
  big_number_to_string : Z -> string
}.

(** ** Conversion to a string and to a property key *)

Definition string_of_Z (n : Z) : string :=
  NilZero.string_of_int (Z.to_int n).

(** Number::toString: the decimal digits of a safe integer. *)
Definition number_to_string (E : env) (n : Z) : string :=
  if (Z.abs n <? 2 ^ 53)%Z then string_of_Z n else big_number_to_string E n.

(** The double nearest to an integer [n >= 2^53], ties to even, as
    [(m, e)] for [m * 2^e] with [2^52 <= m < 2^53]; [None] is [Infinity]. *)
Definition nearest_double (n : Z) : option (Z * Z) :=
  let e := (Z.log2 n - 52)%Z in
  let q := Z.shiftr n e in
  let r := (n - Z.shiftl q e)%Z in
  let half := (2 ^ (e - 1))%Z in
  let q' := if (half <? r)%Z || ((r =? half)%Z && Z.odd q)
            then (q + 1)%Z else q in
  let me := if (q' =? 2 ^ 53)%Z then ((2 ^ 52)%Z, (e + 1)%Z) else (q', e) in
  if (971 <? snd me)%Z then None else Some me.

(** Among the integers that read back as the double [m * 2^e], the
    multiple of the highest power of ten, and the closest to the double if
    there are two.  The bounds are kept four-fold, so that they are
    integers; they belong to the interval when [m] is even. *)
Fixpoint shortest_decimal (t : nat) (m e : Z) : Z :=
  let v := (m * 2 ^ e)%Z in
  let hi4 := (4 * v + 2 ^ (e + 1))%Z in
  let lo4 := if (m =? 2 ^ 52)%Z then (4 * v - 2 ^ e)%Z
             else (4 * v - 2 ^ (e + 1))%Z in
  let inside c :=
    if Z.even m then (lo4 <=? 4 * c)%Z && (4 * c <=? hi4)%Z
    else (lo4 <? 4 * c)%Z && (4 * c <? hi4)%Z in
  let P := (10 ^ Z.of_nat t)%Z in
  let a := (v / P * P)%Z in
  let b := (a + P)%Z in
  let closer_a :=
    (v - a <? b - v)%Z || ((v - a =? b - v)%Z && Z.even (a / P)) in
  match inside a, inside b with
  | true, true => if closer_a then a else b
  | true, false => a
  | false, true => b
  | false, false =>
      match t with
      | O => v
      | S t' => shortest_decimal t' m e
      end
  end.

Fixpoint trailing_zeros (fuel : nat) (c : Z) : nat :=
  match fuel with
  | O => O
  | S fuel' =>
      if (c mod 10 =? 0)%Z && negb (c =? 0)%Z
      then S (trailing_zeros fuel' (c / 10)%Z) else O
  end.

(** The digits of a positive integral double as Number::toString lays them
    out: plain below [1e21], with an exponent from there on. *)
Definition render_decimal (c : Z) : string :=
  let digits := string_of_Z c in
  let n := String.length digits in
  if (n <=? 21)%nat then digits
  else
    let k := (n - trailing_zeros n c)%nat in
    String.substring 0 1 digits +:+
    (if (k <=? 1)%nat then "" else "." +:+ String.substring 1 (k - 1) digits)
    +:+ "e+" +:+ string_of_Z (Z.of_nat (n - 1)).

(** Number::toString of the double that the integral literal [n], beyond
    the safe integers, parses to. *)
Definition double_to_string (n : Z) : string :=
  let sign := if (n <? 0)%Z then "-" else "" in
  match nearest_double (Z.abs n) with
  | None => sign +:+ "Infinity"
  | Some (m, e) => sign +:+ render_decimal (shortest_decimal 330 m e)
  end.

Fixpoint join (sep : string) (l : list string) : string :=
  match l with
  | [] => ""
  | [s] => s
  | s :: rest => s +:+ sep +:+ join sep rest
  end.

(** ToString, as a template literal, a string concatenation or a computed
    property key applies it.  An array goes through [Array.prototype.join],
    which renders [null] elements as the empty string and converts the
    others in turn.  An object goes through OrdinaryToPrimitive: its
    [toString] is looked up first, and an own member of that name, being
    JSON, is not callable; the inherited [valueOf] then returns the object
    itself and a [TypeError] is thrown.  Without such a member
    [Object.prototype.toString] answers. *)
Fixpoint js_to_string (E : env) (v : json) : result string :=
  match v with
  | JNull => Ok "null"
  | JBool true => Ok "true"
  | JBool false => Ok "false"
  | JNum n => Ok (number_to_string E n)
  | JStr s => Ok s
  | JArr l =>
      let fix elements (l : list json) : result (list string) :=
        match l with
        | [] => Ok []
        | e :: rest =>
            match (match e with
                   | JNull => Ok ""
                   | _ => js_to_string E e
                   end) with
            | Throw err => Throw err
            | Ok s =>
                match elements rest with
                | Throw err => Throw err
                | Ok ss => Ok (s :: ss)
                end
            end
        end in
      match elements l with
      | Throw err => Throw err
      | Ok ss => Ok (join "," ss)
      end
  | JObj members =>
      match obj_lookup "toString" members with
      | Some _ => Throw TypeError
      | None => Ok "[object Object]"
      end
  end.

(** ToPropertyKey of a value used between brackets. *)
Definition to_property_key (E : env) (v : value) : result string :=
  match v with
  | Some j => js_to_string E j
  | None => Ok "undefined"
  end.

(** ** Property access on JSON values *)

(** [v[k]] for [v] neither [null] nor [undefined]: the own members that are
    JSON values.  Inherited members (methods, and the prototype itself under
    [__proto__]) are [None]: the program reads them only through a key it
    then dereferences by a name ([deprecated], [package], [name]) that no
    built-in prototype defines, which yields [undefined] either way.  A
    string is indexed by character. *)
Definition js_member (v : json) (k : string) : value :=
  match v with
  | JObj members => obj_lookup k members
  | JArr elems =>
      match array_index k with
      | Some i => nth_error elems (N.to_nat i)
      | None =>
          if k =? "length" then Some (JNum (Z.of_nat (List.length elems)))
          else None
      end
  | JStr s =>
      match array_index k with
      | Some i =>
          match String.get (N.to_nat i) s with
          | Some c => Some (JStr (String c ""))
          | None => None
          end
      | None =>
          if k =? "length" then Some (JNum (Z.of_nat (String.length s)))
          else None
      end
  | JNull => None
  | JBool _ => None
  | JNum _ => None
  end.

(** [v.k] or [v[k]]: throws on [null] and [undefined]. *)
Definition js_get (v : value) (k : string) : result value :=
  match v with
  | None => Throw TypeError
  | Some JNull => Throw TypeError
  | Some j => Ok (js_member j k)
  end.

(** [v?.k] or [v?.[k]]: [undefined] on [null] and [undefined]. *)
Definition js_get_opt (v : value) (k : string) : value :=
  match v with
  | None => None
  | Some JNull => None
  | Some j => js_member j k
  end.

(** ** The world *)

(** The manifest: what [package.json] parses to when it holds an object,
    with its two sections, each an object from package name to version
    specifier ([None] when [pkg[section]] is falsy), and its other
    members.  A file that parses to a boolean, a number, a string or an
    array has no member called [dependencies] or [devDependencies] and
    stands as a manifest without sections; a section that is not an object
    of specifiers is not modelled. *)
Record manifest : Type := {
  dependencies : option (list (string * string));
  devDependencies : option (list (string * string));
  other_members : list (string * json)
}.

(** What the file [package.json] holds when it is there. *)
Inductive package_file : Type :=
| Garbled                     (* a text that [JSON.parse] rejects *)
| HoldsNull                   (* the text [null] *)
| Manifest (p : manifest).

Inductive section_name : Type := Dependencies | DevDependencies.

Definition get_section (s : section_name) (pkg : manifest)
  : option (list (string * string)) :=
  match s with
  | Dependencies => dependencies pkg
  | DevDependencies => devDependencies pkg
  end.

Definition set_section (s : section_name) (o : option (list (string * string)))
  (pkg : manifest) : manifest :=
  match s with
  | Dependencies =>
      {| dependencies := o; devDependencies := devDependencies pkg;
         other_members := other_members pkg |}
  | DevDependencies =>
      {| dependencies := dependencies pkg; devDependencies := o;
         other_members := other_members pkg |}
  end.

(** An entry of the scan's [results] array. *)
Inductive scan_record : Type :=
| ScanDeprecated (dependency : string) (message : value) (alternative : json)
| ScanHealthy (dependency : string).

Inductive action_kind : Type := Replaced | WouldReplace | Skipped.

(** An entry of the migration's [results] array; [alternative] is absent
    from a ["skipped"] entry. *)
Record action_record : Type := {
  dependency : string;
  action : action_kind;
  alternative : option json
}.

(** What the run shows: the spinner lines, the JSON report and the summary.
    The other narration lines carry no decision and are left out (the
    conversions to a string that building them requires are not: see
    [record_decision] and [box_text]). *)
Inductive output : Type :=
| SpinnerStart (text : string)
| SpinnerSucceed (text : string)
| SpinnerFail (text : string)
| ScanReport (records : list scan_record)
| ScanSummary (total deprecated healthy : nat)
| MigrateReport (records : list action_record)
| MigrateSummary (replaced skipped : nat).

Record world : Type := {
  cache : gmap string json;             (* the module-level [cache], an
                                           object: what [loadCache] leaves
                                           unless the cache file holds
                                           another kind of JSON value *)
  requests : list string;               (* URLs requested so far *)
  questions : list string;              (* questions asked so far *)
  package_json : option package_file;   (* the file; [None] when missing *)
  writes : list manifest;               (* calls of [writePackageJson] *)
  installs : list string;               (* commands run by [runInstall] *)
  console : list output
}.

(** ** A state monad with exceptions

    A thrown exception keeps the world as it was when it was thrown. *)
Definition M (A : Type) : Type := world -> result A * world.

Definition ret {A} (a : A) : M A := fun w => (Ok a, w).

Definition throw {A} (e : error) : M A := fun w => (Throw e, w).

Definition bind {A B} (c : M A) (k : A -> M B) : M B :=
  fun w =>
    match c w with
    | (Ok a, w') => k a w'
    | (Throw e, w') => (Throw e, w')
    end.

Definition try_catch {A} (c : M A) (handler : error -> M A) : M A :=
  fun w =>
    match c w with
    | (Ok a, w') => (Ok a, w')
    | (Throw e, w') => handler e w'
    end.

Definition lift {A} (r : result A) : M A := fun w => (r, w).

Notation "'let!' x ':=' c 'in' k" := (bind c (fun x => k))
  (at level 10, x name, c at level 100, k at level 200).
Notation "'run' c 'then' k" := (bind c (fun _ => k))
  (at level 10, c at level 100, k at level 200).

(** A [for ... of] loop over a fixed list, threading the loop's variables. *)
Fixpoint for_of {A B} (l : list A) (body : A -> B -> M B) (b : B) : M B :=
  match l with
  | [] => ret b
  | a :: l' => let! b' := body a b in for_of l' body b'
  end.

(** Field updates of the world. *)
Definition log_output (o : output) (w : world) : world :=
  {| cache := cache w; requests := requests w; questions := questions w;
     package_json := package_json w; writes := writes w;
     installs := installs w; console := console w ++ [o] |}.

Definition store_cache (key : string) (v : json) (w : world) : world :=
  {| cache := <[key := v]> (cache w); requests := requests w;
     questions := questions w; package_json := package_json w;
     writes := writes w; installs := installs w; console := console w |}.

Definition log_request (url : string) (w : world) : world :=
  {| cache := cache w; requests := requests w ++ [url];
     questions := questions w; package_json := package_json w;
     writes := writes w; installs := installs w; console := console w |}.

Definition log_question (query : string) (w : world) : world :=
  {| cache := cache w; requests := requests w;
     questions := questions w ++ [query]; package_json := package_json w;
     writes := writes w; installs := installs w; console := console w |}.

Definition store_manifest (p : manifest) (w : world) : world :=
  {| cache := cache w; requests := requests w; questions := questions w;
     package_json := Some (Manifest p); writes := writes w ++ [p];
     installs := installs w; console := console w |}.

Definition log_install (command : string) (w : world) : world :=
  {| cache := cache w; requests := requests w; questions := questions w;
     package_json := package_json w; writes := writes w;
     installs := installs w ++ [command]; console := console w |}.

Definition print (o : output) : M unit :=
  fun w => (Ok tt, log_output o w).

(** [cache[key]]. *)
Definition cache_get (key : string) : M value :=
  fun w => (Ok (cache w !! key), w).

(** [cache[key] = v; saveCache()]; the write of the cache file is taken to
    succeed. *)
Definition cache_set (key : string) (v : json) : M unit :=
  fun w => (Ok tt, store_cache key v w).

(** [https.get(url, ...)] up to the ["end"] or ["error"] event.  The request
    is taken to be issued: a URL that Node refuses before sending is not
    modelled. *)
Definition https_request (E : env) (url : string) : M response :=
  fun w =>
    (Ok (https_get E (List.length (requests w)) url), log_request url w).

(** ** The registry client and the alternative finder *)

Definition npmInfo_key (pkg : string) : string := "npmInfo:" +:+ pkg.
Definition alt_key (pkg : string) : string := "alt:" +:+ pkg.
Definition registry_url (pkg : string) : string :=
  "https://registry.npmjs.org/" +:+ pkg.
Definition search_url (pkg : string) : string :=
  "https://api.npms.io/v2/search?q=" +:+ pkg +:+ "+replacement".

(** The request of [fetchNpmInfo] once the cache is passed over. *)
Definition download_info (E : env) (pkg : string) : M json :=
  let! r := https_request E (registry_url pkg) in
  match r with
  | ConnectionError => throw NetworkError
  | BadBody => throw SyntaxError
  | JsonBody parsed => run cache_set (npmInfo_key pkg) parsed then ret parsed
  end.

Definition fetchNpmInfo (E : env) (pkg : string) (refresh : bool) : M json :=
  let! c := cache_get (npmInfo_key pkg) in
  match c with
  | Some j => if negb refresh && truthy j then ret j else download_info E pkg
  | None => download_info E pkg
  end.

(** [x > 0] for the value of a [length] member.  An array or an object is
    first converted to a primitive: the inherited [valueOf] returns the
    value itself, so the conversion ends in [toString] as in
    [js_to_string], and the string of an object is not a number. *)
Definition js_gt_zero (E : env) (v : value) : result bool :=
  match v with
  | None => Ok false
  | Some JNull => Ok false
  | Some (JBool b) => Ok b
  | Some (JNum n) => Ok (0 <? n)%Z
  | Some (JStr s) => Ok (string_gt_zero E s)
  | Some (JArr l) =>
      match js_to_string E (JArr l) with
      | Throw e => Throw e
      | Ok s => Ok (string_gt_zero E s)
      end
  | Some (JObj members) =>
      match js_to_string E (JObj members) with
      | Throw e => Throw e
      | Ok _ => Ok false
      end
  end.

(** The body of the [try] of [fetchAlternative] between [JSON.parse] and the
    write to the cache: the suggestion read off the parsed response. *)
Definition suggestion_of (E : env) (parsed : json) : result json :=
  match js_get (Some parsed) "results" with
  | Throw e => Throw e
  | Ok results =>
      if js_truthy results then
        match js_get results "length" with
        | Throw e => Throw e
        | Ok length =>
            match js_gt_zero E length with
            | Throw e => Throw e
            | Ok false => Ok JNull
            | Ok true =>
                match js_get results "0" with
                | Throw e => Throw e
                | Ok first =>
                    match js_get first "package" with
                    | Throw e => Throw e
                    | Ok package =>
                        match js_get_opt package "name" with
                        | Some name => if truthy name then Ok name else Ok JNull
                        | None => Ok JNull
                        end
                    end
                end
            end
        end
      else Ok JNull
  end.

Definition download_alternative (E : env) (pkg : string) : M json :=
  let! r := https_request E (search_url pkg) in
  match r with
  | ConnectionError => ret JNull
  | BadBody => ret JNull
  | JsonBody parsed =>
      try_catch
        (let! suggestion := lift (suggestion_of E parsed) in
         run cache_set (alt_key pkg) suggestion then
         ret suggestion)
        (fun _ => ret JNull)
  end.

Definition fetchAlternative (E : env) (pkg : string) (refresh : bool) : M json :=
  let! c := cache_get (alt_key pkg) in
  match c with
  | Some j =>
      if negb refresh && truthy j then ret j else download_alternative E pkg
  | None => download_alternative E pkg
  end.

(** ** The collaborators: operator, manifest file, package manager *)

Definition lower_ascii (c : ascii) : ascii :=
  let n := nat_of_ascii c in
  if (65 <=? n)%nat && (n <=? 90)%nat then ascii_of_nat (n + 32) else c.

(** [s.toLowerCase()] on the letters A to Z. *)
Fixpoint toLowerCase (s : string) : string :=
  match s with
  | EmptyString => EmptyString
  | String c s' => String (lower_ascii c) (toLowerCase s')
  end.

Definition askQuestionRaw (E : env) (query : string) : M string :=
  fun w =>
    (Ok (operator E (List.length (questions w)) query), log_question query w).

(** [answer.toLowerCase().startsWith("y")]. *)
Definition accepts (answer : string) : bool :=
  String.prefix "y" (toLowerCase answer).

Definition askQuestion (E : env) (query : string) : M bool :=
  let! answer := askQuestionRaw E query in
  ret (accepts answer).

(** [readPackageJson()]: the process exits when the file is missing, and
    [JSON.parse] throws on a text it rejects.  What is returned is the
    parsed value, [None] standing for [null]. *)
Definition readPackageJson : M (option manifest) :=
  fun w =>
    match package_json w with
    | None => (Throw (ProcessExit 1), w)
    | Some Garbled => (Throw SyntaxError, w)
    | Some HoldsNull => (Ok None, w)
    | Some (Manifest pkg) => (Ok (Some pkg), w)
    end.

(** The first read of a member of [pkg] ([pkg.dependencies] in the scan,
    [pkg[section]] in the migration, each before anything else is done)
    throws when [pkg] is [null]. *)
Definition members_of (pkg : option manifest) : M manifest :=
  match pkg with
  | Some p => ret p
  | None => throw TypeError
  end.

Definition writePackageJson (pkg : manifest) : M unit :=
  fun w => (Ok tt, store_manifest pkg w).

Definition detectPackageManager (E : env) : string :=
  if exists_in_cwd E "yarn.lock" then "yarn"
  else if exists_in_cwd E "pnpm-lock.yaml" then "pnpm"
  else if exists_in_cwd E "bun.lockb" then "bun"
  else "npm".

(** [runInstall(pm)]: the command is run; its failure is caught and logged. *)
Definition runInstall (pm : string) : M unit :=
  fun w =>
    let command :=
      if pm =? "yarn" then "yarn install"
      else if pm =? "pnpm" then "pnpm install"
      else if pm =? "bun" then "bun install"
      else "npm install" in
    (Ok tt, log_install command w).

(** ** Deprecation of the latest version *)

(** [info["dist-tags"]?.latest] then [info.versions?.[latest]?.deprecated].
    The optional chain stops at a [versions] that is [null] or [undefined]
    without evaluating the key; otherwise [latest] is converted to a
    property key, which can throw. *)
Definition deprecated_message (E : env) (info : json) : result value :=
  match js_get (Some info) "dist-tags" with
  | Throw e => Throw e
  | Ok dist_tags =>
      let latest := js_get_opt dist_tags "latest" in
      match js_get (Some info) "versions" with
      | Throw e => Throw e
      | Ok versions =>
          if nullish versions then Ok None
          else
            match to_property_key E latest with
            | Throw e => Throw e
            | Ok key => Ok (js_get_opt (js_get_opt versions key) "deprecated")
            end
      end
  end.

(** ** The scanner *)

Record scan_options : Type := {
  scan_jsonOutput : bool;
  scan_refresh : bool
}.

(** The variables of [scanDependencies] that its loop updates. *)
Record scan_locals : Type := {
  scan_results : list scan_record;
  deprecatedCount : nat
}.

(** The text of the box printed for a deprecated dependency:
    [chalk.gray(deprecatedMsg)] converts the message to a string, and the
    template literal does so for a truthy [alt].  Only whether this throws
    is kept. *)
Definition box_text (E : env) (deprecatedMsg : value) (alt : json)
  : result unit :=
  match (match deprecatedMsg with
         | Some m => js_to_string E m
         | None => Ok "undefined"
         end) with
  | Throw e => Throw e
  | Ok _ =>
      if truthy alt then
        match js_to_string E alt with
        | Throw e => Throw e
        | Ok _ => Ok tt
        end
      else Ok tt
  end.

(** The body of the loop of [scanDependencies] for one dependency.  The
    [try] block ends with the loop's variables as its statements left them,
    also when one of them throws: the count and the record of a deprecated
    dependency are written before its box is printed. *)
Definition scan_dep (E : env) (opts : scan_options) (dep : string)
  (L : scan_locals) : M scan_locals :=
  run print (SpinnerStart ("Checking " +:+ dep +:+ "...")) then
  let! tried :=
    try_catch
      (let! info := fetchNpmInfo E dep (scan_refresh opts) in
       let! deprecatedMsg := lift (deprecated_message E info) in
       if js_truthy deprecatedMsg then
         let! alt := fetchAlternative E dep (scan_refresh opts) in
         ret ({| scan_results :=
                   scan_results L ++ [ScanDeprecated dep deprecatedMsg alt];
                 deprecatedCount := S (deprecatedCount L) |},
              if scan_jsonOutput opts then Ok tt
              else box_text E deprecatedMsg alt)
       else
         run print (SpinnerSucceed (dep +:+ " is healthy")) then
         ret (if scan_jsonOutput opts
              then {| scan_results := scan_results L ++ [ScanHealthy dep];
                      deprecatedCount := deprecatedCount L |}
              else L,
              Ok tt))
      (fun e => ret (L, Throw e)) in
  match snd tried with
  | Ok _ => ret (fst tried)
  | Throw _ =>
      run print (SpinnerFail (dep +:+ " check failed")) then
      ret (fst tried)
  end.

(** [{ ...(pkg.dependencies || {}), ...(pkg.devDependencies || {}) }]. *)
Definition scanned_deps (pkg : manifest) : list (string * string) :=
  obj_spread (default [] (dependencies pkg)) (default [] (devDependencies pkg)).

Definition scan_loop (E : env) (opts : scan_options) (pkg : manifest)
  : M scan_locals :=
  for_of (object_keys (scanned_deps pkg)) (scan_dep E opts)
    {| scan_results := []; deprecatedCount := 0 |}.

Definition scanDependencies (E : env) (opts : scan_options) : M unit :=
  let! parsed := readPackageJson in
  let! pkg := members_of parsed in
  let! L := scan_loop E opts pkg in
  let total := List.length (object_keys (scanned_deps pkg)) in
  if scan_jsonOutput opts then print (ScanReport (scan_results L))
  else print (ScanSummary total (deprecatedCount L) (total - deprecatedCount L)).

(** ** The migration *)

Record options : Type := {
  interactive : bool;
  dryRun : bool;
  jsonOutput : bool;
  refresh : bool
}.

(** The variables of [migrateDependencies] that its loops update; [pkg] is
    the object read from the file, mutated in place. *)
Record locals : Type := {
  pkg : manifest;
  modified : bool;
  results : list action_record;
  replacedCount : nat;
  skippedCount : nat
}.

(** [results.push(r)]. *)
Definition push_result (r : action_record) (L : locals) : locals :=
  {| pkg := pkg L; modified := modified L; results := results L ++ [r];
     replacedCount := replacedCount L; skippedCount := skippedCount L |}.

(** [skippedCount++]. *)
Definition count_skipped (L : locals) : locals :=
  {| pkg := pkg L; modified := modified L; results := results L;
     replacedCount := replacedCount L; skippedCount := S (skippedCount L) |}.

(** [delete pkg[section][dep]].  The section is an object there: its loop
    is entered only when it is. *)
Definition delete_dependency (s : section_name) (dep : string) (L : locals)
  : locals :=
  {| pkg := set_section s (option_map (obj_delete dep) (get_section s (pkg L)))
              (pkg L);
     modified := modified L; results := results L;
     replacedCount := replacedCount L; skippedCount := skippedCount L |}.

(** [pkg[section][key] = "latest"; modified = true; replacedCount++]. *)
Definition insert_dependency (s : section_name) (key : string) (L : locals)
  : locals :=
  {| pkg := set_section s
              (option_map (obj_set key "latest") (get_section s (pkg L)))
              (pkg L);
     modified := true; results := results L;
     replacedCount := S (replacedCount L); skippedCount := skippedCount L |}.

(** The line printed for a replacement outside JSON mode interpolates
    [alt] in a template literal. *)
Definition narrated (E : env) (opts : options) (alt : json) : result unit :=
  if jsonOutput opts then Ok tt
  else
    match js_to_string E alt with
    | Throw e => Throw e
    | Ok _ => Ok tt
    end.

(** The question of an interactive run:
    [`🔄 Replace ${dep} with ${alt || "<none>"}? (y/N) `]. *)
Definition replace_question (E : env) (dep : string) (alt : json)
  : result string :=
  match (if truthy alt then js_to_string E alt else Ok "<none>") with
  | Throw e => Throw e
  | Ok name => Ok ("🔄 Replace " +:+ dep +:+ " with " +:+ name +:+ "? (y/N) ")
  end.

(** The branches on [doReplace && alt] and on [dryRun], statement by
    statement: what the loop's variables are when the branch ends, and
    whether it ends by throwing.  The record is pushed first; the line
    printed outside JSON mode and the computed key [pkg[section][alt]]
    both convert [alt] to a string. *)
Definition record_decision (E : env) (opts : options) (s : section_name)
  (dep : string) (alt : json) (doReplace : bool) (L : locals)
  : locals * result unit :=
  if doReplace && truthy alt then
    if dryRun opts then
      let L1 := push_result {| dependency := dep; action := WouldReplace;
                               alternative := Some alt |} L in
      match narrated E opts alt with
      | Throw e => (L1, Throw e)
      | Ok _ => (count_skipped L1, Ok tt)
      end
    else
      let L1 := push_result {| dependency := dep; action := Replaced;
                               alternative := Some alt |} L in
      match narrated E opts alt with
      | Throw e => (L1, Throw e)
      | Ok _ =>
          let L2 := delete_dependency s dep L1 in
          match to_property_key E (Some alt) with
          | Throw e => (L2, Throw e)
          | Ok key => (insert_dependency s key L2, Ok tt)
          end
      end
  else
    (count_skipped
       (push_result {| dependency := dep; action := Skipped;
                       alternative := None |} L),
     Ok tt).

(** [doReplace]: [true], or the operator's answer in an interactive run. *)
Definition confirm (E : env) (opts : options) (dep : string) (alt : json)
  : M bool :=
  if interactive opts then
    let! query := lift (replace_question E dep alt) in
    askQuestion E query
  else ret true.

(** The body of the inner loop of [migrateDependencies].  As in the scan,
    the [try] block ends with the loop's variables as its statements left
    them, and the [catch] reports the failure. *)
Definition migrate_dep (E : env) (opts : options) (s : section_name)
  (dep : string) (L : locals) : M locals :=
  run print (SpinnerStart ("Migrating " +:+ dep +:+ "...")) then
  let! tried :=
    try_catch
      (let! info := fetchNpmInfo E dep (refresh opts) in
       let! deprecatedMsg := lift (deprecated_message E info) in
       if js_truthy deprecatedMsg then
         let! alt := fetchAlternative E dep (refresh opts) in
         let! doReplace := confirm E opts dep alt in
         ret (record_decision E opts s dep alt doReplace L)
       else
         run print (SpinnerSucceed (dep +:+ " is fine")) then
         ret (L, Ok tt))
      (fun e => ret (L, Throw e)) in
  match snd tried with
  | Ok _ => ret (fst tried)
  | Throw _ =>
      run print (SpinnerFail (dep +:+ " migration check failed")) then
      ret (fst tried)
  end.

(** One turn of [for (const section of sections)]. *)
Definition migrate_section (E : env) (opts : options) (s : section_name)
  (L : locals) : M locals :=
  match get_section s (pkg L) with
  | None => ret L
  | Some deps => for_of (object_keys deps) (migrate_dep E opts s) L
  end.

Definition sections : list section_name := [Dependencies; DevDependencies].

Definition migrate_loop (E : env) (opts : options) (p : manifest) : M locals :=
  for_of sections (migrate_section E opts)
    {| pkg := p; modified := false; results := [];
       replacedCount := 0; skippedCount := 0 |}.

Definition migrateDependencies (E : env) (opts : options) : M unit :=
  let! parsed := readPackageJson in
  let! p := members_of parsed in
  let! L := migrate_loop E opts p in
  run (if negb (dryRun opts) && modified L then
         run writePackageJson (pkg L) then
         runInstall (detectPackageManager E)
       else ret tt) then
  if jsonOutput opts then print (MigrateReport (results L))
  else print (MigrateSummary (replacedCount L) (skippedCount L)).

(** ** The lookups and the loop bodies as relations

    Each relation lists the ways the function can go; the functions are
    shown to follow them below. *)

Definition cache_miss (key : string) (r : bool) (w : world) : Prop :=
  r = true \/ js_truthy (cache w !! key) = false.

Inductive info_lookup (E : env) (p : string) (r : bool) (w : world)
  : result json -> world -> Prop :=
| info_cached j :
    r = false -> cache w !! npmInfo_key p = Some j -> truthy j = true ->
    info_lookup E p r w (Ok j) w
| info_fetched j :
    cache_miss (npmInfo_key p) r w ->
    https_get E (List.length (requests w)) (registry_url p) = JsonBody j ->
    info_lookup E p r w (Ok j)
      (store_cache (npmInfo_key p) j (log_request (registry_url p) w))
| info_unreachable :
    cache_miss (npmInfo_key p) r w ->
    https_get E (List.length (requests w)) (registry_url p) = ConnectionError ->
    info_lookup E p r w (Throw NetworkError) (log_request (registry_url p) w)
| info_unparsable :
    cache_miss (npmInfo_key p) r w ->
    https_get E (List.length (requests w)) (registry_url p) = BadBody ->
    info_lookup E p r w (Throw SyntaxError) (log_request (registry_url p) w).

Inductive alt_lookup (E : env) (p : string) (r : bool) (w : world)
  : json -> world -> Prop :=
| alt_cached j :
    r = false -> cache w !! alt_key p = Some j -> truthy j = true ->
    alt_lookup E p r w j w
| alt_fetched doc suggestion :
    cache_miss (alt_key p) r w ->
    https_get E (List.length (requests w)) (search_url p) = JsonBody doc ->
    suggestion_of E doc = Ok suggestion ->
    alt_lookup E p r w suggestion
      (store_cache (alt_key p) suggestion (log_request (search_url p) w))
| alt_thrown doc e :
    cache_miss (alt_key p) r w ->
    https_get E (List.length (requests w)) (search_url p) = JsonBody doc ->
    suggestion_of E doc = Throw e ->
    alt_lookup E p r w JNull (log_request (search_url p) w)
| alt_unreachable :
    cache_miss (alt_key p) r w ->
    https_get E (List.length (requests w)) (search_url p) = ConnectionError ->
    alt_lookup E p r w JNull (log_request (search_url p) w)
| alt_unparsable :
    cache_miss (alt_key p) r w ->
    https_get E (List.length (requests w)) (search_url p) = BadBody ->
    alt_lookup E p r w JNull (log_request (search_url p) w).

(** The answer to the replacement question, when it can be asked. *)
Inductive confirmation (E : env) (opts : options) (dep : string) (alt : json)
  (w : world) : bool -> world -> Prop :=
| confirm_silent :
    interactive opts = false -> confirmation E opts dep alt w true w
| confirm_asked query :
    interactive opts = true ->
    replace_question E dep alt = Ok query ->
    confirmation E opts dep alt w
      (accepts (operator E (List.length (questions w)) query))
      (log_question query w).

Definition migrating (dep : string) : output :=
  SpinnerStart ("Migrating " +:+ dep +:+ "...").

(** The world after the [catch], if the [try] block threw. *)
Definition settle (failed : output) (r : result unit) (w : world) : world :=
  match r with
  | Ok _ => w
  | Throw _ => log_output failed w
  end.

Inductive migrate_step (E : env) (opts : options) (s : section_name)
  (dep : string) (L : locals) (w : world) : locals -> world -> Prop :=
| step_failed e w1 :
    info_lookup E dep (refresh opts) (log_output (migrating dep) w)
      (Throw e) w1 ->
    migrate_step E opts s dep L w L
      (log_output (SpinnerFail (dep +:+ " migration check failed")) w1)
| step_unreadable info e w1 :
    info_lookup E dep (refresh opts) (log_output (migrating dep) w)
      (Ok info) w1 ->
    deprecated_message E info = Throw e ->
    migrate_step E opts s dep L w L
      (log_output (SpinnerFail (dep +:+ " migration check failed")) w1)
| step_healthy info m w1 :
    info_lookup E dep (refresh opts) (log_output (migrating dep) w)
      (Ok info) w1 ->
    deprecated_message E info = Ok m -> js_truthy m = false ->
    migrate_step E opts s dep L w L
      (log_output (SpinnerSucceed (dep +:+ " is fine")) w1)
| step_unaskable info m alt e w1 w2 :
    info_lookup E dep (refresh opts) (log_output (migrating dep) w)
      (Ok info) w1 ->
    deprecated_message E info = Ok m -> js_truthy m = true ->
    alt_lookup E dep (refresh opts) w1 alt w2 ->
    interactive opts = true -> replace_question E dep alt = Throw e ->
    migrate_step E opts s dep L w L
      (log_output (SpinnerFail (dep +:+ " migration check failed")) w2)
| step_deprecated info m alt doReplace w1 w2 w3 :
    info_lookup E dep (refresh opts) (log_output (migrating dep) w)
      (Ok info) w1 ->
    deprecated_message E info = Ok m -> js_truthy m = true ->
    alt_lookup E dep (refresh opts) w1 alt w2 ->
    confirmation E opts dep alt w2 doReplace w3 ->
    migrate_step E opts s dep L w
      (fst (record_decision E opts s dep alt doReplace L))
      (settle (SpinnerFail (dep +:+ " migration check failed"))
         (snd (record_decision E opts s dep alt doReplace L)) w3).

(** ** Scenarios

    Concrete environments and worlds on which the statements below are
    evaluated. *)

(** A registry document whose latest version carries a deprecation message. *)
Definition deprecated_doc (message : string) : json :=
  JObj [("dist-tags", JObj [("latest", JStr "1.3.0")]);
        ("versions",
         JObj [("1.3.0", JObj [("deprecated", JStr message)])])].

(** A registry document whose latest version is not deprecated. *)
Definition healthy_doc : json :=
  JObj [("dist-tags", JObj [("latest", JStr "2.0.0")]);
        ("versions", JObj [("2.0.0", JObj [("name", JStr "pkg")])])].

(** A search response listing the given package names. *)
Definition search_doc (names : list string) : json :=
  JObj [("total", JNum (Z.of_nat (List.length names)));
        ("results",
         JArr (List.map
                 (fun n => JObj [("package", JObj [("name", JStr n)])])
                 names))].

(** A process that starts with an empty cache and the given manifest. *)
Definition fresh_world (p : option manifest) : world :=
  {| cache := ∅; requests := []; questions := [];
     package_json := option_map Manifest p;
     writes := []; installs := []; console := [] |}.

(** No lock file, an operator who types what [answers] says, a network that
    answers by URL alone.  The scenarios hold no string to compare with 0:
    that conversion is fixed arbitrarily. *)
Definition scenario (net : string -> response) (answers : nat -> string)
  : env :=
  {| https_get := fun _ url => net url;
     operator := fun n _ => answers n;
     exists_in_cwd := fun _ => false;
     string_gt_zero := fun _ => false;
     big_number_to_string := double_to_string |}.

(** Every request fails. *)
Definition offline : env :=
  scenario (fun _ => ConnectionError) (fun _ => "").

(** The registry reports [left-pad] deprecated; the search finds the names
    [found] for it. *)
Definition left_pad_net (found : list string) (url : string) : response :=
  if url =? registry_url "left-pad"
  then JsonBody (deprecated_doc "use String.prototype.padStart()")
  else if url =? search_url "left-pad" then JsonBody (search_doc found)
  else ConnectionError.

Definition left_pad_manifest : manifest :=
  {| dependencies := Some [("left-pad", "^1.0.0")];
     devDependencies := None;
     other_members := [("name", JStr "app")] |}.

(** ** Statements in the words of the specification *)


(** The latest tag of a registry document and its table of versions. *)
Definition latest_tag (info : json) : value :=
  js_get_opt (js_member info "dist-tags") "latest".

Definition versions_of (info : json) : value := js_member info "versions".

(** The shapes of a registry document that carries no deprecation message.
    The entry of [versions] that the message is read from is the one under
    the property key of the latest tag, which is ["undefined"] when
    [dist-tags.latest] is absent. *)
Inductive no_deprecation_shape (E : env) (info : json) : Prop :=
| lacks_latest_tag :
    latest_tag info = None ->
    js_get_opt (versions_of info) "undefined" = None ->
    no_deprecation_shape E info
| lacks_versions :
    nullish (versions_of info) = true -> no_deprecation_shape E info
| lacks_versions_entry key :
    to_property_key E (latest_tag info) = Ok key ->
    js_get_opt (versions_of info) key = None ->
    no_deprecation_shape E info
| lacks_deprecated_field key :
    to_property_key E (latest_tag info) = Ok key ->
    js_get_opt (js_get_opt (versions_of info) key) "deprecated" = None ->
    no_deprecation_shape E info
| empty_deprecated_message key :
    to_property_key E (latest_tag info) = Ok key ->
    js_get_opt (js_get_opt (versions_of info) key) "deprecated" =
    Some (JStr "") ->
    no_deprecation_shape E info.

(** The registry answers every request with the body [null]. *)
Definition null_registry : env :=
  scenario (fun _ => JsonBody JNull) (fun _ => "").

(** The registry answers with a document whose latest tag is an object
    with a member called [toString]. *)
Definition odd_tag_registry : env :=
  scenario
    (fun _ => JsonBody
                (JObj [("dist-tags",
                        JObj [("latest", JObj [("toString", JNum 1)])]);
                       ("versions", JObj [])]))
    (fun _ => "").

(** ** The run as a list of visits *)

Definition section_visits (s : section_name) (p : manifest)
  : list (section_name * string) :=
  match get_section s p with
  | Some deps => List.map (pair s) (object_keys deps)
  | None => []
  end.

(** The sections and names of the manifest as it is read, in the order of
    the two loops. *)
Definition visits (p : manifest) : list (section_name * string) :=
  section_visits Dependencies p ++ section_visits DevDependencies p.

Definition visit (E : env) (opts : options) (v : section_name * string)
  : locals -> M locals :=
  migrate_dep E opts (fst v) (snd v).

Definition initial_locals (p : manifest) : locals :=
  {| pkg := p; modified := false; results := [];
     replacedCount := 0; skippedCount := 0 |}.

Definition replaced_record (d : string) (a : json) : action_record :=
  {| dependency := d; action := Replaced; alternative := Some a |}.

Definition would_replace_record (d : string) (a : json) : action_record :=
  {| dependency := d; action := WouldReplace; alternative := Some a |}.

Definition skipped_record (d : string) : action_record :=
  {| dependency := d; action := Skipped; alternative := None |}.

(** The record that the branches on [doReplace && alt] and on [dryRun]
    push. *)
Definition decided_record (opts : options) (dep : string) (alt : json)
  (doReplace : bool) : action_record :=
  if doReplace && truthy alt then
    if dryRun opts then would_replace_record dep alt
    else replaced_record dep alt
  else skipped_record dep.

(** The ways the branches of [record_decision] can end: the loop's
    variables, and whether a statement threw. *)
Inductive decision (E : env) (opts : options) (s : section_name)
  (dep : string) (alt : json) (L : locals)
  : bool -> locals -> result unit -> Prop :=
| decision_skipped b :
    b && truthy alt = false ->
    decision E opts s dep alt L b
      (count_skipped (push_result (skipped_record dep) L)) (Ok tt)
| decision_rehearsed :
    truthy alt = true -> dryRun opts = true -> narrated E opts alt = Ok tt ->
    decision E opts s dep alt L true
      (count_skipped (push_result (would_replace_record dep alt) L)) (Ok tt)
| decision_rehearsed_unprinted e :
    truthy alt = true -> dryRun opts = true -> jsonOutput opts = false ->
    js_to_string E alt = Throw e ->
    decision E opts s dep alt L true
      (push_result (would_replace_record dep alt) L) (Throw e)
| decision_replaced key :
    truthy alt = true -> dryRun opts = false -> js_to_string E alt = Ok key ->
    decision E opts s dep alt L true
      (insert_dependency s key
         (delete_dependency s dep (push_result (replaced_record dep alt) L)))
      (Ok tt)
| decision_unprinted e :
    truthy alt = true -> dryRun opts = false -> jsonOutput opts = false ->
    js_to_string E alt = Throw e ->
    decision E opts s dep alt L true
      (push_result (replaced_record dep alt) L) (Throw e)
| decision_unkeyed e :
    truthy alt = true -> dryRun opts = false -> jsonOutput opts = true ->
    js_to_string E alt = Throw e ->
    decision E opts s dep alt L true
      (delete_dependency s dep (push_result (replaced_record dep alt) L))
      (Throw e).

(** What the loop's variables can become in one turn. *)
Inductive locals_step (E : env) (opts : options) (s : section_name)
  (dep : string) (L : locals) : locals -> Prop :=
| locals_kept : locals_step E opts s dep L L
| locals_decided alt doReplace :
    locals_step E opts s dep L
      (fst (record_decision E opts s dep alt doReplace L)).

(** The records a run writes, each with the section whose loop wrote it. *)
Fixpoint records_by_section (E : env) (opts : options)
  (l : list (section_name * string)) (L : locals) (w : world)
  : list (section_name * action_record) :=
  match l with
  | [] => []
  | v :: l' =>
      match visit E opts v L w with
      | (Ok L', w') =>
          List.map (pair (fst v))
            (skipn (List.length (results L)) (results L')) ++
          records_by_section E opts l' L' w'
      | (Throw _, _) => []
      end
  end.

(** The spinner lines that open a visit. *)
Fixpoint spinner_starts (out : list output) : list string :=
  match out with
  | [] => []
  | SpinnerStart text :: rest => text :: spinner_starts rest
  | _ :: rest => spinner_starts rest
  end.

Definition is_replaced (r : action_record) : bool :=
  match action r with
  | Replaced => true
  | _ => false
  end.

Definition same_section (s s' : section_name) : bool :=
  match s, s' with
  | Dependencies, Dependencies => true
  | DevDependencies, DevDependencies => true
  | _, _ => false
  end.

(** [request] and [node-fetch] are both reported deprecated; the search
    suggests [node-fetch] for [request] and [undici] for [node-fetch]. *)
Definition request_net (url : string) : response :=
  if url =? registry_url "request"
  then JsonBody (deprecated_doc "request has been deprecated")
  else if url =? search_url "request" then JsonBody (search_doc ["node-fetch"])
  else if url =? registry_url "node-fetch"
  then JsonBody (deprecated_doc "superseded")
  else if url =? search_url "node-fetch" then JsonBody (search_doc ["undici"])
  else ConnectionError.

Definition request_manifest : manifest :=
  {| dependencies := Some [("request", "^2.88.0"); ("node-fetch", "^2.6.0")];
     devDependencies := None;
     other_members := [] |}.


(** The operator accepts the first question and declines the others. *)
Definition yes_then_no (n : nat) : string :=
  match n with
  | O => "y"
  | S _ => "n"
  end.

Definition silent_run : options :=
  {| interactive := false; dryRun := false; jsonOutput := false;
     refresh := false |}.

Definition interactive_run : options :=
  {| interactive := true; dryRun := false; jsonOutput := false;
     refresh := false |}.

Definition dry_run : options :=
  {| interactive := false; dryRun := true; jsonOutput := false;
     refresh := false |}.

(** The options with [dryRun] set to [b]. *)
Definition with_dryRun (b : bool) (opts : options) : options :=
  {| interactive := interactive opts; dryRun := b;
     jsonOutput := jsonOutput opts; refresh := refresh opts |}.

(** The record a dry run writes where a real run writes [r]. *)
Definition as_dry_run (r : action_record) : action_record :=
  match action r with
  | Replaced =>
      {| dependency := dependency r; action := WouldReplace;
         alternative := alternative r |}
  | _ => r
  end.

(** Two worlds that differ at most in what was printed. *)
Definition same_but_console (w w' : world) : Prop :=
  cache w = cache w' /\ requests w = requests w' /\
  questions w = questions w' /\ package_json w = package_json w' /\
  writes w = writes w' /\ installs w = installs w'.

(** Neither the registry nor the cache reports [d] as deprecated. *)
Definition never_deprecated (E : env) (c : gmap string json) (d : string)
  : Prop :=
  (forall n info m,
      https_get E n (registry_url d) = JsonBody info ->
      deprecated_message E info = Ok m -> js_truthy m = false) /\
  (forall info m,
      c !! npmInfo_key d = Some info ->
      deprecated_message E info = Ok m -> js_truthy m = false).

Definition install_commands : list string :=
  ["yarn install"; "pnpm install"; "bun install"; "npm install"].

(** The registry reports the latest version of [d] as deprecated, whenever
    it is asked. *)
Definition registry_deprecates (E : env) (d : string) : Prop :=
  forall n, exists info m,
    https_get E n (registry_url d) = JsonBody info /\
    deprecated_message E info = Ok m /\ js_truthy m = true.

(** The search for a replacement of [d] yields [a], whenever it is asked. *)
Definition search_suggests (E : env) (d : string) (a : json) : Prop :=
  forall n, exists doc,
    https_get E n (search_url d) = JsonBody doc /\
    suggestion_of E doc = Ok a.

(** What the cache holds for [d], if anything, says the same. *)
Definition cache_agrees (E : env) (c : gmap string json) (d : string)
  (a : json) : Prop :=
  (forall info,
      c !! npmInfo_key d = Some info -> truthy info = true ->
      exists m, deprecated_message E info = Ok m /\ js_truthy m = true) /\
  (forall v, c !! alt_key d = Some v -> truthy v = true -> v = a).



(** The operator is not asked, or can be asked about [a] and says yes to
    everything. *)
Definition unopposed (E : env) (opts : options) (d : string) (a : json)
  : Prop :=
  interactive opts = true ->
  (exists query, replace_question E d a = Ok query) /\
  forall n query, accepts (operator E n query) = true.

(** How many names the spinner reported healthy, and how many failed. *)
Fixpoint count_succeeded (out : list output) : nat :=
  match out with
  | [] => 0
  | SpinnerSucceed _ :: rest => S (count_succeeded rest)
  | _ :: rest => count_succeeded rest
  end.

Fixpoint count_failed (out : list output) : nat :=
  match out with
  | [] => 0
  | SpinnerFail _ :: rest => S (count_failed rest)
  | _ :: rest => count_failed rest
  end.

(** ** Measures of a run *)

(** The version specifier of [k] in section [s], if any. *)
Definition specifier (s : section_name) (k : string) (p : manifest)
  : option string :=
  match get_section s p with
  | Some o => obj_lookup k o
  | None => None
  end.


(** The alternative of a record can be converted to a string. *)
Definition renders (E : env) (r : action_record) : bool :=
  match alternative r with
  | Some alt =>
      match js_to_string E alt with
      | Ok _ => true
      | Throw _ => false
      end
  | None => true
  end.

(** A "replaced" record whose replacement was carried through: the
    alternative could be printed and used as a key. *)
Definition is_applied (E : env) (r : action_record) : bool :=
  is_replaced r && renders E r.

(** A record that the skip counter counts: a "skipped" one, or a
    "would-replace" one whose line could be printed. *)
Definition is_counted_skip (E : env) (opts : options) (r : action_record)
  : bool :=
  match action r with
  | Replaced => false
  | WouldReplace => jsonOutput opts || renders E r
  | Skipped => true
  end.

(** A "replaced" record that neither removes nor inserts the name [k]. *)
Definition spares (E : env) (k : string) (r : action_record) : Prop :=
  action r = Replaced ->
  dependency r <> k /\
  forall alt, alternative r = Some alt -> js_to_string E alt <> Ok k.

(** The URLs a run may request for the names it visits. *)
Definition lookup_urls (l : list (section_name * string)) : list string :=
  List.flat_map (fun v => [registry_url (snd v); search_url (snd v)]) l.

(** The cache answers both lookups for [d]: it holds a truthy document for
    it and, when that document reports a deprecation, a truthy suggestion. *)
Definition cache_answers (E : env) (c : gmap string json) (d : string)
  : Prop :=
  exists info,
    c !! npmInfo_key d = Some info /\ truthy info = true /\
    forall m, deprecated_message E info = Ok m -> js_truthy m = true ->
              exists a, c !! alt_key d = Some a /\ truthy a = true.

(** ** The menu *)

(** [flags.includes(f)]. *)
Definition includes (f : string) (flags : list string) : bool :=
  existsb (String.eqb f) flags.

(** [showMenu], given what the operator picks at its two prompts: the
    action, and for a scan or a migration the flags ticked.  The banner and
    the help box are narration and are left out. *)
Definition showMenu (E : env) (action : string) (flags : list string)
  : M unit :=
  if (action =? "scan") || (action =? "migrate") then
    if action =? "scan" then
      scanDependencies E
        {| scan_jsonOutput := includes "json" flags;
           scan_refresh := includes "refresh" flags |}
    else
      migrateDependencies E
        {| interactive := includes "interactive" flags;
           dryRun := includes "dryRun" flags;
           jsonOutput := includes "json" flags;
           refresh := includes "refresh" flags |}
  else if action =? "help" then ret tt
  else throw (ProcessExit 0).

(** How a scan or a migration starts, by what the file holds. *)
Definition start_outcome (f : option package_file) : result unit :=
  match f with
  | None => Throw (ProcessExit 1)
  | Some Garbled => Throw SyntaxError
  | Some HoldsNull => Throw TypeError
  | Some (Manifest _) => Ok tt
  end.

(** ** The turns of the scan *)

Definition checking (dep : string) : output :=
  SpinnerStart ("Checking " +:+ dep +:+ "...").

Definition is_scan_deprecated (r : scan_record) : bool :=
  match r with
  | ScanDeprecated _ _ _ => true
  | ScanHealthy _ => false
  end.

Definition scan_record_name (r : scan_record) : string :=
  match r with
  | ScanDeprecated dep _ _ => dep
  | ScanHealthy dep => dep
  end.

(** A deprecated record whose box could not be printed. *)
Definition is_unprinted (E : env) (r : scan_record) : bool :=
  match r with
  | ScanDeprecated _ m alt =>
      match box_text E m alt with
      | Ok _ => false
      | Throw _ => true
      end
  | ScanHealthy _ => false
  end.

(** The ways one turn of the scan's loop can go. *)
Inductive scan_step (E : env) (opts : scan_options) (dep : string)
  (L : scan_locals) (w : world) : scan_locals -> world -> Prop :=
| scan_failed e w1 :
    info_lookup E dep (scan_refresh opts) (log_output (checking dep) w)
      (Throw e) w1 ->
    scan_step E opts dep L w L
      (log_output (SpinnerFail (dep +:+ " check failed")) w1)
| scan_unreadable info e w1 :
    info_lookup E dep (scan_refresh opts) (log_output (checking dep) w)
      (Ok info) w1 ->
    deprecated_message E info = Throw e ->
    scan_step E opts dep L w L
      (log_output (SpinnerFail (dep +:+ " check failed")) w1)
| scan_healthy info m w1 :
    info_lookup E dep (scan_refresh opts) (log_output (checking dep) w)
      (Ok info) w1 ->
    deprecated_message E info = Ok m -> js_truthy m = false ->
    scan_step E opts dep L w
      (if scan_jsonOutput opts
       then {| scan_results := scan_results L ++ [ScanHealthy dep];
               deprecatedCount := deprecatedCount L |}
       else L)
      (log_output (SpinnerSucceed (dep +:+ " is healthy")) w1)
| scan_deprecated info m alt w1 w2 :
    info_lookup E dep (scan_refresh opts) (log_output (checking dep) w)
      (Ok info) w1 ->
    deprecated_message E info = Ok m -> js_truthy m = true ->
    alt_lookup E dep (scan_refresh opts) w1 alt w2 ->
    scan_step E opts dep L w
      {| scan_results := scan_results L ++ [ScanDeprecated dep m alt];
         deprecatedCount := S (deprecatedCount L) |}
      (settle (SpinnerFail (dep +:+ " check failed"))
         (if scan_jsonOutput opts then Ok tt else box_text E m alt) w2).

(** The options with [interactive] set to [b]. *)
Definition with_interactive (b : bool) (opts : options) : options :=
  {| interactive := b; dryRun := dryRun opts;
     jsonOutput := jsonOutput opts; refresh := refresh opts |}.

(** * Properties *)

(** ** Objects *)

Lemma obj_lookup_delete {V} k k' (o : list (string * V)) :
  obj_lookup k' (obj_delete k o) = if k =? k' then None else obj_lookup k' o.
Proof.
  induction o as [|[k0 v0] o IH]; simpl.
  - destruct (k =? k'); reflexivity.
  - destruct (String.eqb_spec k0 k) as [->|Hne]; simpl.
    + rewrite IH. destruct (String.eqb_spec k k'); reflexivity.
    + rewrite IH. destruct (String.eqb_spec k0 k') as [->|Hne'].
      * destruct (String.eqb_spec k k'); congruence.
      * reflexivity.
Qed.

Lemma obj_lookup_overwrite {V} k k' (v : V) o :
  obj_lookup k' (obj_overwrite k v o) =
  if k =? k' then option_map (fun _ => v) (obj_lookup k o) else obj_lookup k' o.
Proof.
  induction o as [|[k0 v0] o IH]; simpl.
  - destruct (k =? k'); reflexivity.
  - destruct (String.eqb_spec k0 k) as [->|Hne]; simpl.
    + destruct (String.eqb_spec k k'); [reflexivity | assumption].
    + rewrite IH. destruct (String.eqb_spec k0 k') as [->|Hne'].
      * destruct (String.eqb_spec k k'); congruence.
      * reflexivity.
Qed.

Lemma obj_lookup_insert_index {V} i k k' (v : V) o :
  obj_lookup k o = None ->
  obj_lookup k' (obj_insert_index i k v o) =
  if k =? k' then Some v else obj_lookup k' o.
Proof.
  induction o as [|[k0 v0] o IH]; simpl; intros Hk.
  - reflexivity.
  - destruct (String.eqb_spec k0 k) as [->|Hne]; [discriminate|].
    destruct (array_index k0) as [j|]; [destruct (j <? i)%N|]; simpl.
    + rewrite (IH Hk). destruct (String.eqb_spec k0 k') as [->|Hne'].
      * destruct (String.eqb_spec k k'); congruence.
      * reflexivity.
    + reflexivity.
    + reflexivity.
Qed.

Lemma obj_lookup_app {V} k (o1 o2 : list (string * V)) :
  obj_lookup k (o1 ++ o2) =
  match obj_lookup k o1 with
  | Some v => Some v
  | None => obj_lookup k o2
  end.
Proof.
  induction o1 as [|[k0 v0] o1 IH]; simpl; [reflexivity|].
  destruct (k0 =? k); [reflexivity | exact IH].
Qed.

(** Reading back after an own property was defined. *)
Lemma obj_lookup_define {V} k k' (v : V) o :
  obj_lookup k' (obj_define k v o) = if k =? k' then Some v else obj_lookup k' o.
Proof.
  unfold obj_define. destruct (obj_lookup k o) as [v0|] eqn:Hk.
  - rewrite obj_lookup_overwrite, Hk. reflexivity.
  - destruct (array_index k) as [i|].
    + apply obj_lookup_insert_index. exact Hk.
    + rewrite obj_lookup_app. simpl.
      destruct (String.eqb_spec k k') as [->|Hne].
      * rewrite Hk. reflexivity.
      * destruct (obj_lookup k' o); reflexivity.
Qed.

(** Reading back after [o[k] = v]: the other keys are as they were, and
    [k] holds [v] unless it is an inherited [__proto__]. *)
Lemma obj_lookup_set {V} k k' (v : V) o :
  obj_lookup k' (obj_set k v o) =
  if k =? k'
  then match obj_lookup k o with
       | Some _ => Some v
       | None => if k =? "__proto__" then None else Some v
       end
  else obj_lookup k' o.
Proof.
  unfold obj_set. destruct (obj_lookup k o) as [v0|] eqn:Hk.
  - rewrite obj_lookup_overwrite, Hk. reflexivity.
  - destruct (k =? "__proto__") eqn:Hp.
    + destruct (String.eqb_spec k k') as [->|Hne]; [exact Hk | reflexivity].
    + apply obj_lookup_define.
Qed.

Lemma obj_lookup_set_other {V} k k' (v : V) o :
  k <> k' -> obj_lookup k' (obj_set k v o) = obj_lookup k' o.
Proof.
  intros Hne. rewrite obj_lookup_set.
  destruct (String.eqb_spec k k'); [contradiction | reflexivity].
Qed.


Lemma obj_lookup_In_keys {V} k (o : list (string * V)) :
  In k (object_keys o) <-> exists v, obj_lookup k o = Some v.
Proof.
  induction o as [|[k0 v0] o IH]; simpl.
  - split; [tauto | intros [v Hv]; discriminate].
  - destruct (String.eqb_spec k0 k) as [->|Hne].
    + split; eauto.
    + rewrite <- IH. split; [intros [H|H]; [congruence|exact H] | tauto].
Qed.

(** ** Conversions *)

(** Numbers as keys and in printed lines: the digits of a safe integer; the
    double nearest to a longer literal, with an exponent from [1e21] on. *)
Example number_to_string_values :
  js_to_string offline (JNum 42) = Ok "42" /\
  js_to_string offline (JNum (-7)) = Ok "-7" /\
  js_to_string offline (JNum (2 ^ 53 + 1)) = Ok "9007199254740992" /\
  js_to_string offline (JNum (2 ^ 64)) = Ok "18446744073709552000" /\
  js_to_string offline (JNum (10 ^ 21)) = Ok "1e+21" /\
  js_to_string offline (JNum (2 ^ 70)) = Ok "1.1805916207174113e+21".
Proof. vm_compute. repeat split; reflexivity. Qed.

(** Arrays are joined, objects answer with their tag, and an object with a
    member called [toString] cannot be converted. *)
Example js_to_string_values :
  js_to_string offline (JArr [JNum 1; JNull; JArr [JStr "a"; JBool true]]) =
  Ok "1,,a,true" /\
  js_to_string offline (JObj [("name", JStr "x")]) = Ok "[object Object]" /\
  js_to_string offline (JObj [("toString", JNum 1)]) = Throw TypeError /\
  js_to_string offline (JArr [JObj [("toString", JNull)]]) = Throw TypeError.
Proof. vm_compute. repeat split; reflexivity. Qed.

(** ** The operator's answer *)

Lemma lower_ascii_y c :
  lower_ascii c = "y"%char <-> c = "y"%char \/ c = "Y"%char.
Proof.
  split.
  - destruct c as [[] [] [] [] [] [] [] []]; vm_compute; intros H;
      solve [discriminate H | left; reflexivity | right; reflexivity].
  - intros [-> | ->]; reflexivity.
Qed.

Lemma accepts_spec answer :
  accepts answer = true <->
  exists rest, answer = String "y" rest \/ answer = String "Y" rest.
Proof.
  unfold accepts. destruct answer as [|c rest].
  - split; [discriminate | intros [r [H|H]]; discriminate].
  - change (String.prefix "y" (toLowerCase (String c rest)))
      with (if ascii_dec "y" (lower_ascii c)
            then String.prefix "" (toLowerCase rest) else false).
    destruct (ascii_dec "y" (lower_ascii c)) as [He|Hne].
    + symmetry in He. apply lower_ascii_y in He. split; intros _.
      * exists rest. destruct He as [-> | ->]; auto.
      * destruct (toLowerCase rest); reflexivity.
    + split; [discriminate|]. intros [r [H|H]]; inversion H; subst;
        exfalso; apply Hne; reflexivity.
Qed.

(** ** The lookups follow their relations *)

Lemma cache_miss_dec key r w :
  (exists j, r = false /\ cache w !! key = Some j /\ truthy j = true) \/
  cache_miss key r w.
Proof.
  unfold cache_miss. destruct r; [right; left; reflexivity|].
  destruct (cache w !! key) as [j|] eqn:Hc; simpl.
  - destruct (truthy j) eqn:Ht; [left; eauto | right; right; reflexivity].
  - right; right; reflexivity.
Qed.

Lemma fetchNpmInfo_spec E p r w :
  exists res w', fetchNpmInfo E p r w = (res, w') /\ info_lookup E p r w res w'.
Proof.
  unfold fetchNpmInfo, download_info, bind, cache_get, https_request,
    cache_set, ret, throw.
  destruct (cache_miss_dec (npmInfo_key p) r w) as [(j & -> & Hc & Ht)|Hmiss].
  - rewrite Hc, Ht. simpl. eexists _, _. split; [reflexivity|].
    apply info_cached; auto.
  - assert (Hgo : match cache w !! npmInfo_key p with
                  | Some j => negb r && truthy j
                  | None => false
                  end = false).
    { destruct Hmiss as [-> | Hf]; destruct (cache w !! npmInfo_key p);
        simpl in *; try reflexivity. rewrite Hf. apply andb_false_r. }
    destruct (https_get E (List.length (requests w)) (registry_url p))
      as [| |j] eqn:Hget;
      destruct (cache w !! npmInfo_key p) as [c|] eqn:Hc;
      try (rewrite Hgo); rewrite ?Hget;
      eexists _, _; (split; [reflexivity|]);
      solve [ apply info_unreachable; assumption
            | apply info_unparsable; assumption
            | apply info_fetched; assumption ].
Qed.

Lemma fetchAlternative_spec E p r w :
  exists alt w',
    fetchAlternative E p r w = (Ok alt, w') /\ alt_lookup E p r w alt w'.
Proof.
  unfold fetchAlternative, download_alternative, bind, try_catch, lift,
    cache_get, https_request, cache_set, ret.
  destruct (cache_miss_dec (alt_key p) r w) as [(j & -> & Hc & Ht)|Hmiss].
  - rewrite Hc, Ht. simpl. eexists _, _. split; [reflexivity|].
    apply alt_cached; auto.
  - assert (Hgo : match cache w !! alt_key p with
                  | Some j => negb r && truthy j
                  | None => false
                  end = false).
    { destruct Hmiss as [-> | Hf]; destruct (cache w !! alt_key p);
        simpl in *; try reflexivity. rewrite Hf. apply andb_false_r. }
    destruct (https_get E (List.length (requests w)) (search_url p))
      as [| |doc] eqn:Hget;
      [| |destruct (suggestion_of E doc) as [sg|e] eqn:Hs];
      destruct (cache w !! alt_key p) as [c|] eqn:Hc;
      try (rewrite Hgo); rewrite ?Hget, ?Hs;
      eexists _, _; (split; [reflexivity|]);
      solve [ apply alt_unreachable; assumption
            | apply alt_unparsable; assumption
            | eapply alt_fetched; eassumption
            | eapply alt_thrown; eassumption ].
Qed.

(** The question is asked and answered, or it cannot be put. *)
Lemma confirm_spec E opts dep alt w :
  (exists e, interactive opts = true /\ replace_question E dep alt = Throw e /\
             confirm E opts dep alt w = (Throw e, w)) \/
  exists b w',
    confirm E opts dep alt w = (Ok b, w') /\
    confirmation E opts dep alt w b w'.
Proof.
  unfold confirm. destruct (interactive opts) eqn:Hi.
  - unfold bind, lift. destruct (replace_question E dep alt) as [q|e] eqn:Hq.
    + right. unfold askQuestion, askQuestionRaw, bind, ret. eexists _, _.
      split; [reflexivity|]. apply confirm_asked; assumption.
    + left. exists e. auto.
  - right. unfold ret. eexists _, _. split; [reflexivity|].
    apply confirm_silent. exact Hi.
Qed.

(** The loop body, with its binds and its [try] spelled out. *)
Lemma migrate_dep_eq E opts s dep L w :
  migrate_dep E opts s dep L w =
  let failed := SpinnerFail (dep +:+ " migration check failed") in
  match fetchNpmInfo E dep (refresh opts) (log_output (migrating dep) w) with
  | (Ok info, w1) =>
      match deprecated_message E info with
      | Ok m =>
          if js_truthy m then
            match fetchAlternative E dep (refresh opts) w1 with
            | (Ok alt, w2) =>
                match confirm E opts dep alt w2 with
                | (Ok b, w3) =>
                    (Ok (fst (record_decision E opts s dep alt b L)),
                     settle failed
                       (snd (record_decision E opts s dep alt b L)) w3)
                | (Throw _, w3) => (Ok L, log_output failed w3)
                end
            | (Throw _, w2) => (Ok L, log_output failed w2)
            end
          else (Ok L, log_output (SpinnerSucceed (dep +:+ " is fine")) w1)
      | Throw _ => (Ok L, log_output failed w1)
      end
  | (Throw _, w1) => (Ok L, log_output failed w1)
  end.
Proof.
  unfold migrate_dep, bind, try_catch, print, lift, ret, migrating, settle.
  destruct (fetchNpmInfo E dep (refresh opts) _) as [[info|e] w1];
    [|reflexivity].
  destruct (deprecated_message E info) as [m|e]; [|reflexivity].
  destruct (js_truthy m); [|reflexivity].
  destruct (fetchAlternative E dep (refresh opts) w1) as [[alt|e] w2];
    [|reflexivity].
  destruct (confirm E opts dep alt w2) as [[b|e] w3]; [|reflexivity].
  destruct (record_decision E opts s dep alt b L) as [L' [u|e]]; reflexivity.
Qed.

(** The loop body never throws, and goes one of the ways of [migrate_step]. *)
Lemma migrate_dep_spec E opts s dep L w :
  exists L' w',
    migrate_dep E opts s dep L w = (Ok L', w') /\
    migrate_step E opts s dep L w L' w'.
Proof.
  rewrite migrate_dep_eq. cbv zeta.
  destruct (fetchNpmInfo_spec E dep (refresh opts)
              (log_output (migrating dep) w)) as (res & w1 & Hf & Hinfo).
  rewrite Hf. destruct res as [info|e].
  - destruct (deprecated_message E info) as [m|e] eqn:Hm.
    + destruct (js_truthy m) eqn:Ht.
      * destruct (fetchAlternative_spec E dep (refresh opts) w1)
          as (alt & w2 & Ha & Halt).
        rewrite Ha.
        destruct (confirm_spec E opts dep alt w2)
          as [(e & Hi & Hq & Hc) | (b & w3 & Hc & Hconf)]; rewrite Hc.
        -- eexists _, _. split; [reflexivity|].
           eapply step_unaskable; eassumption.
        -- eexists _, _. split; [reflexivity|].
           eapply step_deprecated; eassumption.
      * eexists _, _. split; [reflexivity|].
        eapply step_healthy; eassumption.
    + eexists _, _. split; [reflexivity|].
      eapply step_unreadable; eassumption.
  - eexists _, _. split; [reflexivity|].
    eapply step_failed. exact Hinfo.
Qed.



(** ** C4: reuse of cache entries *)

Lemma fetchNpmInfo_hit E p w v :
  cache w !! npmInfo_key p = Some v -> truthy v = true ->
  fetchNpmInfo E p false w = (Ok v, w).
Proof.
  intros Hc Ht. unfold fetchNpmInfo, bind, cache_get, ret.
  rewrite Hc, Ht. reflexivity.
Qed.

Lemma fetchAlternative_hit E p w v :
  cache w !! alt_key p = Some v -> truthy v = true ->
  fetchAlternative E p false w = (Ok v, w).
Proof.
  intros Hc Ht. unfold fetchAlternative, bind, cache_get, ret.
  rewrite Hc, Ht. reflexivity.
Qed.

Lemma info_lookup_requests E p r w res w' :
  info_lookup E p r w res w' ->
  requests w' = requests w \/ requests w' = requests w ++ [registry_url p].
Proof. intros H. destruct H; simpl; auto. Qed.

Lemma alt_lookup_requests E p r w alt w' :
  alt_lookup E p r w alt w' ->
  requests w' = requests w \/ requests w' = requests w ++ [search_url p].
Proof. intros H. destruct H; simpl; auto. Qed.

Lemma info_lookup_stored E p r w v w' :
  info_lookup E p r w (Ok v) w' -> cache w' !! npmInfo_key p = Some v.
Proof.
  intros H. inversion H; subst; simpl; [assumption|].
  apply lookup_insert_eq.
Qed.

Lemma alt_lookup_stored E p r w v w' :
  alt_lookup E p r w v w' -> truthy v = true ->
  cache w' !! alt_key p = Some v.
Proof.
  intros H Ht. inversion H; subst; simpl; try assumption;
    try (apply lookup_insert_eq); discriminate.
Qed.

(** C4, amended: a lookup without refresh that returns a truthy value (a
    registry document, a found suggestion) leaves it in the cache under
    [npmInfo:p], respectively [alt:p], after at most one request; from then
    on every lookup without refresh, in any state of the process whose cache
    holds that entry, returns the same value and issues no request. *)
Theorem truthy_entry_is_reused (E : env) (p : string) :
  (forall w v w1,
      fetchNpmInfo E p false w = (Ok v, w1) -> truthy v = true ->
      (List.length (requests w1) <= S (List.length (requests w)))%nat /\
      cache w1 !! npmInfo_key p = Some v /\
      fetchNpmInfo E p false w1 = (Ok v, w1) /\
      forall w2, cache w2 !! npmInfo_key p = Some v ->
                 fetchNpmInfo E p false w2 = (Ok v, w2)) /\
  (forall w v w1,
      fetchAlternative E p false w = (Ok v, w1) -> truthy v = true ->
      (List.length (requests w1) <= S (List.length (requests w)))%nat /\
      cache w1 !! alt_key p = Some v /\
      fetchAlternative E p false w1 = (Ok v, w1) /\
      forall w2, cache w2 !! alt_key p = Some v ->
                 fetchAlternative E p false w2 = (Ok v, w2)).
Proof.
  split; intros w v w1 Hcall Ht.
  - destruct (fetchNpmInfo_spec E p false w) as (res & w' & Heq & Hl).
    rewrite Hcall in Heq. injection Heq as <- <-.
    pose proof (info_lookup_stored _ _ _ _ _ _ Hl) as Hst.
    repeat split.
    + destruct (info_lookup_requests _ _ _ _ _ _ Hl) as [-> | ->];
        [lia | rewrite length_app; simpl; lia].
    + exact Hst.
    + apply fetchNpmInfo_hit; assumption.
    + intros w2 Hc. apply fetchNpmInfo_hit; assumption.
  - destruct (fetchAlternative_spec E p false w) as (alt & w' & Heq & Hl).
    rewrite Hcall in Heq. injection Heq as <- <-.
    pose proof (alt_lookup_stored _ _ _ _ _ _ Hl Ht) as Hst.
    repeat split.
    + destruct (alt_lookup_requests _ _ _ _ _ _ Hl) as [-> | ->];
        [lia | rewrite length_app; simpl; lia].
    + exact Hst.
    + apply fetchAlternative_hit; assumption.
    + intros w2 Hc. apply fetchAlternative_hit; assumption.
Qed.

(** C4 fails as stated: a lookup whose request fails writes nothing to the
    cache, so two calls of [fetchAlternative] without refresh, both returning
    [null], issue two requests, and so do two failing calls of
    [fetchNpmInfo]; and when the search finds nothing, [null] is written
    under [alt:left-pad] and the next call, which tests the entry for
    truthiness, passes it over and queries the network again. *)
Lemma second_lookup_queries_again :
  let first := fetchAlternative offline "left-pad" false (fresh_world None) in
  let second := fetchAlternative offline "left-pad" false (snd first) in
  let v1 := snd (fetchNpmInfo offline "left-pad" false (fresh_world None)) in
  let v2 := snd (fetchNpmInfo offline "left-pad" false v1) in
  let E := scenario (left_pad_net []) (fun _ => "") in
  let w1 := snd (fetchAlternative E "left-pad" false (fresh_world None)) in
  let w2 := snd (fetchAlternative E "left-pad" false w1) in
  (fst first = Ok JNull /\ fst second = Ok JNull /\
   requests (snd second) = [search_url "left-pad"; search_url "left-pad"]) /\
  requests v2 = [registry_url "left-pad"; registry_url "left-pad"] /\
  (cache w1 !! alt_key "left-pad" = Some JNull /\
   requests w2 = [search_url "left-pad"; search_url "left-pad"]).
Proof. vm_compute. repeat split; reflexivity. Qed.

Lemma truthy_entry_is_reused_witness :
  let E := scenario (left_pad_net ["string-pad"]) (fun _ => "") in
  let w := fresh_world None in
  let info := deprecated_doc "use String.prototype.padStart()" in
  let w1 := snd (fetchNpmInfo E "left-pad" false w) in
  let w2 := snd (fetchAlternative E "left-pad" false w1) in
  fetchNpmInfo E "left-pad" false w1 = (Ok info, w1) /\
  fetchAlternative E "left-pad" false w2 = (Ok (JStr "string-pad"), w2).
Proof.
  intros E w info w1 w2. split.
  - refine (proj1 (proj2 (proj2
      (proj1 (truthy_entry_is_reused E "left-pad") w info w1 _ _)))).
    + vm_compute. reflexivity.
    + reflexivity.
  - refine (proj1 (proj2 (proj2
      (proj2 (truthy_entry_is_reused E "left-pad") w1 (JStr "string-pad") w2
         _ _)))).
    + vm_compute. reflexivity.
    + reflexivity.
Defined.

(** ** C7: the alternative finder never raises *)

Lemma cache_miss_not_hit key r w j :
  cache_miss key r w -> r = false -> cache w !! key = Some j ->
  truthy j = true -> False.
Proof.
  intros [Hr | Hf] -> Hc Ht; [discriminate|].
  rewrite Hc in Hf. simpl in Hf. congruence.
Qed.





(** ** C10: documents without a deprecation message *)

(** What is printed does not bear on a lookup. *)
Lemma fetchNpmInfo_log_output E p r o w :
  fetchNpmInfo E p r (log_output o w) =
  (fst (fetchNpmInfo E p r w), log_output o (snd (fetchNpmInfo E p r w))).
Proof.
  unfold fetchNpmInfo, download_info, bind, cache_get, https_request,
    cache_set, ret, throw. cbv beta.
  change (cache (log_output o w)) with (cache w).
  destruct (cache w !! npmInfo_key p) as [j|];
    [destruct (negb r && truthy j)|];
    cbv beta;
    change (requests (log_output o w)) with (requests w);
    try reflexivity;
    destruct (https_get E (List.length (requests w)) (registry_url p));
    reflexivity.
Qed.

Lemma no_deprecation_shape_message E info :
  info <> JNull -> no_deprecation_shape E info ->
  exists m, deprecated_message E info = Ok m /\ js_truthy m = false.
Proof.
  intros Hn Hshape.
  assert (Hm : deprecated_message E info =
               if nullish (versions_of info) then Ok None
               else match to_property_key E (latest_tag info) with
                    | Throw e => Throw e
                    | Ok key =>
                        Ok (js_get_opt (js_get_opt (versions_of info) key)
                              "deprecated")
                    end).
  { unfold deprecated_message, latest_tag, versions_of, js_get.
    destruct info; try reflexivity. contradiction. }
  rewrite Hm.
  destruct (nullish (versions_of info)) eqn:Hv; [exists None; auto|].
  destruct Hshape as [Hl Hu | Hnone | key Hk He | key Hk Hd | key Hk Hd].
  - rewrite Hl. simpl to_property_key. cbv iota beta. rewrite Hu.
    exists None. auto.
  - congruence.
  - rewrite Hk, He. exists None. auto.
  - rewrite Hk, Hd. exists None. auto.
  - rewrite Hk, Hd. eexists. split; reflexivity.
Qed.

Lemma scan_dep_eq E opts dep L w :
  scan_dep E opts dep L w =
  let failed := SpinnerFail (dep +:+ " check failed") in
  match fetchNpmInfo E dep (scan_refresh opts)
          (log_output (checking dep) w) with
  | (Ok info, w1) =>
      match deprecated_message E info with
      | Ok m =>
          if js_truthy m then
            match fetchAlternative E dep (scan_refresh opts) w1 with
            | (Ok alt, w2) =>
                (Ok {| scan_results :=
                         scan_results L ++ [ScanDeprecated dep m alt];
                       deprecatedCount := S (deprecatedCount L) |},
                 settle failed
                   (if scan_jsonOutput opts then Ok tt else box_text E m alt)
                   w2)
            | (Throw _, w2) => (Ok L, log_output failed w2)
            end
          else
            (Ok (if scan_jsonOutput opts
                 then {| scan_results := scan_results L ++ [ScanHealthy dep];
                         deprecatedCount := deprecatedCount L |}
                 else L),
             log_output (SpinnerSucceed (dep +:+ " is healthy")) w1)
      | Throw _ => (Ok L, log_output failed w1)
      end
  | (Throw _, w1) => (Ok L, log_output failed w1)
  end.
Proof.
  unfold scan_dep, bind, try_catch, print, lift, ret, checking, settle.
  destruct (fetchNpmInfo E dep (scan_refresh opts) _) as [[info|e] w1];
    [|reflexivity].
  destruct (deprecated_message E info) as [m|e]; [|reflexivity].
  destruct (js_truthy m); [|reflexivity].
  destruct (fetchAlternative E dep (scan_refresh opts) w1) as [[alt|e] w2];
    [|reflexivity].
  destruct (scan_jsonOutput opts); [reflexivity|].
  destruct (box_text E m alt); reflexivity.
Qed.

(** C10, amended: when the registry lookup yields a document other than
    [null] that has no [versions], or whose latest tag can be converted to
    a property key and that lacks the entry of [versions] under that key,
    or whose entry lacks [deprecated] or carries the empty string there, or
    that lacks [dist-tags.latest] and has no entry [versions["undefined"]],
    the scan and the migration both classify the dependency as healthy:
    nothing is thrown, the spinner succeeds, no alternative is looked up,
    the scan records at most a healthy entry and the migration records
    nothing and leaves the manifest alone. *)
Theorem no_deprecation_is_healthy (E : env) (dep : string) (r : bool)
  (info : json) (w : world) :
  fst (fetchNpmInfo E dep r w) = Ok info ->
  info <> JNull ->
  no_deprecation_shape E info ->
  let w1 := snd (fetchNpmInfo E dep r w) in
  (forall sopts sL,
      scan_refresh sopts = r ->
      scan_dep E sopts dep sL w =
      (Ok (if scan_jsonOutput sopts
           then {| scan_results := scan_results sL ++ [ScanHealthy dep];
                   deprecatedCount := deprecatedCount sL |}
           else sL),
       log_output (SpinnerSucceed (dep +:+ " is healthy"))
         (log_output (SpinnerStart ("Checking " +:+ dep +:+ "...")) w1))) /\
  (forall opts s L,
      refresh opts = r ->
      migrate_dep E opts s dep L w =
      (Ok L,
       log_output (SpinnerSucceed (dep +:+ " is fine"))
         (log_output (migrating dep) w1))).
Proof.
  intros Hf Hn Hshape w1.
  destruct (no_deprecation_shape_message E info Hn Hshape) as (m & Hm & Hfalsy).
  split.
  - intros sopts sL <-. rewrite scan_dep_eq. cbv zeta.
    rewrite fetchNpmInfo_log_output, Hf, Hm, Hfalsy. reflexivity.
  - intros opts s L <-. rewrite migrate_dep_eq. cbv zeta.
    rewrite fetchNpmInfo_log_output, Hf, Hm, Hfalsy. reflexivity.
Qed.

(** C10 fails as stated: the body [null] parses as JSON and has no
    [dist-tags.latest], yet reading [info["dist-tags"]] throws and both loops
    report the check as failed. *)
Lemma null_document_fails_the_check :
  let w := fresh_world (Some left_pad_manifest) in
  console (snd (scanDependencies null_registry
                  {| scan_jsonOutput := false; scan_refresh := false |} w)) =
  [SpinnerStart "Checking left-pad..."; SpinnerFail "left-pad check failed";
   ScanSummary 1 0 1] /\
  console (snd (migrateDependencies null_registry
                  {| interactive := false; dryRun := false;
                     jsonOutput := false; refresh := false |} w)) =
  [SpinnerStart "Migrating left-pad...";
   SpinnerFail "left-pad migration check failed"; MigrateSummary 0 0].
Proof. vm_compute. split; reflexivity. Qed.

(** The proviso on the latest tag is needed: a tag that is an object with a
    member called [toString] cannot be converted to a property key, so
    [versions?.[latest]] throws although [versions] has no entry for it,
    and both loops report the check as failed. *)
Example unkeyable_tag_fails_the_check :
  let w := fresh_world (Some left_pad_manifest) in
  console (snd (scanDependencies odd_tag_registry
                  {| scan_jsonOutput := false; scan_refresh := false |} w)) =
  [SpinnerStart "Checking left-pad..."; SpinnerFail "left-pad check failed";
   ScanSummary 1 0 1] /\
  console (snd (migrateDependencies odd_tag_registry
                  {| interactive := false; dryRun := false;
                     jsonOutput := false; refresh := false |} w)) =
  [SpinnerStart "Migrating left-pad...";
   SpinnerFail "left-pad migration check failed"; MigrateSummary 0 0].
Proof. vm_compute. split; reflexivity. Qed.

Lemma no_deprecation_is_healthy_witness :
  let E := scenario (fun _ => JsonBody healthy_doc) (fun _ => "") in
  let w := fresh_world (Some left_pad_manifest) in
  let opts := {| interactive := false; dryRun := false;
                 jsonOutput := false; refresh := false |} in
  let L := {| pkg := left_pad_manifest; modified := false; results := [];
              replacedCount := 0; skippedCount := 0 |} in
  fst (migrate_dep E opts Dependencies "left-pad" L w) = Ok L.
Proof.
  intros E w opts L.
  assert (Hshape : no_deprecation_shape E healthy_doc)
    by (apply (lacks_deprecated_field E healthy_doc "2.0.0"); reflexivity).
  assert (Hn : healthy_doc <> JNull) by discriminate.
  rewrite (proj2 (no_deprecation_is_healthy E "left-pad" false healthy_doc w
                    eq_refl Hn Hshape) opts Dependencies L eq_refl).
  reflexivity.
Defined.

(** ** Loops *)

Lemma for_of_app {A B} (l1 l2 : list A) (body : A -> B -> M B) b w :
  for_of (l1 ++ l2) body b w =
  match for_of l1 body b w with
  | (Ok b1, w1) => for_of l2 body b1 w1
  | (Throw e, w1) => (Throw e, w1)
  end.
Proof.
  revert b w. induction l1 as [|a l1 IH]; intros b w; simpl.
  - reflexivity.
  - unfold bind. destruct (body a b w) as [[b'|e] w']; [apply IH|reflexivity].
Qed.

Lemma for_of_map {A A' B} (f : A -> A') (l : list A) (body : A' -> B -> M B)
  b w :
  for_of (List.map f l) body b w = for_of l (fun a => body (f a)) b w.
Proof.
  revert b w. induction l as [|a l IH]; intros b w; simpl.
  - reflexivity.
  - unfold bind. destruct (body (f a) b w) as [[b'|e] w'];
      [apply IH|reflexivity].
Qed.

(** A loop whose body always returns and keeps [I] returns and keeps [I]. *)
Lemma for_of_invariant {A B} (I : B -> world -> Prop) (l : list A)
  (body : A -> B -> M B) :
  (forall a b w, In a l -> I b w ->
                 exists b' w', body a b w = (Ok b', w') /\ I b' w') ->
  forall b w, I b w ->
              exists b' w', for_of l body b w = (Ok b', w') /\ I b' w'.
Proof.
  induction l as [|a l IH]; intros Hbody b w HI; simpl.
  - exists b, w. split; [reflexivity | exact HI].
  - destruct (Hbody a b w (or_introl eq_refl) HI) as (b1 & w1 & Hb & HI1).
    unfold bind. rewrite Hb. apply IH; [|exact HI1].
    intros a' b' w' Hin. apply Hbody. right. exact Hin.
Qed.

(** ** One turn of the migration loop *)

(** The five ways of a turn, with the names used below. *)
Ltac step_cases H :=
  destruct H as [e w1 Hi | info e w1 Hi Hm | info m w1 Hi Hm Ht
                | info m alt e w1 w2 Hi Hm Ht Ha Hint Hq
                | info m alt b w1 w2 w3 Hi Hm Ht Ha Hc].

Lemma migrate_step_locals E opts s dep L w L' w' :
  migrate_step E opts s dep L w L' w' -> locals_step E opts s dep L L'.
Proof. intros H. destruct H; constructor. Qed.

Lemma info_lookup_frame E p r w res w' :
  info_lookup E p r w res w' ->
  package_json w' = package_json w /\ writes w' = writes w /\
  installs w' = installs w /\ console w' = console w /\
  questions w' = questions w.
Proof. intros H. destruct H; simpl; auto. Qed.

Lemma alt_lookup_frame E p r w alt w' :
  alt_lookup E p r w alt w' ->
  package_json w' = package_json w /\ writes w' = writes w /\
  installs w' = installs w /\ console w' = console w /\
  questions w' = questions w.
Proof. intros H. destruct H; simpl; auto. Qed.

Lemma confirmation_frame E opts dep alt w b w' :
  confirmation E opts dep alt w b w' ->
  package_json w' = package_json w /\ writes w' = writes w /\
  installs w' = installs w /\ console w' = console w /\
  cache w' = cache w /\ requests w' = requests w.
Proof. intros H. destruct H; simpl; auto 10. Qed.

(** The [catch] prints and does nothing more. *)
Lemma settle_frame failed r w :
  package_json (settle failed r w) = package_json w /\
  writes (settle failed r w) = writes w /\
  installs (settle failed r w) = installs w /\
  cache (settle failed r w) = cache w /\
  requests (settle failed r w) = requests w /\
  questions (settle failed r w) = questions w.
Proof. destruct r; simpl; auto 10. Qed.

Lemma spinner_starts_app out1 out2 :
  spinner_starts (out1 ++ out2) = spinner_starts out1 ++ spinner_starts out2.
Proof.
  induction out1 as [|o out1 IH]; simpl; [reflexivity|].
  destruct o; simpl; rewrite ?IH; reflexivity.
Qed.

Lemma settle_spinner text r w :
  spinner_starts (console (settle (SpinnerFail text) r w)) =
  spinner_starts (console w).
Proof.
  destruct r; simpl; [reflexivity|].
  rewrite spinner_starts_app. simpl. apply app_nil_r.
Qed.

(** A turn touches neither the file nor the package manager. *)
Lemma migrate_step_files E opts s dep L w L' w' :
  migrate_step E opts s dep L w L' w' ->
  package_json w' = package_json w /\ writes w' = writes w /\
  installs w' = installs w.
Proof.
  intros H. step_cases H.
  - destruct (info_lookup_frame _ _ _ _ _ _ Hi) as (H1 & H2 & H3 & _).
    simpl in *. repeat split; congruence.
  - destruct (info_lookup_frame _ _ _ _ _ _ Hi) as (H1 & H2 & H3 & _).
    simpl in *. repeat split; congruence.
  - destruct (info_lookup_frame _ _ _ _ _ _ Hi) as (H1 & H2 & H3 & _).
    simpl in *. repeat split; congruence.
  - destruct (alt_lookup_frame _ _ _ _ _ _ Ha) as (H4 & H5 & H6 & _).
    destruct (info_lookup_frame _ _ _ _ _ _ Hi) as (H7 & H8 & H9 & _).
    simpl in *. repeat split; congruence.
  - destruct (settle_frame
                (SpinnerFail (dep +:+ " migration check failed"))
                (snd (record_decision E opts s dep alt b L)) w3)
      as (H0 & H0' & H0'' & _).
    destruct (confirmation_frame _ _ _ _ _ _ _ Hc) as (H1 & H2 & H3 & _).
    destruct (alt_lookup_frame _ _ _ _ _ _ Ha) as (H4 & H5 & H6 & _).
    destruct (info_lookup_frame _ _ _ _ _ _ Hi) as (H7 & H8 & H9 & _).
    simpl in *. repeat split; congruence.
Qed.

(** A turn starts the spinner once, for the name it visits. *)
Lemma migrate_step_spinner E opts s dep L w L' w' :
  migrate_step E opts s dep L w L' w' ->
  spinner_starts (console w') =
  spinner_starts (console w) ++ ["Migrating " +:+ dep +:+ "..."].
Proof.
  intros H. step_cases H.
  - destruct (info_lookup_frame _ _ _ _ _ _ Hi) as (_ & _ & _ & Hcon & _).
    simpl in *. rewrite Hcon. rewrite !spinner_starts_app. simpl.
    rewrite app_nil_r. reflexivity.
  - destruct (info_lookup_frame _ _ _ _ _ _ Hi) as (_ & _ & _ & Hcon & _).
    simpl in *. rewrite Hcon. rewrite !spinner_starts_app. simpl.
    rewrite app_nil_r. reflexivity.
  - destruct (info_lookup_frame _ _ _ _ _ _ Hi) as (_ & _ & _ & Hcon & _).
    simpl in *. rewrite Hcon. rewrite !spinner_starts_app. simpl.
    rewrite app_nil_r. reflexivity.
  - destruct (alt_lookup_frame _ _ _ _ _ _ Ha) as (_ & _ & _ & H2 & _).
    destruct (info_lookup_frame _ _ _ _ _ _ Hi) as (_ & _ & _ & H3 & _).
    simpl in *. rewrite H2, H3. rewrite !spinner_starts_app. simpl.
    rewrite app_nil_r. reflexivity.
  - rewrite settle_spinner.
    destruct (confirmation_frame _ _ _ _ _ _ _ Hc) as (_ & _ & _ & H1 & _).
    destruct (alt_lookup_frame _ _ _ _ _ _ Ha) as (_ & _ & _ & H2 & _).
    destruct (info_lookup_frame _ _ _ _ _ _ Hi) as (_ & _ & _ & H3 & _).
    simpl in *. rewrite H1, H2, H3. rewrite spinner_starts_app. reflexivity.
Qed.

Lemma get_set_section s s' o p :
  get_section s' (set_section s o p) =
  match s, s' with
  | Dependencies, Dependencies => o
  | DevDependencies, DevDependencies => o
  | _, _ => get_section s' p
  end.
Proof. destruct s, s'; reflexivity. Qed.

Lemma same_section_spec s s' : same_section s s' = true <-> s = s'.
Proof. destruct s, s'; simpl; split; congruence. Qed.

Lemma same_section_refl s : same_section s s = true.
Proof. destruct s; reflexivity. Qed.

(** The branches of [record_decision] end in one of the ways of
    [decision]. *)
Lemma record_decision_spec E opts s dep alt b L :
  decision E opts s dep alt L b
    (fst (record_decision E opts s dep alt b L))
    (snd (record_decision E opts s dep alt b L)).
Proof.
  unfold record_decision.
  destruct (b && truthy alt) eqn:Hb; [|apply decision_skipped; exact Hb].
  apply andb_prop in Hb. destruct Hb as [-> Ht].
  unfold narrated, to_property_key.
  destruct (dryRun opts) eqn:Hdry.
  - destruct (jsonOutput opts) eqn:Hj; simpl.
    + apply decision_rehearsed; auto. unfold narrated. rewrite Hj. reflexivity.
    + destruct (js_to_string E alt) as [key|e] eqn:Hk; simpl.
      * apply decision_rehearsed; auto. unfold narrated. rewrite Hj, Hk.
        reflexivity.
      * apply decision_rehearsed_unprinted; auto.
  - destruct (jsonOutput opts) eqn:Hj; simpl.
    + destruct (js_to_string E alt) as [key|e] eqn:Hk; simpl.
      * apply decision_replaced; auto.
      * apply decision_unkeyed; auto.
    + destruct (js_to_string E alt) as [key|e] eqn:Hk; simpl.
      * apply decision_replaced; auto.
      * apply decision_unprinted; auto.
Qed.

(** The ways a decision can end, by cases. *)
Ltac decision_cases E opts s dep alt b L :=
  let Hd := fresh "Hd" in
  let doReplace := fresh "doReplace" in
  let Hanswer := fresh "Hanswer" in
  pose proof (record_decision_spec E opts s dep alt b L) as Hd;
  destruct (record_decision E opts s dep alt b L) as [? ?];
  simpl fst in *; simpl snd in *;
  remember b as doReplace eqn:Hanswer in Hd;
  destruct Hd as [doReplace Hskip | Htruthy Hdry Hnarr
                 | e Htruthy Hdry Hjson Hkey
                 | key Htruthy Hdry Hkey | e Htruthy Hdry Hjson Hkey
                 | e Htruthy Hdry Hjson Hkey].

Lemma get_section_delete s s' dep L :
  get_section s' (pkg (delete_dependency s dep L)) =
  if same_section s s'
  then option_map (obj_delete dep) (get_section s (pkg L))
  else get_section s' (pkg L).
Proof.
  unfold delete_dependency. simpl pkg. rewrite get_set_section.
  destruct s, s'; reflexivity.
Qed.

Lemma get_section_insert s s' key L :
  get_section s' (pkg (insert_dependency s key L)) =
  if same_section s s'
  then option_map (obj_set key "latest") (get_section s (pkg L))
  else get_section s' (pkg L).
Proof.
  unfold insert_dependency. simpl pkg. rewrite get_set_section.
  destruct s, s'; reflexivity.
Qed.

(** The turns of a section's loop leave the other section as it was, and
    keep every section that is an object an object. *)
Lemma locals_step_sections E opts s dep L L' s' :
  locals_step E opts s dep L L' ->
  (s <> s' -> get_section s' (pkg L') = get_section s' (pkg L)) /\
  (get_section s' (pkg L) = None <-> get_section s' (pkg L') = None).
Proof.
  intros H. destruct H as [|alt b]; [tauto|].
  decision_cases E opts s dep alt b L; try (simpl; tauto);
    rewrite ?get_section_insert, ?get_section_delete;
    (destruct (same_section s s') eqn:Hs; [|simpl; tauto]);
    apply same_section_spec in Hs; subst s';
    rewrite ?get_section_delete, ?same_section_refl; simpl pkg;
    (split; [congruence|]);
    destruct (get_section s (pkg L)); simpl; split; congruence.
Qed.

Lemma locals_step_results E opts s dep L L' :
  locals_step E opts s dep L L' ->
  results L' = results L \/
  exists r, results L' = results L ++ [r] /\ dependency r = dep.
Proof.
  intros H. destruct H as [|alt b]; [auto|]. right.
  decision_cases E opts s dep alt b L; simpl; eauto.
Qed.

(** ** The run, turn by turn *)

Lemma run_invariant E opts (I : locals -> world -> Prop)
  (l : list (section_name * string)) :
  (forall v L w L' w',
      In v l -> I L w ->
      migrate_step E opts (fst v) (snd v) L w L' w' -> I L' w') ->
  forall L w, I L w ->
              exists L' w',
                for_of l (visit E opts) L w = (Ok L', w') /\ I L' w'.
Proof.
  intros Hstep. apply for_of_invariant. intros v L w Hin HI.
  destruct (migrate_dep_spec E opts (fst v) (snd v) L w)
    as (L' & w' & Heq & Hs).
  exists L', w'. split; [exact Heq | eauto].
Qed.

Lemma run_returns E opts l L w :
  exists L' w', for_of l (visit E opts) L w = (Ok L', w').
Proof.
  destruct (run_invariant E opts (fun _ _ => True) l) with (L := L) (w := w)
    as (L' & w' & Heq & _); eauto.
Qed.

Lemma section_visits_fst s p v : In v (section_visits s p) -> fst v = s.
Proof.
  unfold section_visits. destruct (get_section s p); [|contradiction].
  rewrite in_map_iff. intros (k & <- & _). reflexivity.
Qed.

(** The loop of one section leaves the other section as it was. *)
Lemma run_keeps_other_section E opts l s' L w L' w' :
  (forall v, In v l -> fst v <> s') ->
  for_of l (visit E opts) L w = (Ok L', w') ->
  get_section s' (pkg L') = get_section s' (pkg L).
Proof.
  intros Hl Hrun.
  destruct (run_invariant E opts
              (fun L1 _ => get_section s' (pkg L1) = get_section s' (pkg L)) l)
    with (L := L) (w := w) as (L1 & w1 & Heq & HI).
  - intros v La wa Lb wb Hin HI Hs.
    apply migrate_step_locals in Hs.
    destruct (locals_step_sections _ _ _ _ _ _ s' Hs) as [Hother _].
    rewrite (Hother (Hl v Hin)). exact HI.
  - reflexivity.
  - rewrite Hrun in Heq. injection Heq as <- <-. exact HI.
Qed.

Lemma migrate_section_flat E opts s L w :
  migrate_section E opts s L w =
  for_of (section_visits s (pkg L)) (visit E opts) L w.
Proof.
  unfold migrate_section, section_visits.
  destruct (get_section s (pkg L)) as [deps|]; [|reflexivity].
  rewrite for_of_map. reflexivity.
Qed.

(** The two nested loops visit the names the manifest had when it was read:
    the keys of [dependencies], then those of [devDependencies]. *)
Lemma migrate_loop_flat E opts p w :
  migrate_loop E opts p w =
  for_of (visits p) (visit E opts) (initial_locals p) w.
Proof.
  unfold migrate_loop, sections, visits. fold (initial_locals p).
  rewrite for_of_app. simpl for_of. unfold bind at 1.
  rewrite migrate_section_flat. simpl pkg.
  destruct (for_of (section_visits Dependencies p) (visit E opts)
              (initial_locals p) w) as [[L1|e] w1] eqn:Hfirst;
    [|reflexivity].
  unfold bind. rewrite migrate_section_flat.
  assert (Hsame : section_visits DevDependencies (pkg L1) =
                  section_visits DevDependencies p).
  { assert (Hdeps : forall v, In v (section_visits Dependencies p) ->
                                fst v <> DevDependencies).
    { intros v Hv. rewrite (section_visits_fst _ _ _ Hv). discriminate. }
    unfold section_visits.
    rewrite (run_keeps_other_section _ _ _ _ _ _ _ _ Hdeps Hfirst).
    reflexivity. }
  rewrite Hsame.
  destruct (for_of (section_visits DevDependencies p) (visit E opts) L1 w1)
    as [[L2|e] w2]; reflexivity.
Qed.

(** ** C9: the names visited *)

(** C9, amended: the names a run visits are the keys the two sections had
    when the manifest was read, each section's keys in order, whatever the
    run inserts; every action record is for one of these names.  An
    alternative inserted as a replacement is therefore checked in the same
    run only when its name was already such a key. *)
Theorem visited_names_are_initial_keys (E : env) (opts : options)
  (p : manifest) (w : world) :
  exists L w',
    migrate_loop E opts p w = (Ok L, w') /\
    spinner_starts (console w') =
    spinner_starts (console w) ++
    List.map (fun v => "Migrating " +:+ snd v +:+ "...") (visits p) /\
    forall r, In r (results L) -> In (dependency r) (List.map snd (visits p)).
Proof.
  rewrite migrate_loop_flat.
  assert (Hgen : forall l L0 w0,
    exists L w',
      for_of l (visit E opts) L0 w0 = (Ok L, w') /\
      spinner_starts (console w') =
      spinner_starts (console w0) ++
      List.map (fun v => "Migrating " +:+ snd v +:+ "...") l /\
      forall r, In r (results L) ->
                In r (results L0) \/ In (dependency r) (List.map snd l)).
  { induction l as [|v l IH]; intros L0 w0.
    - exists L0, w0. simpl. rewrite app_nil_r. auto.
    - simpl for_of. unfold bind. unfold visit at 1.
      destruct (migrate_dep_spec E opts (fst v) (snd v) L0 w0)
        as (L1 & w1 & Heq & Hs).
      rewrite Heq. destruct (IH L1 w1) as (L & w' & Hrun & Hcon & Hres).
      exists L, w'. split; [exact Hrun|]. split.
      + rewrite Hcon, (migrate_step_spinner _ _ _ _ _ _ _ _ Hs).
        rewrite <- app_assoc. reflexivity.
      + intros r Hr. destruct (Hres r Hr) as [H1|Hin].
        * apply migrate_step_locals in Hs.
          destruct (locals_step_results _ _ _ _ _ _ Hs) as [Hsame|(r' & Ha & Hd)].
          -- left. rewrite <- Hsame. exact H1.
          -- rewrite Ha in H1. apply in_app_or in H1.
             destruct H1 as [H1|[<-|[]]]; [left; exact H1|].
             right. left. symmetry. exact Hd.
        * right. right. exact Hin. }
  destruct (Hgen (visits p) (initial_locals p) w) as (L & w' & Hrun & Hc & Hr).
  exists L, w'. split; [exact Hrun|]. split; [exact Hc|].
  intros r Hin. destruct (Hr r Hin) as [[]|H]. exact H.
Qed.

(** C9 fails as stated: [node-fetch], inserted as the replacement of
    [request], was a key of the section when its loop began; it is visited
    in its turn, found deprecated and replaced in the same run. *)
Lemma inserted_alternative_is_checked :
  let E := scenario request_net (fun _ => "") in
  let out := migrate_loop E silent_run request_manifest
               (fresh_world (Some request_manifest)) in
  exists L w',
    out = (Ok L, w') /\
    results L =
    [{| dependency := "request"; action := Replaced;
        alternative := Some (JStr "node-fetch") |};
     {| dependency := "node-fetch"; action := Replaced;
        alternative := Some (JStr "undici") |}] /\
    dependencies (pkg L) = Some [("undici", "latest")] /\
    requests w' =
    [registry_url "request"; search_url "request";
     registry_url "node-fetch"; search_url "node-fetch"].
Proof. vm_compute. eexists _, _. repeat split; reflexivity. Qed.

(** ** C8: a name declared in both sections *)

Lemma run_split E opts l1 v l2 L w :
  exists L1 w1 L2 w2 L3 w3,
    for_of l1 (visit E opts) L w = (Ok L1, w1) /\
    migrate_dep E opts (fst v) (snd v) L1 w1 = (Ok L2, w2) /\
    migrate_step E opts (fst v) (snd v) L1 w1 L2 w2 /\
    for_of l2 (visit E opts) L2 w2 = (Ok L3, w3) /\
    for_of (l1 ++ v :: l2) (visit E opts) L w = (Ok L3, w3).
Proof.
  destruct (run_returns E opts l1 L w) as (L1 & w1 & H1).
  destruct (migrate_dep_spec E opts (fst v) (snd v) L1 w1)
    as (L2 & w2 & H2 & Hs).
  destruct (run_returns E opts l2 L2 w2) as (L3 & w3 & H3).
  exists L1, w1, L2, w2, L3, w3. repeat split; try assumption.
  rewrite for_of_app, H1. simpl for_of. unfold bind. unfold visit at 1.
  rewrite H2. exact H3.
Qed.



(** ** The run: the file, the records and the flags *)

Lemma with_dryRun_id opts : with_dryRun (dryRun opts) opts = opts.
Proof. destruct opts; reflexivity. Qed.

(** The run touches neither the file nor the package manager. *)
Lemma run_files E opts l L w L' w' :
  for_of l (visit E opts) L w = (Ok L', w') ->
  package_json w' = package_json w /\ writes w' = writes w /\
  installs w' = installs w.
Proof.
  intros Hrun.
  destruct (run_invariant E opts
              (fun _ w1 => package_json w1 = package_json w /\
                           writes w1 = writes w /\ installs w1 = installs w)
              l) with (L := L) (w := w) as (L1 & w1 & Heq & HI).
  - intros v La wa Lb wb _ (H1 & H2 & H3) Hs.
    destruct (migrate_step_files _ _ _ _ _ _ _ _ Hs) as (H4 & H5 & H6).
    repeat split; congruence.
  - auto.
  - rewrite Hrun in Heq. injection Heq as <- <-. exact HI.
Qed.

Lemma run_preserves E opts (I : locals -> world -> Prop) l L w L' w' :
  (forall v La wa Lb wb,
      In v l -> I La wa ->
      migrate_step E opts (fst v) (snd v) La wa Lb wb -> I Lb wb) ->
  I L w -> for_of l (visit E opts) L w = (Ok L', w') -> I L' w'.
Proof.
  intros Hstep HI Hrun.
  destruct (run_invariant E opts I l Hstep L w HI) as (L1 & w1 & Heq & HI1).
  rewrite Hrun in Heq. injection Heq as <- <-. exact HI1.
Qed.

(** The record pushed is decided by the answer, the suggestion and the mode
    alone, whatever happens after the push. *)
Lemma record_decision_results E opts s dep alt b L :
  results (fst (record_decision E opts s dep alt b L)) =
  results L ++ [decided_record opts dep alt b].
Proof.
  unfold decided_record.
  decision_cases E opts s dep alt b L; subst; simpl;
    rewrite ?Hskip, ?Htruthy, ?Hdry; reflexivity.
Qed.

Lemma decided_record_name opts dep alt b :
  dependency (decided_record opts dep alt b) = dep.
Proof.
  unfold decided_record.
  destruct (b && truthy alt); [destruct (dryRun opts)|]; reflexivity.
Qed.

Lemma skipn_snoc {A} (l : list A) a :
  skipn (List.length l) (l ++ [a]) = [a].
Proof.
  rewrite skipn_app, skipn_all, Nat.sub_diag. reflexivity.
Qed.

(** The records of a turn: none, or the one it pushes. *)
Lemma locals_step_new_records E opts s dep L L' :
  locals_step E opts s dep L L' ->
  (L' = L /\ skipn (List.length (results L)) (results L') = []) \/
  exists alt b,
    L' = fst (record_decision E opts s dep alt b L) /\
    skipn (List.length (results L)) (results L') =
    [decided_record opts dep alt b].
Proof.
  intros H. destruct H as [|alt b].
  - left. split; [reflexivity | apply skipn_all].
  - right. exists alt, b. split; [reflexivity|].
    rewrite record_decision_results. apply skipn_snoc.
Qed.

(** What a dry turn can do to the loop's variables. *)
Lemma locals_step_dry E opts s dep L L' :
  dryRun opts = true -> locals_step E opts s dep L L' ->
  pkg L' = pkg L /\ modified L' = modified L /\
  replacedCount L' = replacedCount L /\
  (results L' = results L \/
   exists r, results L' = results L ++ [r] /\ action r <> Replaced).
Proof.
  intros Hd H. destruct H as [|alt b]; [auto|].
  decision_cases E opts s dep alt b L; simpl; try congruence;
    repeat split; right; eexists; (split; [reflexivity|]); discriminate.
Qed.

Lemma run_dry E opts l L w L' w' :
  dryRun opts = true ->
  for_of l (visit E opts) L w = (Ok L', w') ->
  pkg L' = pkg L /\ modified L' = modified L /\
  replacedCount L' = replacedCount L /\
  ((forall r, In r (results L) -> action r <> Replaced) ->
   forall r, In r (results L') -> action r <> Replaced).
Proof.
  intros Hdry Hrun.
  apply (run_preserves E opts
           (fun L1 _ =>
              pkg L1 = pkg L /\ modified L1 = modified L /\
              replacedCount L1 = replacedCount L /\
              ((forall r, In r (results L) -> action r <> Replaced) ->
               forall r, In r (results L1) -> action r <> Replaced))
           l L w L' w'); [| auto | exact Hrun].
  intros v La wa Lb wb _ (H1 & H2 & Hc & H3) Hs.
  apply migrate_step_locals in Hs.
  destruct (locals_step_dry _ _ _ _ _ _ Hdry Hs) as (H4 & H5 & Hc' & H6).
  split; [congruence|]. split; [congruence|]. split; [congruence|].
  intros H0 r Hr. destruct H6 as [H6 | (r' & H6 & Hne)]; rewrite H6 in Hr.
  - apply (H3 H0 r Hr).
  - apply in_app_or in Hr. destruct Hr as [Hr|[<-|[]]];
      [apply (H3 H0 r Hr) | exact Hne].
Qed.

Lemma existsb_snoc {A} (f : A -> bool) l a :
  existsb f (l ++ [a]) = existsb f l || f a.
Proof. rewrite existsb_app. simpl. rewrite orb_false_r. reflexivity. Qed.

(** [modified] is set exactly when a replacement is carried through, which
    a dry run never does. *)
Lemma locals_step_modified E opts s dep L L' :
  locals_step E opts s dep L L' ->
  existsb (is_applied E) (results L) = modified L ->
  (modified L = true -> dryRun opts = false) ->
  existsb (is_applied E) (results L') = modified L' /\
  (modified L' = true -> dryRun opts = false).
Proof.
  intros H Hex Hreal. destruct H as [|alt b]; [auto|].
  decision_cases E opts s dep alt b L; simpl;
    rewrite existsb_snoc, Hex; unfold is_applied, is_replaced, renders; simpl;
    rewrite ?Hkey; simpl; rewrite ?orb_false_r, ?orb_true_r; auto.
Qed.

Lemma run_modified E opts l L w L' w' :
  for_of l (visit E opts) L w = (Ok L', w') ->
  existsb (is_applied E) (results L) = modified L ->
  (modified L = true -> dryRun opts = false) ->
  existsb (is_applied E) (results L') = modified L' /\
  (modified L' = true -> dryRun opts = false).
Proof.
  intros Hrun Hex Hdry.
  apply (run_preserves E opts
           (fun L1 _ =>
              existsb (is_applied E) (results L1) = modified L1 /\
              (modified L1 = true -> dryRun opts = false))
           l L w L' w'); [| auto | exact Hrun].
  intros v La wa Lb wb _ [H1 H2] Hs.
  apply migrate_step_locals in Hs.
  eapply locals_step_modified; eassumption.
Qed.

(** A suggestion that is a string can always be printed and used as a key:
    for such records, applied and "replaced" are the same. *)
Lemma is_applied_string E r a :
  alternative r = Some (JStr a) -> is_applied E r = is_replaced r.
Proof.
  intros Ha. unfold is_applied, renders. rewrite Ha. simpl.
  apply andb_true_r.
Qed.

Lemma npmInfo_key_inj a b : npmInfo_key a = npmInfo_key b -> a = b.
Proof. unfold npmInfo_key. simpl. intros H. injection H as H. exact H. Qed.

Lemma alt_key_inj a b : alt_key a = alt_key b -> a = b.
Proof. unfold alt_key. simpl. intros H. injection H as H. exact H. Qed.

Lemma npmInfo_key_not_alt a b : npmInfo_key a <> alt_key b.
Proof. unfold npmInfo_key, alt_key. simpl. discriminate. Qed.

(** A turn for a name that is not deprecated records nothing and keeps the
    cache free of deprecation messages for the names in [N]. *)
Lemma migrate_step_never_deprecated E opts s dep L w L' w'
  (N : string -> Prop) :
  N dep ->
  (forall d, N d -> never_deprecated E (cache w) d) ->
  migrate_step E opts s dep L w L' w' ->
  L' = L /\ forall d, N d -> never_deprecated E (cache w') d.
Proof.
  intros Hdep Hnever Hs.
  assert (Hkeep : forall res w1,
             info_lookup E dep (refresh opts) (log_output (migrating dep) w)
               res w1 ->
             forall d, N d -> never_deprecated E (cache w1) d).
  { intros res w1 Hi d Hd. destruct (Hnever d Hd) as [Hnet Hcache].
    split; [exact Hnet|].
    inversion Hi; subst; simpl; try exact Hcache.
    intros info m Hlook. rewrite lookup_insert in Hlook.
    destruct (decide (npmInfo_key dep = npmInfo_key d)) as [Hk|Hk].
    - injection Hlook as <-. apply npmInfo_key_inj in Hk. subst d.
      simpl in *. eapply Hnet; eassumption.
    - apply Hcache; exact Hlook. }
  assert (Hnot : forall info m w1,
             info_lookup E dep (refresh opts) (log_output (migrating dep) w)
               (Ok info) w1 ->
             deprecated_message E info = Ok m -> js_truthy m = true -> False).
  { intros info m w1 Hi Hm Ht.
    destruct (Hnever dep Hdep) as [Hnet Hcache].
    inversion Hi; subst; simpl in *.
    - rewrite (Hcache _ _ ltac:(eassumption) Hm) in Ht. discriminate.
    - rewrite (Hnet _ _ _ ltac:(eassumption) Hm) in Ht. discriminate. }
  step_cases Hs.
  - split; [reflexivity|]. simpl. eapply Hkeep; eassumption.
  - split; [reflexivity|]. simpl. eapply Hkeep; eassumption.
  - split; [reflexivity|]. simpl. eapply Hkeep; eassumption.
  - exfalso. eapply Hnot; eassumption.
  - exfalso. eapply Hnot; eassumption.
Qed.

Lemma run_never_deprecated E opts l L w L' w' :
  (forall v, In v l -> never_deprecated E (cache w) (snd v)) ->
  for_of l (visit E opts) L w = (Ok L', w') -> L' = L.
Proof.
  intros Hnever Hrun.
  set (N := fun d => exists v, In v l /\ snd v = d).
  destruct (run_invariant E opts
              (fun L1 w1 =>
                 L1 = L /\ forall d, N d -> never_deprecated E (cache w1) d)
              l) with (L := L) (w := w) as (L1 & w1 & Heq & HI).
  - intros v La wa Lb wb Hin [-> Hc] Hs.
    eapply migrate_step_never_deprecated with (N := N) in Hs;
      [exact Hs | exists v; auto | exact Hc].
  - split; [reflexivity|]. intros d (v & Hin & <-). apply Hnever. exact Hin.
  - rewrite Hrun in Heq. injection Heq as <- <-. apply HI.
Qed.

Lemma runInstall_command pm w :
  exists cmd,
    In cmd install_commands /\ runInstall pm w = (Ok tt, log_install cmd w).
Proof.
  unfold runInstall, install_commands.
  destruct (pm =? "yarn"); [eexists; split; [|reflexivity]; simpl; auto|].
  destruct (pm =? "pnpm"); [eexists; split; [|reflexivity]; simpl; auto|].
  destruct (pm =? "bun"); eexists; (split; [|reflexivity]); simpl; auto.
Qed.

(** The whole of [migrateDependencies] on a manifest: the loops, then the
    write and the install when [!dryRun && modified], then the report. *)
Lemma migrateDependencies_outcome E opts w (p : manifest) :
  package_json w = Some (Manifest p) ->
  exists L w1 w',
    for_of (visits p) (visit E opts) (initial_locals p) w = (Ok L, w1) /\
    migrate_loop E opts p w = (Ok L, w1) /\
    migrateDependencies E opts w = (Ok tt, w') /\
    (if negb (dryRun opts) && modified L
     then writes w' = writes w ++ [pkg L] /\
          package_json w' = Some (Manifest (pkg L)) /\
          exists cmd, In cmd install_commands /\
                      installs w' = installs w ++ [cmd]
     else writes w' = writes w /\ package_json w' = package_json w /\
          installs w' = installs w).
Proof.
  intros Hp.
  destruct (run_returns E opts (visits p) (initial_locals p) w)
    as (L & w1 & Hrun).
  destruct (run_files E opts _ _ _ _ _ Hrun) as (Hf1 & Hf2 & Hf3).
  destruct (runInstall_command (detectPackageManager E)
              (store_manifest (pkg L) w1)) as (cmd & Hcmd & Hinst).
  set (report := if jsonOutput opts then MigrateReport (results L)
                 else MigrateSummary (replacedCount L) (skippedCount L)).
  assert (Hstart : forall k : manifest -> M unit,
             (let! parsed := readPackageJson in
              let! q := members_of parsed in k q) w = k p w).
  { intros k. unfold readPackageJson. unfold bind at 1. rewrite Hp.
    unfold bind at 1. reflexivity. }
  destruct (negb (dryRun opts) && modified L) eqn:Happlied.
  - exists L, w1,
      (log_output report (log_install cmd (store_manifest (pkg L) w1))).
    split; [exact Hrun|].
    split; [rewrite migrate_loop_flat; exact Hrun|].
    split.
    { unfold migrateDependencies. rewrite Hstart.
      unfold bind at 1. rewrite migrate_loop_flat, Hrun, Happlied.
      unfold bind at 1. unfold bind at 1. unfold writePackageJson.
      rewrite Hinst. unfold print, report.
      destruct (jsonOutput opts); reflexivity. }
    rewrite Happlied. simpl. rewrite Hf2, Hf3.
    split; [reflexivity|]. split; [reflexivity|]. exists cmd. auto.
  - exists L, w1, (log_output report w1).
    split; [exact Hrun|].
    split; [rewrite migrate_loop_flat; exact Hrun|].
    split.
    { unfold migrateDependencies. rewrite Hstart.
      unfold bind at 1. rewrite migrate_loop_flat, Hrun, Happlied.
      unfold bind, ret, print, report.
      destruct (jsonOutput opts); reflexivity. }
    rewrite Happlied. simpl. auto.
Qed.

(** ** C3: when the manifest is written *)

(** C3: after the loops the manifest is written, once, and one install
    command is run, exactly when the run is not a dry run and has applied a
    replacement, that is recorded a "replaced" whose alternative could be
    used as a property key (as every string can); otherwise the file, the
    list of writes and the list of installs are as before the run, however
    many "would-replace" and "skipped" records there are.  When neither the
    registry nor the cache reports any name of the manifest as deprecated,
    nothing is recorded and nothing is written, whatever the options. *)
Theorem write_and_reinstall_iff_replaced (E : env) (opts : options)
  (w : world) (p : manifest) :
  package_json w = Some (Manifest p) ->
  exists L w1 w',
    migrate_loop E opts p w = (Ok L, w1) /\
    migrateDependencies E opts w = (Ok tt, w') /\
    modified L = existsb (is_applied E) (results L) /\
    (if negb (dryRun opts) && existsb (is_applied E) (results L)
     then writes w' = writes w ++ [pkg L] /\
          package_json w' = Some (Manifest (pkg L)) /\
          exists cmd, In cmd install_commands /\
                      installs w' = installs w ++ [cmd]
     else writes w' = writes w /\ package_json w' = package_json w /\
          installs w' = installs w) /\
    ((forall r alt, In r (results L) -> alternative r = Some alt ->
                    exists a, alt = JStr a) ->
     existsb (is_applied E) (results L) = existsb is_replaced (results L)) /\
    ((forall v, In v (visits p) -> never_deprecated E (cache w) (snd v)) ->
     results L = [] /\ writes w' = writes w /\ installs w' = installs w).
Proof.
  intros Hp.
  destruct (migrateDependencies_outcome E opts w p Hp)
    as (L & w1 & w' & Hrun & Hloop & Hall & Hwr).
  destruct (run_modified E opts _ _ _ _ _ Hrun eq_refl
              ltac:(discriminate)) as [Hex _].
  exists L, w1, w'. split; [exact Hloop|]. split; [exact Hall|].
  split; [symmetry; exact Hex|].
  split; [rewrite Hex; exact Hwr|]. split.
  - intros Hstr. clear - Hstr. induction (results L) as [|r l IH];
      [reflexivity|].
    simpl. rewrite IH by (intros r' alt Hin; apply Hstr; right; exact Hin).
    f_equal. unfold is_applied, renders.
    destruct (alternative r) as [alt|] eqn:Ha; [|apply andb_true_r].
    destruct (Hstr r alt (or_introl eq_refl) Ha) as [a ->]. simpl.
    apply andb_true_r.
  - intros Hnever.
    pose proof (run_never_deprecated E opts _ _ _ _ _ Hnever Hrun) as ->.
    simpl in Hwr. rewrite andb_false_r in Hwr. simpl. tauto.
Qed.

Lemma write_and_reinstall_iff_replaced_witness :
  let E := scenario (fun _ => JsonBody healthy_doc) (fun _ => "") in
  let w := fresh_world (Some left_pad_manifest) in
  exists L w1 w',
    migrate_loop E silent_run left_pad_manifest w = (Ok L, w1) /\
    migrateDependencies E silent_run w = (Ok tt, w') /\
    results L = [] /\ writes w' = writes w /\ installs w' = installs w.
Proof.
  intros E w.
  destruct (write_and_reinstall_iff_replaced E silent_run w left_pad_manifest
              eq_refl) as (L & w1 & w' & Hloop & Hall & _ & _ & _ & Hnone).
  exists L, w1, w'. split; [exact Hloop|]. split; [exact Hall|].
  apply Hnone. intros v Hin. split.
  - intros n info m Hget Hm. simpl in Hget. injection Hget as <-.
    vm_compute in Hm. injection Hm as <-. reflexivity.
  - intros info m Hc. simpl in Hc. rewrite lookup_empty in Hc.
    discriminate Hc.
Defined.

(** ** The turn of a deprecated dependency with a suggestion *)

Section Replacement.
Variable E : env.
Variables (d : string) (a : json).
Hypothesis Hregistry : registry_deprecates E d.
Hypothesis Hsearch : search_suggests E d a.
Hypothesis Htruthy : truthy a = true.

Lemma info_lookup_agrees p r w res w' :
  cache_agrees E (cache w) d a -> info_lookup E p r w res w' ->
  cache_agrees E (cache w') d a.
Proof.
  intros [Hinfo Halt] Hl. inversion Hl; subst; simpl; try (split; assumption).
  split.
  - intros info Hlook Ht. rewrite lookup_insert in Hlook.
    destruct (decide (npmInfo_key p = npmInfo_key d)) as [Hk|Hk].
    + injection Hlook as <-. apply npmInfo_key_inj in Hk. subst p.
      destruct (Hregistry (List.length (requests w))) as (i & m & Hg & Hm & Hd).
      exists m. split; [congruence | exact Hd].
    + apply Hinfo; assumption.
  - intros v Hlook Ht. rewrite lookup_insert_ne in Hlook.
    + apply Halt; assumption.
    + apply npmInfo_key_not_alt.
Qed.

Lemma alt_lookup_agrees p r w alt w' :
  cache_agrees E (cache w) d a -> alt_lookup E p r w alt w' ->
  cache_agrees E (cache w') d a.
Proof.
  intros [Hinfo Halt] Hl. inversion Hl; subst; simpl; try (split; assumption).
  split.
  - intros info Hlook Ht. rewrite lookup_insert_ne in Hlook.
    + apply Hinfo; assumption.
    + intros Heq. symmetry in Heq. revert Heq. apply npmInfo_key_not_alt.
  - intros v Hlook Ht. rewrite lookup_insert in Hlook.
    destruct (decide (alt_key p = alt_key d)) as [Hk|Hk].
    + injection Hlook as <-. apply alt_key_inj in Hk. subst p.
      destruct (Hsearch (List.length (requests w))) as (doc' & Hg & Hs).
      congruence.
    + apply Halt; assumption.
Qed.

(** Every turn keeps the cache in agreement with the registry about [d]. *)
Lemma migrate_step_agrees opts s dep L w L' w' :
  cache_agrees E (cache w) d a ->
  migrate_step E opts s dep L w L' w' ->
  cache_agrees E (cache w') d a.
Proof.
  intros Hagree Hs.
  step_cases Hs;
    try (simpl; eapply info_lookup_agrees; [|exact Hi]; exact Hagree).
  - simpl. eapply alt_lookup_agrees; [|exact Ha].
    eapply info_lookup_agrees; [|exact Hi]. exact Hagree.
  - destruct (settle_frame
                (SpinnerFail (dep +:+ " migration check failed"))
                (snd (record_decision E opts s dep alt b L)) w3)
      as (_ & _ & _ & -> & _).
    destruct (confirmation_frame _ _ _ _ _ _ _ Hc)
      as (_ & _ & _ & _ & -> & _).
    eapply alt_lookup_agrees; [|exact Ha].
    eapply info_lookup_agrees; [|exact Hi]. exact Hagree.
Qed.

(** The lookups for [d] report it deprecated and suggest [a]. *)
Lemma info_lookup_deprecated r w res w' :
  cache_agrees E (cache w) d a -> info_lookup E d r w res w' ->
  exists info m,
    res = Ok info /\ deprecated_message E info = Ok m /\ js_truthy m = true.
Proof.
  intros [Hinfo _] Hl.
  destruct (Hregistry (List.length (requests w))) as (i & m & Hg & Hm & Hd).
  inversion Hl; subst.
  - destruct (Hinfo j) as (m' & Hm' & Hd'); eauto.
  - exists j, m. split; [reflexivity|]. split; congruence.
  - congruence.
  - congruence.
Qed.

Lemma alt_lookup_suggested r w alt w' :
  cache_agrees E (cache w) d a -> alt_lookup E d r w alt w' -> alt = a.
Proof.
  intros [_ Halt] Hl.
  destruct (Hsearch (List.length (requests w))) as (doc' & Hg & Hs).
  inversion Hl; subst; try congruence.
  apply Halt; assumption.
Qed.

(** The turn for [d] of a run in which nothing stands against the
    replacement goes through the branch of [doReplace && alt] with [a]. *)
Lemma migrate_step_decides opts s L w L' w' :
  unopposed E opts d a ->
  cache_agrees E (cache w) d a ->
  migrate_step E opts s d L w L' w' ->
  L' = fst (record_decision E opts s d a true L).
Proof.
  intros Hun Hagree0 Hs.
  assert (Hagree : cache_agrees E (cache (log_output (migrating d) w)) d a)
    by exact Hagree0.
  step_cases Hs.
  - destruct (info_lookup_deprecated _ _ _ _ Hagree Hi) as (i & m & Hr & _).
    discriminate Hr.
  - destruct (info_lookup_deprecated _ _ _ _ Hagree Hi)
      as (i & m & Hr & Hm' & _).
    injection Hr as <-. congruence.
  - destruct (info_lookup_deprecated _ _ _ _ Hagree Hi)
      as (i & m' & Hr & Hm' & Hd).
    injection Hr as <-. congruence.
  - assert (Hc1 : cache_agrees E (cache w1) d a)
      by (eapply info_lookup_agrees; [|exact Hi]; exact Hagree).
    pose proof (alt_lookup_suggested _ _ _ _ Hc1 Ha) as ->.
    destruct (Hun Hint) as [[query Hquery] _]. congruence.
  - assert (Hc1 : cache_agrees E (cache w1) d a)
      by (eapply info_lookup_agrees; [|exact Hi]; exact Hagree).
    pose proof (alt_lookup_suggested _ _ _ _ Hc1 Ha) as ->.
    inversion Hc as [Hsilent | query Hasked Hquery]; subst; [reflexivity|].
    destruct (Hun Hasked) as [_ Hyes]. rewrite Hyes. reflexivity.
Qed.

End Replacement.

Lemma visits_In s p deps d :
  get_section s p = Some deps -> In d (object_keys deps) ->
  In (s, d) (visits p).
Proof.
  intros Hs Hin. unfold visits. apply in_or_app.
  assert (H : In (s, d) (section_visits s p)).
  { unfold section_visits. rewrite Hs. apply in_map. exact Hin. }
  destruct s; [left | right]; exact H.
Qed.

(** In a run, the turn of a deprecated [d] for which [a] is suggested and
    nothing stands against the replacement pushes the record that the mode
    decides, and every later turn keeps it. *)
Lemma run_records_decision E opts p w s deps d a :
  get_section s p = Some deps -> In d (object_keys deps) ->
  registry_deprecates E d -> search_suggests E d a -> truthy a = true ->
  cache_agrees E (cache w) d a -> unopposed E opts d a ->
  exists pre post L1 w1 L2 w2 L w',
    visits p = pre ++ (s, d) :: post /\
    for_of pre (visit E opts) (initial_locals p) w = (Ok L1, w1) /\
    get_section s (pkg L1) <> None /\
    migrate_dep E opts s d L1 w1 = (Ok L2, w2) /\
    L2 = fst (record_decision E opts s d a true L1) /\
    for_of post (visit E opts) L2 w2 = (Ok L, w') /\
    for_of (visits p) (visit E opts) (initial_locals p) w = (Ok L, w') /\
    In (decided_record opts d a true) (results L) /\
    (modified L2 = true -> modified L = true).
Proof.
  intros Hs Hin Hreg Hsearch Ht Hcache Hun.
  destruct (in_split _ _ (visits_In s p deps d Hs Hin)) as (pre & post & Hv).
  destruct (run_split E opts pre (s, d) post (initial_locals p) w)
    as (L1 & w1 & L2 & w2 & L3 & w3 & H1 & H2 & Hstep & H3 & Hwhole).
  simpl fst in *. simpl snd in *.
  assert (Hpre : cache_agrees E (cache w1) d a /\
                 get_section s (pkg L1) <> None).
  { apply (run_preserves E opts
             (fun La wa => cache_agrees E (cache wa) d a /\
                           get_section s (pkg La) <> None)
             pre (initial_locals p) w L1 w1); [| |exact H1].
    - intros v La wa Lb wb _ [Hc Hsome] Hst. split.
      + eapply migrate_step_agrees; eassumption.
      + apply migrate_step_locals in Hst.
        destruct (locals_step_sections _ _ _ _ _ _ s Hst) as [_ Hnone].
        intros Hb. apply Hsome. apply Hnone. exact Hb.
    - split; [exact Hcache|]. simpl. rewrite Hs. discriminate. }
  destruct Hpre as [Hc1 Hsome1].
  pose proof (migrate_step_decides E d a Hreg Hsearch opts s L1 w1 L2 w2
                Hun Hc1 Hstep) as HL2.
  assert (Hpost : In (decided_record opts d a true) (results L3) /\
                  (modified L2 = true -> modified L3 = true)).
  { apply (run_preserves E opts
             (fun La _ =>
                In (decided_record opts d a true) (results La) /\
                (modified L2 = true -> modified La = true))
             post L2 w2 L3 w3); [| |exact H3].
    - intros v La wa Lb wb _ [Hrec Hmod] Hst.
      apply migrate_step_locals in Hst. split.
      + destruct (locals_step_results _ _ _ _ _ _ Hst) as [-> | (r & -> & _)];
          [exact Hrec | apply in_or_app; left; exact Hrec].
      + intros Hm. specialize (Hmod Hm). destruct Hst as [|alt b]; [exact Hmod|].
        decision_cases E opts (fst v) (snd v) alt b La; simpl; auto.
    - split; [|auto]. rewrite HL2, record_decision_results.
      apply in_or_app. right. left. reflexivity. }
  destruct Hpost as [Hrec Hmod].
  exists pre, post, L1, w1, L2, w2, L3, w3.
  rewrite Hv. repeat split; assumption.
Qed.

(** ** The records of a run, section by section *)


(** The records of the sections together are the records of the run. *)
Lemma records_by_section_results E opts l L w L' w' :
  for_of l (visit E opts) L w = (Ok L', w') ->
  results L' = results L ++ List.map snd (records_by_section E opts l L w).
Proof.
  revert L w. induction l as [|v l IH]; intros L w Hrun.
  - simpl in Hrun. injection Hrun as <- <-. simpl. rewrite app_nil_r.
    reflexivity.
  - simpl in Hrun. unfold bind in Hrun. simpl.
    destruct (migrate_dep_spec E opts (fst v) (snd v) L w)
      as (La & wa & Heq & Hs).
    unfold visit at 1 in Hrun. unfold visit at 1. rewrite Heq in *.
    rewrite (IH La wa Hrun), map_app, map_map. simpl. rewrite map_id.
    apply migrate_step_locals in Hs.
    destruct (locals_step_new_records _ _ _ _ _ _ Hs)
      as [[-> ->] | (alt & b & -> & ->)].
    + reflexivity.
    + rewrite record_decision_results, <- app_assoc. reflexivity.
Qed.

Lemma records_by_section_In E opts l L w L' w' s r :
  for_of l (visit E opts) L w = (Ok L', w') ->
  In (s, r) (records_by_section E opts l L w) -> In r (results L').
Proof.
  intros Hrun Hin. rewrite (records_by_section_results _ _ _ _ _ _ _ Hrun).
  apply in_or_app. right. apply in_map_iff. exists (s, r). auto.
Qed.

(** A property of the manifest that every turn keeps, given what the turn
    records in its section, is kept by the run. *)
Lemma run_keeps E opts (s : section_name) (P : action_record -> Prop)
  (J : manifest -> Prop) :
  (forall s' dep La Lb,
      locals_step E opts s' dep La Lb ->
      (forall r, In r (skipn (List.length (results La)) (results Lb)) ->
                 s' = s -> P r) ->
      J (pkg La) -> J (pkg Lb)) ->
  forall l L w L' w',
    for_of l (visit E opts) L w = (Ok L', w') ->
    (forall r, In (s, r) (records_by_section E opts l L w) -> P r) ->
    J (pkg L) -> J (pkg L').
Proof.
  intros Hstep. induction l as [|v l IH]; intros L w L' w' Hrun Hrec HJ.
  - simpl in Hrun. injection Hrun as <- <-. exact HJ.
  - simpl in Hrun. unfold bind in Hrun. simpl in Hrec.
    destruct (migrate_dep_spec E opts (fst v) (snd v) L w)
      as (La & wa & Heq & Hs).
    unfold visit at 1 in Hrun. unfold visit at 1 in Hrec. rewrite Heq in *.
    apply (IH La wa L' w' Hrun).
    + intros r Hin. apply Hrec. apply in_or_app. right. exact Hin.
    + apply migrate_step_locals in Hs.
      apply (Hstep (fst v) (snd v) L La Hs); [|exact HJ].
      intros r Hin <-. apply Hrec. apply in_or_app. left.
      apply in_map. exact Hin.
Qed.

(** ** C1: replacement *)




(** The provisos of the amended claim are needed: a suggestion that is an
    object with a member called [toString] cannot be used as a key, so in
    JSON mode the entry of [left-pad] is deleted, nothing is inserted and
    nothing is written, although the report says "replaced"; and the
    suggestion [__proto__] is assigned to the inherited accessor, so the
    written section is empty. *)
Example replacement_not_carried_through :
  let odd := JObj [("toString", JNum 1)] in
  let net found url :=
    if url =? registry_url "left-pad"
    then JsonBody (deprecated_doc "use String.prototype.padStart()")
    else if url =? search_url "left-pad"
    then JsonBody (JObj [("results",
                          JArr [JObj [("package", JObj [("name", found)])]])])
    else ConnectionError in
  let w := fresh_world (Some left_pad_manifest) in
  let json_run := {| interactive := false; dryRun := false;
                     jsonOutput := true; refresh := false |} in
  (exists L w1,
      migrate_loop (scenario (net odd) (fun _ => "")) json_run
        left_pad_manifest w = (Ok L, w1) /\
      results L = [replaced_record "left-pad" odd] /\
      dependencies (pkg L) = Some [] /\ modified L = false /\
      replacedCount L = 0 /\
      writes (snd (migrateDependencies (scenario (net odd) (fun _ => ""))
                     json_run w)) = []) /\
  package_json (snd (migrateDependencies
                       (scenario (net (JStr "__proto__")) (fun _ => ""))
                       silent_run w)) =
  Some (Manifest {| dependencies := Some [];
                    devDependencies := None;
                    other_members := [("name", JStr "app")] |}).
Proof.
  vm_compute. split; [|reflexivity].
  eexists _, _. repeat split; reflexivity.
Qed.


(** ** C2: the dry run *)

Lemma same_but_console_log o o' w w' :
  same_but_console w w' ->
  same_but_console (log_output o w) (log_output o' w').
Proof. unfold same_but_console. simpl. tauto. Qed.

Lemma same_but_console_log_l o w w' :
  same_but_console w w' -> same_but_console (log_output o w) w'.
Proof. unfold same_but_console. simpl. tauto. Qed.

Lemma same_but_console_log_r o w w' :
  same_but_console w w' -> same_but_console w (log_output o w').
Proof. unfold same_but_console. simpl. tauto. Qed.

Lemma same_but_console_settle f r f' r' w w' :
  same_but_console w w' ->
  same_but_console (settle f r w) (settle f' r' w').
Proof. unfold same_but_console. destruct r, r'; simpl; tauto. Qed.

(** What is printed does not bear on the lookups nor on the question. *)
Lemma fetchNpmInfo_console E p r w w' :
  same_but_console w w' ->
  exists res w1 w1',
    fetchNpmInfo E p r w = (res, w1) /\ fetchNpmInfo E p r w' = (res, w1') /\
    same_but_console w1 w1'.
Proof.
  intros Hsame. pose proof Hsame as (Hc & Hr & Hrest).
  unfold fetchNpmInfo, download_info, bind, cache_get, https_request,
    cache_set, ret, throw.
  rewrite <- Hc.
  destruct (cache w !! npmInfo_key p) as [j|];
    [destruct (negb r && truthy j)|]; cbv beta;
    try (eexists _, _, _; split; [reflexivity|]; split; [reflexivity|];
         exact Hsame);
    rewrite <- Hr;
    destruct (https_get E (List.length (requests w)) (registry_url p));
    eexists _, _, _; (split; [reflexivity|]); (split; [reflexivity|]);
    unfold same_but_console in *; simpl; intuition congruence.
Qed.

Lemma fetchAlternative_console E p r w w' :
  same_but_console w w' ->
  exists alt w1 w1',
    fetchAlternative E p r w = (Ok alt, w1) /\
    fetchAlternative E p r w' = (Ok alt, w1') /\
    same_but_console w1 w1'.
Proof.
  intros Hsame. pose proof Hsame as (Hc & Hr & Hrest).
  unfold fetchAlternative, download_alternative, bind, try_catch, lift,
    cache_get, https_request, cache_set, ret.
  rewrite <- Hc.
  destruct (cache w !! alt_key p) as [j|];
    [destruct (negb r && truthy j)|]; cbv beta;
    try (eexists _, _, _; split; [reflexivity|]; split; [reflexivity|];
         exact Hsame);
    rewrite <- Hr;
    (destruct (https_get E (List.length (requests w)) (search_url p))
       as [| |doc]; [| |destruct (suggestion_of E doc)]);
    eexists _, _, _; (split; [reflexivity|]); (split; [reflexivity|]);
    unfold same_but_console in *; simpl; intuition congruence.
Qed.

Lemma confirm_console E opts dep alt w w' :
  same_but_console w w' ->
  exists res w1 w1',
    confirm E opts dep alt w = (res, w1) /\
    confirm E opts dep alt w' = (res, w1') /\
    same_but_console w1 w1'.
Proof.
  intros Hsame. pose proof Hsame as (Hc & Hr & Hq & Hrest).
  unfold confirm, askQuestion, askQuestionRaw, bind, lift, ret.
  destruct (interactive opts);
    [destruct (replace_question E dep alt)|]; cbv beta iota;
    rewrite <- ?Hq;
    eexists _, _, _; (split; [reflexivity|]); (split; [reflexivity|]);
    unfold same_but_console in *; simpl; intuition congruence.
Qed.

Lemma decided_record_dry_real opts dep alt b :
  decided_record (with_dryRun true opts) dep alt b =
  as_dry_run (decided_record (with_dryRun false opts) dep alt b).
Proof.
  unfold decided_record. simpl dryRun. destruct (b && truthy alt); reflexivity.
Qed.

(** A dry turn and a real turn from worlds that differ in what was printed
    make the same lookups, ask the same question and push records that
    correspond. *)
Lemma migrate_dep_dry_real E opts s dep Ld Lr wd wr :
  same_but_console wd wr ->
  exists Ld' Lr' wd' wr',
    migrate_dep E (with_dryRun true opts) s dep Ld wd = (Ok Ld', wd') /\
    migrate_dep E (with_dryRun false opts) s dep Lr wr = (Ok Lr', wr') /\
    same_but_console wd' wr' /\
    (results Ld = List.map as_dry_run (results Lr) ->
     results Ld' = List.map as_dry_run (results Lr')).
Proof.
  intros Hsame. rewrite !migrate_dep_eq. simpl refresh. cbv zeta.
  change (confirm E (with_dryRun true opts) dep) with (confirm E opts dep).
  change (confirm E (with_dryRun false opts) dep) with (confirm E opts dep).
  destruct (fetchNpmInfo_console E dep (refresh opts)
              (log_output (migrating dep) wd) (log_output (migrating dep) wr))
    as (res & w1 & w1' & H1 & H1' & Hs1);
    [apply same_but_console_log; exact Hsame|].
  rewrite H1, H1'.
  destruct res as [info|e];
    [|eexists _, _, _, _; split; [reflexivity|]; split; [reflexivity|];
      split; [apply same_but_console_log; exact Hs1 | auto]].
  destruct (deprecated_message E info) as [m|e];
    [|eexists _, _, _, _; split; [reflexivity|]; split; [reflexivity|];
      split; [apply same_but_console_log; exact Hs1 | auto]].
  destruct (js_truthy m);
    [|eexists _, _, _, _; split; [reflexivity|]; split; [reflexivity|];
      split; [apply same_but_console_log; exact Hs1 | auto]].
  destruct (fetchAlternative_console E dep (refresh opts) w1 w1' Hs1)
    as (alt & w2 & w2' & H2 & H2' & Hs2).
  rewrite H2, H2'.
  destruct (confirm_console E opts dep alt w2 w2' Hs2)
    as (ans & w3 & w3' & H3 & H3' & Hs3).
  rewrite H3, H3'.
  destruct ans as [b|e];
    [|eexists _, _, _, _; split; [reflexivity|]; split; [reflexivity|];
      split; [apply same_but_console_log; exact Hs3 | auto]].
  eexists _, _, _, _. split; [reflexivity|]. split; [reflexivity|].
  split; [apply same_but_console_settle; exact Hs3|].
  intros HR. rewrite !record_decision_results, map_app, HR. simpl.
  rewrite decided_record_dry_real. reflexivity.
Qed.

(** The dry run and the real run of the same visits make the same lookups
    and ask the same questions, and the dry records are where the real ones
    are. *)
Lemma run_dry_real E opts l Ld Lr wd wr :
  same_but_console wd wr ->
  results Ld = List.map as_dry_run (results Lr) ->
  exists Ld' Lr' wd' wr',
    for_of l (visit E (with_dryRun true opts)) Ld wd = (Ok Ld', wd') /\
    for_of l (visit E (with_dryRun false opts)) Lr wr = (Ok Lr', wr') /\
    same_but_console wd' wr' /\
    results Ld' = List.map as_dry_run (results Lr').
Proof.
  revert Ld Lr wd wr. induction l as [|v l IH]; intros Ld Lr wd wr Hs HR.
  - exists Ld, Lr, wd, wr. auto.
  - simpl for_of. unfold bind. unfold visit at 1 3.
    destruct (migrate_dep_dry_real E opts (fst v) (snd v) Ld Lr wd wr Hs)
      as (Ld1 & Lr1 & wd1 & wr1 & Hd & Hr & Hs1 & Hrel).
    rewrite Hd, Hr. apply IH; auto.
Qed.

Lemma same_but_console_refl w : same_but_console w w.
Proof. unfold same_but_console. tauto. Qed.

(** C2: in a dry run the manifest held in memory stays the one that was
    read and is not marked as modified, the file is not written and keeps
    its content, no install command is run, and no record says "replaced".
    A dependency that the registry reports as deprecated and for which the
    search suggests a truthy [a] is recorded as "would-replace" with [a],
    when the operator is not asked or says yes.  The run makes the lookups
    and asks the questions of the real run, and its records are those of
    the real run with "would-replace" where that one says "replaced". *)
Theorem dry_run_changes_nothing (E : env) (opts : options) (w : world)
  (p : manifest) :
  dryRun opts = true ->
  package_json w = Some (Manifest p) ->
  exists L w1 w',
    migrate_loop E opts p w = (Ok L, w1) /\
    migrateDependencies E opts w = (Ok tt, w') /\
    pkg L = p /\ modified L = false /\
    package_json w' = Some (Manifest p) /\ writes w' = writes w /\
    installs w' = installs w /\
    (forall r, In r (results L) -> action r <> Replaced) /\
    (forall s deps d a,
        get_section s p = Some deps -> In d (object_keys deps) ->
        registry_deprecates E d -> search_suggests E d a ->
        truthy a = true -> cache_agrees E (cache w) d a ->
        unopposed E opts d a ->
        In (would_replace_record d a) (results L)) /\
    exists Lr wr,
      migrate_loop E (with_dryRun false opts) p w = (Ok Lr, wr) /\
      same_but_console w1 wr /\
      results L = List.map as_dry_run (results Lr).
Proof.
  intros Hdry Hp.
  destruct (migrateDependencies_outcome E opts w p Hp)
    as (L & w1 & w' & Hrun & Hloop & Hall & Hwr).
  destruct (run_dry E opts _ _ _ _ _ Hdry Hrun) as (Hpkg & Hmod & _ & Hrec).
  simpl in Hpkg, Hmod.
  rewrite Hdry in Hwr. simpl in Hwr. destruct Hwr as (Hw1 & Hw2 & Hw3).
  exists L, w1, w'. split; [exact Hloop|]. split; [exact Hall|].
  split; [exact Hpkg|]. split; [exact Hmod|].
  split; [congruence|]. split; [exact Hw1|]. split; [exact Hw3|].
  split; [apply Hrec; intros r []|]. split.
  - intros s deps d a Hs Hin Hreg Hsearch Ht Hcache Hun.
    destruct (run_records_decision E opts p w s deps d a Hs Hin Hreg Hsearch
                Ht Hcache Hun)
      as (pre & post & L1 & wa & L2 & wb & L3 & wc & _ & _ & _ & _ & _ & _
          & Hwhole & Hin3 & _).
    rewrite Hwhole in Hrun. injection Hrun as <- <-.
    unfold decided_record in Hin3. rewrite Ht, Hdry in Hin3. exact Hin3.
  - destruct (run_dry_real E opts (visits p) (initial_locals p)
                (initial_locals p) w w (same_but_console_refl w) eq_refl)
      as (Ld & Lr & wd & wr & Hd & Hr & Hsame & HR).
    rewrite <- Hdry in Hd. rewrite with_dryRun_id in Hd.
    rewrite Hrun in Hd. injection Hd as <- <-.
    exists Lr, wr. split; [rewrite migrate_loop_flat; exact Hr|]. auto.
Qed.

Lemma dry_run_changes_nothing_witness :
  let E := scenario (left_pad_net ["string-pad"]) (fun _ => "") in
  let w := fresh_world (Some left_pad_manifest) in
  exists L w1 w',
    migrate_loop E dry_run left_pad_manifest w = (Ok L, w1) /\
    migrateDependencies E dry_run w = (Ok tt, w') /\
    pkg L = left_pad_manifest /\
    package_json w' = Some (Manifest left_pad_manifest) /\
    writes w' = writes w /\ installs w' = installs w /\
    In (would_replace_record "left-pad" (JStr "string-pad")) (results L).
Proof.
  intros E w.
  destruct (dry_run_changes_nothing E dry_run w left_pad_manifest
              eq_refl eq_refl)
    as (L & w1 & w' & H1 & H2 & H3 & _ & H4 & H5 & H6 & _ & Hwould & _).
  exists L, w1, w'. repeat (split; [assumption|]).
  apply (Hwould Dependencies [("left-pad", "^1.0.0")] "left-pad"
           (JStr "string-pad") eq_refl (or_introl eq_refl)).
  - intros n. eexists _, _. split; [reflexivity|]. split; reflexivity.
  - intros n. eexists. split; reflexivity.
  - reflexivity.
  - split; intros v Hc; simpl in Hc; rewrite lookup_empty in Hc;
      discriminate Hc.
  - intros Hint. discriminate Hint.
Defined.

(** ** The turn of a deprecated dependency, from the lookups on *)

Lemma fetchNpmInfo_questions E p r w :
  questions (snd (fetchNpmInfo E p r w)) = questions w.
Proof.
  destruct (fetchNpmInfo_spec E p r w) as (res & w' & Heq & Hl).
  rewrite Heq. simpl. apply (info_lookup_frame _ _ _ _ _ _ Hl).
Qed.

Lemma fetchNpmInfo_files E p r w :
  package_json (snd (fetchNpmInfo E p r w)) = package_json w /\
  writes (snd (fetchNpmInfo E p r w)) = writes w.
Proof.
  destruct (fetchNpmInfo_spec E p r w) as (res & w' & Heq & Hl).
  rewrite Heq. simpl.
  destruct (info_lookup_frame _ _ _ _ _ _ Hl) as (H1 & H2 & _). auto.
Qed.

Lemma fetchAlternative_log_output E p r o w :
  fetchAlternative E p r (log_output o w) =
  (fst (fetchAlternative E p r w),
   log_output o (snd (fetchAlternative E p r w))).
Proof.
  unfold fetchAlternative, download_alternative, bind, try_catch, lift,
    cache_get, https_request, cache_set, ret. cbv beta.
  change (cache (log_output o w)) with (cache w).
  destruct (cache w !! alt_key p) as [j|];
    [destruct (negb r && truthy j)|];
    cbv beta;
    change (requests (log_output o w)) with (requests w);
    try reflexivity;
    destruct (https_get E (List.length (requests w)) (search_url p))
      as [| |doc];
    try reflexivity;
    destruct (suggestion_of E doc); reflexivity.
Qed.

Lemma fetchAlternative_questions E p r w :
  questions (snd (fetchAlternative E p r w)) = questions w.
Proof.
  destruct (fetchAlternative_spec E p r w) as (alt & w' & Heq & Hl).
  rewrite Heq. simpl. apply (alt_lookup_frame _ _ _ _ _ _ Hl).
Qed.

Lemma fetchAlternative_files E p r w :
  package_json (snd (fetchAlternative E p r w)) = package_json w /\
  writes (snd (fetchAlternative E p r w)) = writes w.
Proof.
  destruct (fetchAlternative_spec E p r w) as (alt & w' & Heq & Hl).
  rewrite Heq. simpl.
  destruct (alt_lookup_frame _ _ _ _ _ _ Hl) as (H1 & H2 & _). auto.
Qed.

(** When the lookups for [d] report it deprecated and suggest [alt], the
    turn is the decision on [alt], taken in a world that differs from the
    one before the turn by the lookups and the spinner line. *)
Lemma migrate_dep_deprecated E opts s d L w info m alt :
  fst (fetchNpmInfo E d (refresh opts) w) = Ok info ->
  deprecated_message E info = Ok m -> js_truthy m = true ->
  fst (fetchAlternative E d (refresh opts)
         (snd (fetchNpmInfo E d (refresh opts) w))) = Ok alt ->
  exists w2,
    questions w2 = questions w /\ package_json w2 = package_json w /\
    writes w2 = writes w /\
    migrate_dep E opts s d L w =
    let failed := SpinnerFail (d +:+ " migration check failed") in
    match confirm E opts d alt w2 with
    | (Ok b, w3) =>
        (Ok (fst (record_decision E opts s d alt b L)),
         settle failed (snd (record_decision E opts s d alt b L)) w3)
    | (Throw _, w3) => (Ok L, log_output failed w3)
    end.
Proof.
  intros Hf Hm Ht Ha.
  exists (log_output (migrating d)
            (snd (fetchAlternative E d (refresh opts)
                    (snd (fetchNpmInfo E d (refresh opts) w))))).
  destruct (fetchNpmInfo_files E d (refresh opts) w) as [Hp1 Hw1].
  destruct (fetchAlternative_files E d (refresh opts)
              (snd (fetchNpmInfo E d (refresh opts) w))) as [Hp2 Hw2].
  split; [simpl; rewrite fetchAlternative_questions;
          apply fetchNpmInfo_questions|].
  split; [simpl; congruence|]. split; [simpl; congruence|].
  rewrite migrate_dep_eq. cbv zeta.
  rewrite fetchNpmInfo_log_output, Hf, Hm, Ht.
  rewrite fetchAlternative_log_output, Ha. reflexivity.
Qed.

(** ** What a turn leaves of an entry *)

(** A turn leaves the entry of [k] as it was when what it records in that
    section spares [k]. *)
Lemma locals_step_spares E opts s' dep L L' s k :
  locals_step E opts s' dep L L' ->
  (forall r, In r (skipn (List.length (results L)) (results L')) ->
             s' = s -> spares E k r) ->
  specifier s k (pkg L') = specifier s k (pkg L).
Proof.
  intros Hstep Hall.
  destruct (locals_step_new_records _ _ _ _ _ _ Hstep)
    as [[-> _] | (alt & b & -> & Hnew)]; [reflexivity|].
  rewrite Hnew in Hall. unfold decided_record in Hall.
  assert (Hdel : forall L0, pkg L0 = pkg L -> (s' = s -> dep <> k) ->
            specifier s k (pkg (delete_dependency s' dep L0)) =
            specifier s k (pkg L)).
  { intros L0 HL0 Hdep. unfold specifier. rewrite get_section_delete, HL0.
    destruct (same_section s' s) eqn:Hs; [|reflexivity].
    apply same_section_spec in Hs. subst s'.
    destruct (get_section s (pkg L)) as [o|]; [|reflexivity]. simpl.
    rewrite obj_lookup_delete.
    destruct (String.eqb_spec dep k); [|reflexivity].
    exfalso. apply (Hdep eq_refl). assumption. }
  decision_cases E opts s' dep alt b L; subst; try reflexivity;
    rewrite Htruthy, Hdry in Hall; simpl in Hall.
  - assert (Hcase : s' = s -> dep <> k /\ key <> k).
    { intros Hs.
      destruct (Hall _ (or_introl eq_refl) Hs eq_refl) as [Hdep Hnot].
      split; [exact Hdep|]. intros ->. apply (Hnot alt eq_refl). exact Hkey. }
    rewrite <- (Hdel (push_result (replaced_record dep alt) L) eq_refl)
      by (intros Hs; apply (Hcase Hs)).
    unfold specifier. rewrite get_section_insert.
    destruct (same_section s' s) eqn:Hs; [|reflexivity].
    apply same_section_spec in Hs. subst s'.
    destruct (get_section s _) as [o|]; [|reflexivity]. simpl.
    apply obj_lookup_set_other. apply (Hcase eq_refl).
  - apply Hdel; [reflexivity|]. intros Hs.
    apply (Hall _ (or_introl eq_refl) Hs eq_refl).
Qed.

(** A run leaves the entry of [k] in a section as it was read when the
    records of that section's loop spare [k]. *)
Lemma run_spares_section E opts s k l L w L' w' :
  for_of l (visit E opts) L w = (Ok L', w') ->
  (forall r, In (s, r) (records_by_section E opts l L w) -> spares E k r) ->
  specifier s k (pkg L') = specifier s k (pkg L).
Proof.
  intros Hrun Hall.
  apply (run_keeps E opts s (spares E k)
           (fun q => specifier s k q = specifier s k (pkg L)))
    with (l := l) (L := L) (w := w) (w' := w'); auto.
  intros s' dep La Lb Hst Hnew HJ.
  rewrite (locals_step_spares _ _ _ _ _ _ s k Hst Hnew). exact HJ.
Qed.

(** ** C6: the operator declines *)

(** A turn of an interactive run whose operator says no to everything. *)
Lemma migrate_step_declined E opts s dep L w L' w' :
  interactive opts = true ->
  (forall n query, accepts (operator E n query) = false) ->
  migrate_step E opts s dep L w L' w' ->
  pkg L' = pkg L /\ modified L' = modified L /\
  (results L' = results L \/
   results L' = results L ++ [skipped_record dep]).
Proof.
  intros Hasked Hno Hs. step_cases Hs; auto.
  inversion Hc; subst; [congruence|].
  rewrite Hno. simpl. auto.
Qed.

(** A turn of an interactive run whose operator says no to every question
    about [d] records [d] only as "skipped". *)
Lemma migrate_step_declined_name E opts s dep L w L' w' d :
  interactive opts = true ->
  (forall n alt query,
      replace_question E d alt = Ok query ->
      accepts (operator E n query) = false) ->
  migrate_step E opts s dep L w L' w' ->
  results L' = results L \/
  exists r, results L' = results L ++ [r] /\ dependency r = dep /\
            (dep = d -> r = skipped_record d).
Proof.
  intros Hasked Hno Hs. step_cases Hs; auto.
  right. exists (decided_record opts dep alt b).
  split; [apply record_decision_results|].
  split; [apply decided_record_name|].
  intros ->. inversion Hc as [Hsilent | query _ Hquery]; subst;
    [congruence|].
  rewrite (Hno _ _ _ Hquery). reflexivity.
Qed.

(** C6, amended: the answer counts as a yes exactly when it begins with "y"
    or "Y", so the empty answer is a no.  In an interactive run the turn of
    a deprecated [d] puts the question about the suggestion and follows the
    answer: on a no it records [{dependency: d, action: "skipped"}] and
    leaves the manifest held in memory and the file as they were; on a yes
    to a truthy suggestion it records the replacement instead.  In a run
    whose operator says no to every question about [d], every record for
    [d] is that "skipped" one.  In the manifest at the end of the run and
    in the file, the entry of [d] is the one that was read provided no
    "replaced" record of the loop of its section removes or inserts the
    name [d]; a run in which every answer is a no ends with the manifest as
    it was read, writes nothing and records only "skipped". *)
Theorem decline_skips (E : env) (opts : options) :
  interactive opts = true ->
  (forall answer,
      accepts answer = true <->
      exists rest, answer = String "y" rest \/ answer = String "Y" rest) /\
  accepts "" = false /\
  (forall s d L w info m alt query,
      fst (fetchNpmInfo E d (refresh opts) w) = Ok info ->
      deprecated_message E info = Ok m -> js_truthy m = true ->
      fst (fetchAlternative E d (refresh opts)
             (snd (fetchNpmInfo E d (refresh opts) w))) = Ok alt ->
      replace_question E d alt = Ok query ->
      exists L' w',
        migrate_dep E opts s d L w = (Ok L', w') /\
        questions w' = questions w ++ [query] /\
        package_json w' = package_json w /\ writes w' = writes w /\
        (accepts (operator E (List.length (questions w)) query) = false ->
         pkg L' = pkg L /\ modified L' = modified L /\
         replacedCount L' = replacedCount L /\
         results L' = results L ++ [skipped_record d]) /\
        (accepts (operator E (List.length (questions w)) query) = true ->
         truthy alt = true ->
         results L' =
         results L ++ [if dryRun opts then would_replace_record d alt
                       else replaced_record d alt])) /\
  (forall w (p : manifest),
      package_json w = Some (Manifest p) ->
      exists L w1 w',
        migrate_loop E opts p w = (Ok L, w1) /\
        migrateDependencies E opts w = (Ok tt, w') /\
        (forall s d,
            (forall r,
                In (s, r)
                  (records_by_section E opts (visits p) (initial_locals p) w)
                -> spares E d r) ->
            specifier s d (pkg L) = specifier s d p /\
            exists q, package_json w' = Some (Manifest q) /\
                      specifier s d q = specifier s d p) /\
        (forall d,
            (forall n alt query,
                replace_question E d alt = Ok query ->
                accepts (operator E n query) = false) ->
            forall r, In r (results L) -> dependency r = d ->
                      r = skipped_record d) /\
        ((forall n query, accepts (operator E n query) = false) ->
         pkg L = p /\ package_json w' = Some (Manifest p) /\
         writes w' = writes w /\ installs w' = installs w /\
         forall r, In r (results L) ->
                   action r = Skipped /\ alternative r = None)).
Proof.
  intros Hint.
  split; [exact accepts_spec|]. split; [reflexivity|]. split.
  - intros s d L w info m alt query Hf Hm Ht Ha Hq.
    destruct (migrate_dep_deprecated E opts s d L w info m alt Hf Hm Ht Ha)
      as (w2 & Hq2 & Hp2 & Hw2 & Heq).
    rewrite Heq. cbv zeta. unfold confirm. rewrite Hint.
    unfold bind, lift, askQuestion, askQuestionRaw, bind, ret. rewrite Hq.
    cbv beta iota. rewrite Hq2.
    set (answer := accepts (operator E (List.length (questions w)) query)).
    destruct (settle_frame (SpinnerFail (d +:+ " migration check failed"))
                (snd (record_decision E opts s d alt answer L))
                (log_question query w2)) as (Hs1 & Hs2 & _ & _ & _ & Hs6).
    eexists _, _. split; [reflexivity|].
    split; [rewrite Hs6; simpl; rewrite Hq2; reflexivity|].
    split; [rewrite Hs1; exact Hp2|]. split; [rewrite Hs2; exact Hw2|].
    split.
    + intros ->. simpl. auto.
    + intros -> Htruthy. rewrite record_decision_results.
      unfold decided_record. rewrite Htruthy. reflexivity.
  - intros w p Hp.
    destruct (migrateDependencies_outcome E opts w p Hp)
      as (L & w1 & w' & Hrun & Hloop & Hall & Hwr).
    exists L, w1, w'. split; [exact Hloop|]. split; [exact Hall|]. split.
    + intros s d Hspared.
      pose proof (run_spares_section E opts s d _ _ _ _ _ Hrun Hspared) as Hsp.
      simpl in Hsp. split; [exact Hsp|].
      destruct (negb (dryRun opts) && modified L).
      * exists (pkg L). split; [apply Hwr | exact Hsp].
      * exists p. split; [|reflexivity].
        destruct Hwr as (_ & -> & _). exact Hp.
    + split.
      { intros d Hno.
        apply (run_preserves E opts
                 (fun La _ => forall r, In r (results La) ->
                                        dependency r = d ->
                                        r = skipped_record d)
                 (visits p) (initial_locals p) w L w1); [| |exact Hrun].
        - intros v La wa Lb wb _ HI Hs r Hr Hd.
          destruct (migrate_step_declined_name E opts _ _ _ _ _ _ d Hint Hno Hs)
            as [Hsame | (r' & Hnew & Hname & Hskip)].
          + rewrite Hsame in Hr. apply HI; assumption.
          + rewrite Hnew in Hr. apply in_app_or in Hr.
            destruct Hr as [Hr|[<-|[]]]; [apply HI; assumption|].
            apply Hskip. congruence.
        - intros r []. }
      intros Hno.
      assert (Hinv : pkg L = p /\ modified L = false /\
                     forall r, In r (results L) ->
                               action r = Skipped /\ alternative r = None).
      { apply (run_preserves E opts
                 (fun La _ =>
                    pkg La = p /\ modified La = false /\
                    forall r, In r (results La) ->
                              action r = Skipped /\ alternative r = None)
                 (visits p) (initial_locals p) w L w1); [| |exact Hrun].
        - intros v La wa Lb wb _ (H1 & H2 & H3) Hs.
          destruct (migrate_step_declined _ _ _ _ _ _ _ _ Hint Hno Hs)
            as (H4 & H5 & H6).
          split; [congruence|]. split; [congruence|].
          intros r Hr. destruct H6 as [H6|H6]; rewrite H6 in Hr.
          + apply H3. exact Hr.
          + apply in_app_or in Hr. destruct Hr as [Hr|[<-|[]]];
              [apply H3; exact Hr | split; reflexivity].
        - simpl. repeat split; try reflexivity; contradiction. }
      destruct Hinv as (Hpkg & Hmod & Hrec).
      rewrite Hmod, andb_false_r in Hwr.
      destruct Hwr as (Hw1 & Hw2 & Hw3).
      split; [exact Hpkg|]. split; [congruence|]. split; [exact Hw1|].
      split; [exact Hw3 | exact Hrec].
Qed.

(** C6 fails as stated: [request] and [node-fetch] are both deprecated and
    [node-fetch] is what the search suggests for [request].  The operator
    accepts the first replacement and declines the one of [node-fetch],
    which is recorded as "skipped"; yet the entry of [node-fetch] in the
    file written is the one the first replacement put there, at
    ["latest"], not the one that was read. *)
Lemma declined_dependency_is_overwritten :
  let E := scenario request_net yes_then_no in
  let w := fresh_world (Some request_manifest) in
  specifier Dependencies "node-fetch" request_manifest = Some "^2.6.0" /\
  (exists L w1,
      migrate_loop E interactive_run request_manifest w = (Ok L, w1) /\
      results L = [replaced_record "request" (JStr "node-fetch");
                   skipped_record "node-fetch"]) /\
  package_json (snd (migrateDependencies E interactive_run w)) =
  Some (Manifest {| dependencies := Some [("node-fetch", "latest")];
                    devDependencies := None;
                    other_members := [] |}).
Proof.
  vm_compute. split; [reflexivity|]. split; [|reflexivity].
  eexists _, _. split; reflexivity.
Qed.

Lemma decline_skips_witness :
  let E := scenario (left_pad_net ["string-pad"]) (fun _ => "n") in
  let w := fresh_world (Some left_pad_manifest) in
  (exists L' w',
      migrate_dep E interactive_run Dependencies "left-pad"
        (initial_locals left_pad_manifest) w = (Ok L', w') /\
      pkg L' = left_pad_manifest /\
      results L' = [skipped_record "left-pad"]) /\
  (exists L w1 w',
      migrate_loop E interactive_run left_pad_manifest w = (Ok L, w1) /\
      migrateDependencies E interactive_run w = (Ok tt, w') /\
      pkg L = left_pad_manifest /\
      package_json w' = Some (Manifest left_pad_manifest) /\
      writes w' = writes w).
Proof.
  intros E w.
  destruct (decline_skips E interactive_run eq_refl)
    as (_ & _ & Hturn & Hrun).
  split.
  - destruct (Hturn Dependencies "left-pad"
                (initial_locals left_pad_manifest) w
                (deprecated_doc "use String.prototype.padStart()")
                (Some (JStr "use String.prototype.padStart()"))
                (JStr "string-pad")
                "🔄 Replace left-pad with string-pad? (y/N) "
                eq_refl eq_refl eq_refl eq_refl eq_refl)
      as (L' & w' & Heq & _ & _ & _ & Hno & _).
    destruct (Hno eq_refl) as (Hpkg & _ & _ & Hres).
    exists L', w'. split; [exact Heq|]. split; [exact Hpkg | exact Hres].
  - destruct (Hrun w left_pad_manifest eq_refl)
      as (L & w1 & w' & H1 & H2 & _ & _ & Hall).
    destruct (Hall (fun _ _ => eq_refl)) as (H3 & H4 & H5 & _).
    exists L, w1, w'. auto.
Defined.

(** ** The scan, turn by turn *)

(** The four ways of a turn of the scan, with the names used below. *)
Ltac scan_cases H :=
  destruct H as [e w1 Hi | info e w1 Hi Hm | info m w1 Hi Hm Ht
                | info m alt w1 w2 Hi Hm Ht Ha].

Lemma scan_dep_spec E opts dep L w :
  exists L' w',
    scan_dep E opts dep L w = (Ok L', w') /\ scan_step E opts dep L w L' w'.
Proof.
  rewrite scan_dep_eq. cbv zeta.
  destruct (fetchNpmInfo_spec E dep (scan_refresh opts)
              (log_output (checking dep) w)) as (res & w1 & Heq & Hi).
  rewrite Heq. destruct res as [info|e].
  - destruct (deprecated_message E info) as [m|e] eqn:Hm.
    + destruct (js_truthy m) eqn:Ht.
      * destruct (fetchAlternative_spec E dep (scan_refresh opts) w1)
          as (alt & w2 & Ha & Hl).
        rewrite Ha. eexists _, _. split; [reflexivity|].
        eapply scan_deprecated; eassumption.
      * eexists _, _. split; [reflexivity|].
        eapply scan_healthy; eassumption.
    + eexists _, _. split; [reflexivity|].
      eapply scan_unreadable; eassumption.
  - eexists _, _. split; [reflexivity|]. eapply scan_failed. exact Hi.
Qed.

Lemma scan_invariant E opts (I : scan_locals -> world -> Prop)
  (l : list string) L w :
  (forall dep La wa Lb wb,
      In dep l -> I La wa -> scan_step E opts dep La wa Lb wb -> I Lb wb) ->
  I L w ->
  exists L' w', for_of l (scan_dep E opts) L w = (Ok L', w') /\ I L' w'.
Proof.
  intros Hstep HI. revert HI. revert L w.
  apply for_of_invariant. intros dep La wa Hin HIa.
  destruct (scan_dep_spec E opts dep La wa) as (Lb & wb & Heq & Hs).
  exists Lb, wb. split; [exact Heq | eauto].
Qed.

Lemma scan_step_frame E opts dep L w L' w' :
  scan_step E opts dep L w L' w' ->
  package_json w' = package_json w /\ writes w' = writes w /\
  installs w' = installs w /\ questions w' = questions w.
Proof.
  intros H. scan_cases H;
    destruct (info_lookup_frame _ _ _ _ _ _ Hi) as (H1 & H2 & H3 & _ & H5);
    try (simpl in *; repeat split; congruence).
  destruct (alt_lookup_frame _ _ _ _ _ _ Ha) as (H6 & H7 & H8 & _ & H10).
  destruct (settle_frame (SpinnerFail (dep +:+ " check failed"))
              (if scan_jsonOutput opts then Ok tt else box_text E m alt) w2)
    as (H11 & H12 & H13 & _ & _ & H14).
  simpl in *. repeat split; congruence.
Qed.

Lemma scan_loop_returns E opts p w :
  exists L w1, scan_loop E opts p w = (Ok L, w1).
Proof.
  destruct (scan_invariant E opts (fun _ _ => True)
              (object_keys (scanned_deps p))
              {| scan_results := []; deprecatedCount := 0 |} w)
    as (L & w1 & Heq & _); eauto.
Qed.

(** The whole of [scanDependencies] on a manifest: the loop, then the
    report. *)
Lemma scanDependencies_outcome E opts w (p : manifest) L w1 :
  package_json w = Some (Manifest p) ->
  scan_loop E opts p w = (Ok L, w1) ->
  scanDependencies E opts w =
  (Ok tt,
   log_output
     (if scan_jsonOutput opts then ScanReport (scan_results L)
      else let total := List.length (object_keys (scanned_deps p)) in
           ScanSummary total (deprecatedCount L) (total - deprecatedCount L))
     w1).
Proof.
  intros Hp Hloop.
  unfold scanDependencies, readPackageJson. unfold bind at 1.
  rewrite Hp. unfold bind at 1. unfold members_of at 1. unfold ret at 1.
  unfold bind at 1. rewrite Hloop.
  destruct (scan_jsonOutput opts); reflexivity.
Qed.

(** Without a manifest the scan stops before its loop. *)
Lemma scanDependencies_not_started E opts w e :
  start_outcome (package_json w) = Throw e ->
  scanDependencies E opts w = (Throw e, w).
Proof.
  intros Hp. unfold scanDependencies, readPackageJson. unfold bind at 1.
  destruct (package_json w) as [[| |p]|]; simpl in Hp;
    try discriminate Hp; injection Hp as <-; reflexivity.
Qed.

Lemma scan_loop_preserves E opts (I : scan_locals -> world -> Prop) p w L w1 :
  (forall dep La wa Lb wb,
      In dep (object_keys (scanned_deps p)) -> I La wa ->
      scan_step E opts dep La wa Lb wb -> I Lb wb) ->
  I {| scan_results := []; deprecatedCount := 0 |} w ->
  scan_loop E opts p w = (Ok L, w1) -> I L w1.
Proof.
  intros Hstep HI Hloop.
  destruct (scan_invariant E opts I (object_keys (scanned_deps p)) _ w
              Hstep HI) as (L' & w' & Heq & HI').
  unfold scan_loop in Hloop. rewrite Hloop in Heq.
  injection Heq as <- <-. exact HI'.
Qed.

Lemma scan_loop_frame E opts p w L w1 :
  scan_loop E opts p w = (Ok L, w1) ->
  package_json w1 = package_json w /\ writes w1 = writes w /\
  installs w1 = installs w /\ questions w1 = questions w.
Proof.
  intros Hloop.
  apply (scan_loop_preserves E opts
           (fun _ wa => package_json wa = package_json w /\
                        writes wa = writes w /\ installs wa = installs w /\
                        questions wa = questions w) p w L w1);
    [|auto|exact Hloop].
  intros dep La wa Lb wb _ (H1 & H2 & H3 & H4) Hs.
  destruct (scan_step_frame _ _ _ _ _ _ _ Hs) as (H5 & H6 & H7 & H8).
  repeat split; congruence.
Qed.

(** ** C5: the totals of the scan *)

(** C5, at an input where it fails: in a scan whose only lookup fails, the
    dependency is reported as "check failed" by the spinner and yet the
    summary counts it as healthy (total 1, deprecated 0, healthy 1), since
    the healthy figure is the total minus the deprecated count. *)
Lemma failed_lookup_is_counted_healthy :
  console (snd (scanDependencies offline
                  {| scan_jsonOutput := false; scan_refresh := false |}
                  (fresh_world (Some left_pad_manifest)))) =
  [SpinnerStart "Checking left-pad..."; SpinnerFail "left-pad check failed";
   ScanSummary 1 0 1].
Proof. vm_compute. reflexivity. Qed.

Lemma count_succeeded_app out1 out2 :
  count_succeeded (out1 ++ out2) = count_succeeded out1 + count_succeeded out2.
Proof.
  induction out1 as [|o out1 IH]; simpl; [reflexivity|].
  destruct o; simpl; rewrite ?IH; reflexivity.
Qed.

Lemma count_failed_app out1 out2 :
  count_failed (out1 ++ out2) = count_failed out1 + count_failed out2.
Proof.
  induction out1 as [|o out1 IH]; simpl; [reflexivity|].
  destruct o; simpl; rewrite ?IH; reflexivity.
Qed.

(** One turn of the scan adds one to one of: the deprecated count, the
    names reported healthy, the names reported failed; and one more to the
    names reported failed when the box of a deprecated name could not be
    printed, after the name was counted. *)
Lemma scan_step_counts E opts dep L w L' w' :
  scan_step E opts dep L w L' w' ->
  exists extra,
    scan_results L' = scan_results L ++ extra /\
    deprecatedCount L' + count_succeeded (console w') +
    count_failed (console w') =
    S (deprecatedCount L + count_succeeded (console w) +
       count_failed (console w)) +
    (if scan_jsonOutput opts then 0
     else List.length (List.filter (is_unprinted E) extra)).
Proof.
  intros H.
  assert (H0 : forall w1 res,
             info_lookup E dep (scan_refresh opts)
               (log_output (checking dep) w) res w1 ->
             count_succeeded (console w1) = count_succeeded (console w) /\
             count_failed (console w1) = count_failed (console w)).
  { intros w1 res Hi.
    destruct (info_lookup_frame _ _ _ _ _ _ Hi) as (_ & _ & _ & -> & _).
    simpl. rewrite count_succeeded_app, count_failed_app. simpl. lia. }
  scan_cases H; destruct (H0 _ _ Hi) as [Hs1 Hf1].
  - exists []. rewrite app_nil_r. split; [reflexivity|]. simpl.
    rewrite count_succeeded_app, count_failed_app, Hs1, Hf1. simpl.
    destruct (scan_jsonOutput opts); simpl; lia.
  - exists []. rewrite app_nil_r. split; [reflexivity|]. simpl.
    rewrite count_succeeded_app, count_failed_app, Hs1, Hf1. simpl.
    destruct (scan_jsonOutput opts); simpl; lia.
  - simpl. rewrite count_succeeded_app, count_failed_app, Hs1, Hf1. simpl.
    destruct (scan_jsonOutput opts); simpl.
    + eexists. split; [reflexivity|]. lia.
    + exists []. rewrite app_nil_r. split; [reflexivity|]. simpl. lia.
  - eexists. split; [reflexivity|].
    destruct (alt_lookup_frame _ _ _ _ _ _ Ha) as (_ & _ & _ & Hc2 & _).
    simpl. destruct (scan_jsonOutput opts); simpl.
    + rewrite Hc2, Hs1, Hf1. lia.
    + destruct (box_text E m alt); simpl;
        rewrite ?count_succeeded_app, ?count_failed_app, Hc2, Hs1, Hf1;
        simpl; lia.
Qed.

Lemma scan_loop_counts E opts l L w :
  exists L' w' extra,
    for_of l (scan_dep E opts) L w = (Ok L', w') /\
    scan_results L' = scan_results L ++ extra /\
    deprecatedCount L' + count_succeeded (console w') +
    count_failed (console w') =
    List.length l + (deprecatedCount L + count_succeeded (console w) +
                     count_failed (console w)) +
    (if scan_jsonOutput opts then 0
     else List.length (List.filter (is_unprinted E) extra)).
Proof.
  revert L w. induction l as [|dep l IH]; intros L w.
  - exists L, w, []. rewrite app_nil_r. split; [reflexivity|].
    split; [reflexivity|]. destruct (scan_jsonOutput opts); simpl; lia.
  - simpl for_of. unfold bind.
    destruct (scan_dep_spec E opts dep L w) as (L1 & w1 & Heq & Hs).
    destruct (scan_step_counts _ _ _ _ _ _ _ Hs) as (x1 & Hx1 & Hc).
    rewrite Heq. destruct (IH L1 w1) as (L' & w' & x2 & Hrun & Hx2 & Hc').
    exists L', w', (x1 ++ x2). split; [exact Hrun|].
    split; [rewrite Hx2, Hx1, app_assoc; reflexivity|].
    rewrite Hc', Hc. rewrite List.filter_app, List.length_app.
    destruct (scan_jsonOutput opts); simpl; lia.
Qed.

(** The summary of every scan: the "Healthy" figure printed is the total
    minus the deprecated count, which takes in the names reported as
    failed; the names reported healthy by the spinner, the names reported
    failed and the deprecated count add up to the total, the deprecated
    names whose box could not be printed being among the failed ones as
    well. *)
Lemma scan_summary_counts E opts w (p : manifest) :
  package_json w = Some (Manifest p) -> scan_jsonOutput opts = false ->
  exists L w1,
    scan_loop E opts p w = (Ok L, w1) /\
    let total := List.length (object_keys (scanned_deps p)) in
    scanDependencies E opts w =
    (Ok tt,
     log_output
       (ScanSummary total (deprecatedCount L) (total - deprecatedCount L))
       w1) /\
    deprecatedCount L + count_succeeded (console w1) +
    count_failed (console w1) =
    total + count_succeeded (console w) + count_failed (console w) +
    List.length (List.filter (is_unprinted E) (scan_results L)).
Proof.
  intros Hp Hjson.
  destruct (scan_loop_counts E opts (object_keys (scanned_deps p))
              {| scan_results := []; deprecatedCount := 0 |} w)
    as (L & w1 & extra & Hrun & Hx & Hc).
  exists L, w1. split; [exact Hrun|]. split.
  - rewrite (scanDependencies_outcome E opts w p L w1 Hp Hrun), Hjson.
    reflexivity.
  - rewrite Hc, Hjson, Hx. simpl. lia.
Qed.

(** ** The two scenarios of the specification *)

(** [left-pad] is deprecated and [string-pad] is suggested: the run writes
    the manifest with [string-pad] at ["latest"] and installs once. *)
Example scenario_replace :
  let E := scenario (left_pad_net ["string-pad"]) (fun _ => "") in
  let w' := snd (migrateDependencies E silent_run
                   (fresh_world (Some left_pad_manifest))) in
  package_json w' =
  Some (Manifest {| dependencies := Some [("string-pad", "latest")];
                    devDependencies := None;
                    other_members := [("name", JStr "app")] |}) /\
  List.length (writes w') = 1 /\ installs w' = ["npm install"].
Proof. vm_compute. repeat split; reflexivity. Qed.

(** The same with [dryRun]: the manifest is unchanged, the report holds the
    "would-replace" record and nothing is installed. *)
Example scenario_dry_run :
  let E := scenario (left_pad_net ["string-pad"]) (fun _ => "") in
  let w' := snd (migrateDependencies E
                   {| interactive := false; dryRun := true;
                      jsonOutput := true; refresh := false |}
                   (fresh_world (Some left_pad_manifest))) in
  package_json w' = Some (Manifest left_pad_manifest) /\
  writes w' = [] /\ installs w' = [] /\
  console w' =
  [SpinnerStart "Migrating left-pad...";
   MigrateReport [{| dependency := "left-pad"; action := WouldReplace;
                     alternative := Some (JStr "string-pad") |}]].
Proof. vm_compute. repeat split; reflexivity. Qed.

(** * Further properties of the lookups, the scan, the migration and the menu *)

(** ** Lookups with [refresh] *)

(** With [refresh] the registry is asked once whatever the cache holds: a
    parsed body is returned and replaces the entry, after which a lookup
    without refresh serves it; a failed request or an unparsable body is
    thrown and leaves the cache, stale entry included, as it was. *)
Theorem refresh_bypasses_cached_info (E : env) (p : string) (w : world) :
  exists res w',
    fetchNpmInfo E p true w = (res, w') /\
    requests w' = requests w ++ [registry_url p] /\
    match https_get E (List.length (requests w)) (registry_url p) with
    | JsonBody j =>
        res = Ok j /\ cache w' = <[npmInfo_key p := j]> (cache w) /\
        (truthy j = true -> fetchNpmInfo E p false w' = (Ok j, w'))
    | ConnectionError => res = Throw NetworkError /\ cache w' = cache w
    | BadBody => res = Throw SyntaxError /\ cache w' = cache w
    end.
Proof.
  destruct (fetchNpmInfo_spec E p true w) as (res & w' & Heq & Hl).
  exists res, w'. split; [exact Heq|].
  inversion Hl as [j Hr Hc Ht | j Hm Hget | Hm Hget | Hm Hget]; subst.
  - discriminate Hr.
  - split; [reflexivity|]. rewrite Hget. split; [reflexivity|].
    split; [reflexivity|]. intros Ht. apply fetchNpmInfo_hit; [|exact Ht].
    simpl. apply lookup_insert_eq.
  - split; [reflexivity|]. rewrite Hget. split; reflexivity.
  - split; [reflexivity|]. rewrite Hget. split; reflexivity.
Qed.

Lemma refresh_bypasses_cached_info_witness :
  let E := scenario (left_pad_net ["string-pad"]) (fun _ => "") in
  let stale := store_cache (npmInfo_key "left-pad") healthy_doc
                 (fresh_world None) in
  let info := deprecated_doc "use String.prototype.padStart()" in
  exists w',
    fetchNpmInfo E "left-pad" true stale = (Ok info, w') /\
    fetchNpmInfo E "left-pad" false w' = (Ok info, w').
Proof.
  intros E stale info.
  destruct (refresh_bypasses_cached_info E "left-pad" stale)
    as (res & w' & Heq & _ & Hres & _ & Hnext).
  exists w'. rewrite Heq, Hres. split; [reflexivity|].
  apply Hnext. reflexivity.
Defined.

(** With [refresh] the search is asked once whatever the cache holds, and
    what is returned is read off that answer: the suggestion of a parsed
    response, which replaces the entry, or [null] with the cache left as it
    was when the request fails, the body does not parse or reading the
    response throws. *)
Theorem refresh_bypasses_cached_alternative (E : env) (p : string)
  (w : world) :
  exists alt w',
    fetchAlternative E p true w = (Ok alt, w') /\
    requests w' = requests w ++ [search_url p] /\
    match https_get E (List.length (requests w)) (search_url p) with
    | JsonBody doc =>
        match suggestion_of E doc with
        | Ok s => alt = s /\ cache w' = <[alt_key p := s]> (cache w)
        | Throw _ => alt = JNull /\ cache w' = cache w
        end
    | ConnectionError => alt = JNull /\ cache w' = cache w
    | BadBody => alt = JNull /\ cache w' = cache w
    end.
Proof.
  destruct (fetchAlternative_spec E p true w) as (alt & w' & Heq & Hl).
  exists alt, w'. split; [exact Heq|].
  inversion Hl as [j Hr Hc Ht | doc sg Hm Hget Hs
                  | doc e Hm Hget Hs | Hm Hget | Hm Hget]; subst.
  - discriminate Hr.
  - split; [reflexivity|]. rewrite Hget, Hs. split; reflexivity.
  - split; [reflexivity|]. rewrite Hget, Hs. split; reflexivity.
  - split; [reflexivity|]. rewrite Hget. split; reflexivity.
  - split; [reflexivity|]. rewrite Hget. split; reflexivity.
Qed.

(** ** What a lookup leaves alone *)

Lemma info_lookup_cache E p r w res w' :
  info_lookup E p r w res w' ->
  cache w' = cache w \/
  exists j, cache w' = <[npmInfo_key p := j]> (cache w).
Proof. intros H. destruct H; simpl; eauto. Qed.

Lemma alt_lookup_cache E p r w alt w' :
  alt_lookup E p r w alt w' ->
  cache w' = cache w \/
  exists j, cache w' = <[alt_key p := j]> (cache w).
Proof. intros H. destruct H; simpl; eauto. Qed.

(** A lookup for [p] changes at most the cache entry of its own key: the
    entries of the other packages and those of the other kind of lookup are
    as before, and no entry is removed. *)
Theorem lookup_touches_its_own_entry (E : env) (p : string) (r : bool)
  (w : world) :
  let wi := snd (fetchNpmInfo E p r w) in
  let wa := snd (fetchAlternative E p r w) in
  (forall q, (q <> p -> cache wi !! npmInfo_key q = cache w !! npmInfo_key q) /\
             cache wi !! alt_key q = cache w !! alt_key q) /\
  (forall q, (q <> p -> cache wa !! alt_key q = cache w !! alt_key q) /\
             cache wa !! npmInfo_key q = cache w !! npmInfo_key q) /\
  (forall k, is_Some (cache w !! k) ->
             is_Some (cache wi !! k) /\ is_Some (cache wa !! k)).
Proof.
  intros wi wa.
  destruct (fetchNpmInfo_spec E p r w) as (res & w1 & Heq1 & Hl1).
  destruct (fetchAlternative_spec E p r w) as (alt & w2 & Heq2 & Hl2).
  unfold wi, wa. rewrite Heq1, Heq2. simpl.
  destruct (info_lookup_cache _ _ _ _ _ _ Hl1) as [-> | [j ->]];
    destruct (alt_lookup_cache _ _ _ _ _ _ Hl2) as [-> | [j' ->]];
    (split; [|split]);
    try (intros q; split; [intros Hq|]; try reflexivity);
    try (rewrite lookup_insert_ne; [reflexivity|]);
    try (intros Hk; first [apply npmInfo_key_inj in Hk
                          | apply alt_key_inj in Hk]; congruence);
    try (apply npmInfo_key_not_alt);
    try (intros Hk; symmetry in Hk; revert Hk; apply npmInfo_key_not_alt);
    try (intros k Hk; split; try exact Hk;
         rewrite lookup_insert; case_decide; eauto).
Qed.

Lemma lookup_touches_its_own_entry_witness :
  let E := scenario (left_pad_net ["string-pad"]) (fun _ => "") in
  let w := store_cache (npmInfo_key "request") healthy_doc (fresh_world None) in
  cache (snd (fetchNpmInfo E "left-pad" false w)) !! npmInfo_key "request" =
  Some healthy_doc.
Proof.
  intros E w.
  destruct (lookup_touches_its_own_entry E "left-pad" false w) as (Hi & _ & _).
  destruct (Hi "request") as [Hother _].
  rewrite Hother; [|discriminate]. vm_compute. reflexivity.
Defined.

(** ** The counters and the questions of a migration *)

(** The counters after the branches: a replacement carried through is
    counted as replaced, a skip and a rehearsal whose line was printed as
    skipped; a branch that throws after the push counts nothing. *)
Lemma record_decision_counters E opts s dep alt b L :
  replacedCount (fst (record_decision E opts s dep alt b L)) =
  replacedCount L +
  (if is_applied E (decided_record opts dep alt b) then 1 else 0) /\
  skippedCount (fst (record_decision E opts s dep alt b L)) =
  skippedCount L +
  (if is_counted_skip E opts (decided_record opts dep alt b) then 1 else 0).
Proof.
  unfold decided_record.
  decision_cases E opts s dep alt b L; subst;
    rewrite ?Hskip, ?Htruthy, ?Hdry;
    unfold is_applied, is_counted_skip, is_replaced, renders; simpl;
    rewrite ?Hkey, ?Hjson; simpl; try (split; lia).
  unfold narrated in Hnarr.
  destruct (jsonOutput opts); simpl; [split; lia|].
  destruct (js_to_string E alt); [split; lia | discriminate].
Qed.

Lemma filter_snoc_length {A} (f : A -> bool) l a :
  List.length (List.filter f (l ++ [a])) =
  List.length (List.filter f l) + (if f a then 1 else 0).
Proof.
  rewrite List.filter_app, length_app. simpl. destruct (f a); reflexivity.
Qed.

(** The loops of a run return, with facts that hold turn by turn counted
    against the number of visits. *)
Lemma run_counted E opts l L w :
  exists L' w' extra asked,
    for_of l (visit E opts) L w = (Ok L', w') /\
    results L' = results L ++ extra /\
    List.length extra <= List.length l /\
    questions w' = questions w ++ asked /\
    List.length asked = (if interactive opts then List.length extra else 0) /\
    replacedCount L' =
    replacedCount L + List.length (List.filter (is_applied E) extra) /\
    skippedCount L' =
    skippedCount L +
    List.length (List.filter (is_counted_skip E opts) extra).
Proof.
  revert L w. induction l as [|v l IH]; intros L w.
  - exists L, w, [], []. simpl. rewrite !app_nil_r.
    destruct (interactive opts); repeat split; lia.
  - simpl for_of. unfold bind. unfold visit at 1.
    destruct (migrate_dep_spec E opts (fst v) (snd v) L w)
      as (L1 & w1 & Heq & Hs).
    rewrite Heq.
    destruct (IH L1 w1)
      as (L' & w' & extra & asked & Hrun & Hres & Hlen & Hq & Hql & Hr & Hk).
    assert (Hturn :
      exists first said,
        results L1 = results L ++ first /\ List.length first <= 1 /\
        questions w1 = questions w ++ said /\
        List.length said =
        (if interactive opts then List.length first else 0) /\
        replacedCount L1 =
        replacedCount L + List.length (List.filter (is_applied E) first) /\
        skippedCount L1 =
        skippedCount L +
        List.length (List.filter (is_counted_skip E opts) first)).
    { destruct Hs as [e wa Hi | info e wa Hi Hm | info m wa Hi Hm Ht
                     | info m alt e wa wb Hi Hm Ht Ha Hint Hquery
                     | info m alt b wa wb wc Hi Hm Ht Ha Hc];
        try (exists [], []; rewrite !app_nil_r; simpl;
             destruct (info_lookup_frame _ _ _ _ _ _ Hi)
               as (_ & _ & _ & _ & Hqi);
             rewrite Hqi; simpl; destruct (interactive opts);
             repeat split; lia).
      - exists [], []. rewrite !app_nil_r. simpl.
        destruct (info_lookup_frame _ _ _ _ _ _ Hi) as (_ & _ & _ & _ & Hqi).
        destruct (alt_lookup_frame _ _ _ _ _ _ Ha) as (_ & _ & _ & _ & Hqa).
        rewrite Hqa, Hqi. simpl. destruct (interactive opts);
          repeat split; lia.
      - destruct (record_decision_counters E opts (fst v) (snd v) alt b L)
          as [Hr2 Hr3].
        pose proof (record_decision_results E opts (fst v) (snd v) alt b L)
          as Hr1.
        destruct (settle_frame
                    (SpinnerFail (snd v +:+ " migration check failed"))
                    (snd (record_decision E opts (fst v) (snd v) alt b L)) wc)
          as (_ & _ & _ & _ & _ & Hqs).
        destruct (info_lookup_frame _ _ _ _ _ _ Hi) as (_ & _ & _ & _ & Hqi).
        destruct (alt_lookup_frame _ _ _ _ _ _ Ha) as (_ & _ & _ & _ & Hqa).
        simpl in Hqi.
        inversion Hc as [Hint | query Hint Hquery]; subst.
        + exists [decided_record opts (snd v) alt true], [].
          rewrite Hint, app_nil_r. split; [exact Hr1|].
          split; [simpl; lia|]. split; [congruence|]. split; [reflexivity|].
          simpl. rewrite Hr2, Hr3.
          destruct (is_applied E _); destruct (is_counted_skip E opts _);
            simpl; split; lia.
        + eexists [_], [query]. rewrite Hint.
          split; [exact Hr1|]. split; [simpl; lia|].
          split; [rewrite Hqs; simpl; congruence|]. split; [reflexivity|].
          simpl. rewrite Hr2, Hr3.
          destruct (is_applied E _); destruct (is_counted_skip E opts _);
            simpl; split; lia. }
    destruct Hturn as (first & said & Hf1 & Hf2 & Hf3 & Hf3' & Hf4 & Hf5).
    exists L', w', (first ++ extra), (said ++ asked). split; [exact Hrun|].
    split; [rewrite Hres, Hf1, app_assoc; reflexivity|].
    rewrite !List.filter_app, !length_app. simpl.
    split; [lia|].
    split; [rewrite Hq, Hf3, app_assoc; reflexivity|].
    split; [|split; lia].
    rewrite Hql, Hf3'. destruct (interactive opts); lia.
Qed.



(** A run that is not interactive asks nothing; an interactive run asks one
    question for each record it writes: a dependency it finds deprecated is
    asked about and recorded, whether or not a replacement was found for
    it, unless the question cannot be put, and then it is neither. *)
Theorem one_question_per_record (E : env) (opts : options) (w : world)
  (p : manifest) :
  exists L w1 asked,
    migrate_loop E opts p w = (Ok L, w1) /\
    questions w1 = questions w ++ asked /\
    List.length asked =
    (if interactive opts then List.length (results L) else 0).
Proof.
  destruct (run_counted E opts (visits p) (initial_locals p) w)
    as (L & w1 & extra & asked & Hrun & Hres & _ & Hq & Hql & _).
  simpl in Hres. subst extra.
  exists L, w1, asked.
  split; [rewrite migrate_loop_flat; exact Hrun | split; assumption].
Qed.

(** ** A deprecated dependency without a suggestion *)

(** When the lookup of a replacement for a deprecated [d] comes back falsy
    (no suggestion), the turn records [d] as "skipped" and leaves the
    manifest alone in every mode, whatever the operator answers; in an
    interactive run the operator is still asked, about the replacement
    ["<none>"]. *)
Theorem no_suggestion_is_skipped (E : env) (opts : options)
  (s : section_name) (d : string) (L : locals) (w : world) (info : json)
  (m : value) (alt : json) :
  fst (fetchNpmInfo E d (refresh opts) w) = Ok info ->
  deprecated_message E info = Ok m -> js_truthy m = true ->
  fst (fetchAlternative E d (refresh opts)
         (snd (fetchNpmInfo E d (refresh opts) w))) = Ok alt ->
  truthy alt = false ->
  exists w',
    migrate_dep E opts s d L w =
    (Ok {| pkg := pkg L; modified := modified L;
           results := results L ++
             [{| dependency := d; action := Skipped; alternative := None |}];
           replacedCount := replacedCount L;
           skippedCount := S (skippedCount L) |}, w') /\
    questions w' =
    questions w ++
    (if interactive opts
     then ["🔄 Replace " +:+ d +:+ " with <none>? (y/N) "] else []).
Proof.
  intros Hf Hm Ht Ha Hfalsy.
  destruct (migrate_dep_deprecated E opts s d L w info m alt Hf Hm Ht Ha)
    as (w2 & Hq & _ & _ & Heq).
  rewrite Heq. cbv zeta.
  assert (Hdecided : forall b,
            record_decision E opts s d alt b L =
            (count_skipped (push_result (skipped_record d) L), Ok tt)).
  { intros b. unfold record_decision. rewrite Hfalsy, andb_false_r.
    reflexivity. }
  unfold confirm, replace_question. rewrite Hfalsy.
  destruct (interactive opts).
  - unfold askQuestion, askQuestionRaw, bind, lift, ret. rewrite Hdecided.
    eexists. split; [reflexivity|]. simpl. rewrite Hq. reflexivity.
  - unfold ret. rewrite Hdecided. eexists. split; [reflexivity|].
    simpl. rewrite Hq, app_nil_r. reflexivity.
Qed.

Lemma no_suggestion_is_skipped_witness :
  let E := scenario (left_pad_net []) (fun _ => "yes") in
  let w := fresh_world (Some left_pad_manifest) in
  let L := initial_locals left_pad_manifest in
  exists L' w',
    migrate_dep E interactive_run Dependencies "left-pad" L w = (Ok L', w') /\
    pkg L' = left_pad_manifest /\
    results L' =
    [{| dependency := "left-pad"; action := Skipped; alternative := None |}] /\
    questions w' = ["🔄 Replace left-pad with <none>? (y/N) "].
Proof.
  intros E w L.
  destruct (no_suggestion_is_skipped E interactive_run Dependencies "left-pad"
              L w (deprecated_doc "use String.prototype.padStart()")
              (Some (JStr "use String.prototype.padStart()")) JNull
              eq_refl eq_refl eq_refl eq_refl eq_refl) as (w' & Heq & Hq).
  eexists _, w'. split; [exact Heq|]. simpl.
  split; [reflexivity|]. split; [reflexivity | exact Hq].
Defined.

(** ** What a run leaves of the manifest *)

Lemma specifier_delete s s' dep k L :
  specifier s k (pkg (delete_dependency s' dep L)) =
  if same_section s' s
  then (if dep =? k then None else specifier s k (pkg L))
  else specifier s k (pkg L).
Proof.
  unfold specifier. rewrite get_section_delete.
  destruct (same_section s' s) eqn:Hs; [|reflexivity].
  apply same_section_spec in Hs. subst s'.
  destruct (get_section s (pkg L)) as [o|]; simpl.
  - apply obj_lookup_delete.
  - destruct (dep =? k); reflexivity.
Qed.

Lemma specifier_insert s s' key k L v :
  specifier s k (pkg (insert_dependency s' key L)) = Some v ->
  v = "latest" \/ specifier s k (pkg L) = Some v.
Proof.
  unfold specifier. rewrite get_section_insert.
  destruct (same_section s' s) eqn:Hs; [|auto].
  apply same_section_spec in Hs. subst s'.
  destruct (get_section s (pkg L)) as [o|]; simpl; [|discriminate].
  rewrite obj_lookup_set. destruct (key =? k); [|auto].
  destruct (obj_lookup key o); [intros [= <-]; auto|].
  destruct (key =? "__proto__"); [discriminate | intros [= <-]; auto].
Qed.

(** A turn leaves the members outside the two sections as they were, and
    every specifier it leaves is the one it found or ["latest"]. *)
Lemma locals_step_members E opts s' dep L L' :
  locals_step E opts s' dep L L' ->
  other_members (pkg L') = other_members (pkg L) /\
  forall s k v,
    specifier s k (pkg L') = Some v ->
    v = "latest" \/ specifier s k (pkg L) = Some v.
Proof.
  intros Hs. destruct Hs as [|alt b]; [auto|].
  assert (Hdel : forall s k v,
            specifier s k
              (pkg (delete_dependency s' dep
                      (push_result (replaced_record dep alt) L))) = Some v ->
            specifier s k (pkg L) = Some v).
  { intros s k v. rewrite specifier_delete. simpl pkg.
    destruct (same_section s' s); [|auto].
    destruct (dep =? k); [discriminate | auto]. }
  decision_cases E opts s' dep alt b L; subst;
    try (split; [reflexivity | auto]; fail).
  - split; [destruct s'; reflexivity|]. intros s k v Hv.
    apply specifier_insert in Hv. destruct Hv as [Hv|Hv]; [auto|].
    right. apply Hdel. exact Hv.
  - split; [destruct s'; reflexivity|]. intros s k v Hv.
    right. apply Hdel. exact Hv.
Qed.

(** A run changes of the manifest only the entries it replaces: the members
    outside the two sections are as read, an absent section stays absent, a
    name that no "replaced" record removes or inserts keeps the specifier it
    had (or stays absent), and every specifier of the final manifest is
    either the one read or ["latest"]. *)
Theorem run_spares_other_entries (E : env) (opts : options) (w : world)
  (p : manifest) :
  exists L w1,
    migrate_loop E opts p w = (Ok L, w1) /\
    other_members (pkg L) = other_members p /\
    (forall s, get_section s p = None <-> get_section s (pkg L) = None) /\
    (forall s k,
        (forall r, In r (results L) -> spares E k r) ->
        specifier s k (pkg L) = specifier s k p) /\
    (forall s k v,
        specifier s k (pkg L) = Some v ->
        v = "latest" \/ specifier s k p = Some v).
Proof.
  destruct (run_returns E opts (visits p) (initial_locals p) w)
    as (L & w1 & Hrun).
  exists L, w1. split; [rewrite migrate_loop_flat; exact Hrun|].
  assert (Hinv : other_members (pkg L) = other_members p /\
                 (forall s, get_section s p = None <->
                            get_section s (pkg L) = None) /\
                 (forall s k v,
                     specifier s k (pkg L) = Some v ->
                     v = "latest" \/ specifier s k p = Some v)).
  { apply (run_preserves E opts
             (fun La _ =>
                other_members (pkg La) = other_members p /\
                (forall s, get_section s p = None <->
                           get_section s (pkg La) = None) /\
                (forall s k v,
                    specifier s k (pkg La) = Some v ->
                    v = "latest" \/ specifier s k p = Some v))
             (visits p) (initial_locals p) w L w1); [| |exact Hrun].
    - intros v La wa Lb wb _ (H1 & H2 & H4) Hs.
      apply migrate_step_locals in Hs.
      pose proof (fun s' => locals_step_sections _ _ _ _ _ _ s' Hs) as Hsec.
      destruct (locals_step_members _ _ _ _ _ _ Hs) as [Hom Hspec].
      split; [congruence|]. split.
      + intros s. rewrite H2. apply (Hsec s).
      + intros s k val Hv. destruct (Hspec s k val Hv) as [Hl|Hold]; auto.
    - simpl. repeat split; auto. }
  destruct Hinv as (H1 & H2 & H4).
  split; [exact H1|]. split; [exact H2|]. split; [|exact H4].
  intros s k Hall.
  apply (run_spares_section E opts s k (visits p) (initial_locals p) w L w1
           Hrun).
  intros r Hr. apply Hall.
  apply (records_by_section_In _ _ _ _ _ _ _ _ _ Hrun Hr).
Qed.

Lemma run_spares_other_entries_witness :
  let E := scenario (left_pad_net ["string-pad"]) (fun _ => "") in
  let p := {| dependencies := Some [("left-pad", "^1.0.0"); ("ms", "2.1.3")];
              devDependencies := None; other_members := [] |} in
  exists L w1,
    migrate_loop E silent_run p (fresh_world (Some p)) = (Ok L, w1) /\
    specifier Dependencies "ms" (pkg L) = Some "2.1.3".
Proof.
  intros E p.
  destruct (run_spares_other_entries E silent_run (fresh_world (Some p)) p)
    as (L & w1 & Hloop & _ & _ & Hkeep & _).
  exists L, w1. split; [exact Hloop|].
  rewrite (Hkeep Dependencies "ms"); [reflexivity|].
  intros r Hr Ha. vm_compute in Hloop. injection Hloop as <- _.
  simpl in Hr. destruct Hr as [<-|[]]. simpl.
  split; [discriminate|]. intros alt [= <-]. discriminate.
Defined.

(** ** Keys stay distinct *)

Lemma object_keys_delete {V} k (o : list (string * V)) :
  object_keys (obj_delete k o) =
  List.filter (fun k' => negb (k' =? k)) (object_keys o).
Proof.
  induction o as [|[k0 v0] o IH]; simpl; [reflexivity|].
  destruct (k0 =? k); simpl; rewrite IH; reflexivity.
Qed.

Lemma object_keys_overwrite {V} k (v : V) o :
  object_keys (obj_overwrite k v o) = object_keys o.
Proof.
  induction o as [|[k0 v0] o IH]; simpl; [reflexivity|].
  rewrite IH. destruct (k0 =? k); reflexivity.
Qed.

Lemma object_keys_insert_index {V} i k (v : V) o :
  Permutation (object_keys (obj_insert_index i k v o)) (k :: object_keys o).
Proof.
  induction o as [|[k0 v0] o IH]; simpl; [reflexivity|].
  destruct (array_index k0) as [j|]; [destruct (j <? i)%N|]; simpl;
    try reflexivity.
  rewrite IH. apply perm_swap.
Qed.

(** Defining the own property [k] adds the key [k] when it is new and no
    other. *)
Lemma object_keys_define {V} k (v : V) o :
  Permutation (object_keys (obj_define k v o))
    (match obj_lookup k o with
     | Some _ => object_keys o
     | None => k :: object_keys o
     end).
Proof.
  unfold obj_define. destruct (obj_lookup k o) as [v0|].
  - rewrite object_keys_overwrite. reflexivity.
  - destruct (array_index k) as [i|].
    + apply object_keys_insert_index.
    + unfold object_keys. rewrite map_app. simpl. symmetry.
      apply Permutation_cons_append.
Qed.

Lemma obj_define_NoDup {V} k (v : V) o :
  List.NoDup (object_keys o) -> List.NoDup (object_keys (obj_define k v o)).
Proof.
  intros Hnd. eapply Permutation_NoDup.
  - symmetry. apply object_keys_define.
  - destruct (obj_lookup k o) as [v0|] eqn:Hk; [exact Hnd|].
    constructor; [|exact Hnd]. intros Hin.
    apply obj_lookup_In_keys in Hin. destruct Hin as [v' Hv']. congruence.
Qed.

(** [o[k] = v] adds at most the key [k], and only when it is new. *)
Lemma obj_set_NoDup {V} k (v : V) o :
  List.NoDup (object_keys o) -> List.NoDup (object_keys (obj_set k v o)).
Proof.
  intros Hnd. unfold obj_set. destruct (obj_lookup k o) as [v0|] eqn:Hk.
  - rewrite object_keys_overwrite. exact Hnd.
  - destruct (k =? "__proto__"); [exact Hnd|].
    apply obj_define_NoDup. exact Hnd.
Qed.

Lemma obj_delete_NoDup {V} k (o : list (string * V)) :
  List.NoDup (object_keys o) -> List.NoDup (object_keys (obj_delete k o)).
Proof.
  intros Hnd. rewrite object_keys_delete. apply List.NoDup_filter. exact Hnd.
Qed.

(** A manifest whose sections have no key twice when it is read has none
    twice after the run, whatever is replaced by whatever: a suggestion that
    is already a dependency takes the place of the existing entry. *)
Theorem run_keeps_keys_distinct (E : env) (opts : options) (w : world)
  (p : manifest) :
  (forall s o, get_section s p = Some o -> List.NoDup (object_keys o)) ->
  exists L w1,
    migrate_loop E opts p w = (Ok L, w1) /\
    forall s o, get_section s (pkg L) = Some o -> List.NoDup (object_keys o).
Proof.
  intros Hnd.
  destruct (run_returns E opts (visits p) (initial_locals p) w)
    as (L & w1 & Hrun).
  exists L, w1. split; [rewrite migrate_loop_flat; exact Hrun|].
  apply (run_preserves E opts
           (fun La _ => forall s o, get_section s (pkg La) = Some o ->
                                    List.NoDup (object_keys o))
           (visits p) (initial_locals p) w L w1); [|exact Hnd|exact Hrun].
  intros v La wa Lb wb _ HI Hs. apply migrate_step_locals in Hs.
  destruct Hs as [|alt b]; [exact HI|].
  assert (Hdel : forall s o,
            get_section s
              (pkg (delete_dependency (fst v) (snd v)
                      (push_result (replaced_record (snd v) alt) La))) =
            Some o -> List.NoDup (object_keys o)).
  { intros s o. rewrite get_section_delete. simpl pkg.
    destruct (same_section (fst v) s) eqn:Hsame; [|apply HI].
    apply same_section_spec in Hsame. subst s.
    destruct (get_section (fst v) (pkg La)) as [o0|] eqn:Ho; [|discriminate].
    simpl. intros [= <-]. apply obj_delete_NoDup. apply (HI (fst v)).
    exact Ho. }
  decision_cases E opts (fst v) (snd v) alt b La; subst; try exact HI;
    try exact Hdel.
  intros s o. rewrite get_section_insert.
  destruct (same_section (fst v) s) eqn:Hsame; [|apply Hdel].
  apply same_section_spec in Hsame. subst s.
  destruct (get_section (fst v) _) as [o0|] eqn:Ho; [|discriminate].
  simpl. intros [= <-]. apply obj_set_NoDup. apply (Hdel (fst v)). exact Ho.
Qed.

Lemma run_keeps_keys_distinct_witness :
  let E := scenario request_net (fun _ => "") in
  exists L w1,
    migrate_loop E silent_run request_manifest
      (fresh_world (Some request_manifest)) = (Ok L, w1) /\
    forall s o, get_section s (pkg L) = Some o -> List.NoDup (object_keys o).
Proof.
  intros E.
  apply (run_keeps_keys_distinct E silent_run
           (fresh_world (Some request_manifest)) request_manifest).
  intros s o. destruct s; simpl; [|discriminate].
  intros [= <-]. simpl.
  constructor; [simpl; intros [H|[]]; discriminate H|].
  constructor; [simpl; tauto | constructor].
Defined.

(** ** The network and the cache over a run *)

(** What a turn does to the network and the cache are its lookups: the one
    of the registry document and, for a deprecated name, the one of the
    suggestion. *)
Lemma migrate_step_lookups E opts s dep L w L' w' :
  migrate_step E opts s dep L w L' w' ->
  (exists res w1,
      info_lookup E dep (refresh opts) (log_output (migrating dep) w) res w1 /\
      requests w' = requests w1 /\ cache w' = cache w1) \/
  (exists info m w1 alt w2,
      info_lookup E dep (refresh opts) (log_output (migrating dep) w)
        (Ok info) w1 /\
      deprecated_message E info = Ok m /\ js_truthy m = true /\
      alt_lookup E dep (refresh opts) w1 alt w2 /\
      requests w' = requests w2 /\ cache w' = cache w2).
Proof.
  intros H. step_cases H.
  - left. exists (Throw e), w1. auto.
  - left. exists (Ok info), w1. auto.
  - left. exists (Ok info), w1. auto.
  - right. exists info, m, w1, alt, w2. auto 10.
  - right. exists info, m, w1, alt, w2.
    destruct (settle_frame
                (SpinnerFail (dep +:+ " migration check failed"))
                (snd (record_decision E opts s dep alt b L)) w3)
      as (_ & _ & _ & -> & -> & _).
    destruct (confirmation_frame _ _ _ _ _ _ _ Hc)
      as (_ & _ & _ & _ & -> & ->).
    auto 10.
Qed.

Lemma migrate_step_requests E opts s dep L w L' w' :
  migrate_step E opts s dep L w L' w' ->
  exists extra,
    requests w' = requests w ++ extra /\
    List.length extra <= 2 /\
    incl extra [registry_url dep; search_url dep].
Proof.
  intros H.
  assert (Hinfo : forall res w1,
    info_lookup E dep (refresh opts) (log_output (migrating dep) w) res w1 ->
    exists extra,
      requests w1 = requests w ++ extra /\ List.length extra <= 1 /\
      incl extra [registry_url dep]).
  { intros res w1 Hi.
    destruct (info_lookup_requests _ _ _ _ _ _ Hi) as [-> | ->]; simpl.
    - exists []. rewrite app_nil_r. repeat split; [simpl; lia|].
      apply incl_nil_l.
    - exists [registry_url dep]. repeat split; [simpl; lia|].
      apply incl_refl. }
  destruct (migrate_step_lookups _ _ _ _ _ _ _ _ H)
    as [(res & w1 & Hi & -> & _)
       | (info & m & w1 & alt & w2 & Hi & _ & _ & Ha & -> & _)].
  { destruct (Hinfo _ _ Hi) as (extra & Hr & Hlen & Hin).
    exists extra. split; [exact Hr|]. split; [lia|].
    intros u Hu. specialize (Hin u Hu). simpl in *. tauto. }
  destruct (Hinfo _ _ Hi) as (extra & Hr & Hlen & Hin).
  destruct (alt_lookup_requests _ _ _ _ _ _ Ha) as [-> | ->].
  - exists extra. split; [exact Hr|]. split; [lia|].
    intros u Hu. specialize (Hin u Hu). simpl in *. tauto.
  - exists (extra ++ [search_url dep]). rewrite Hr, app_assoc.
    split; [reflexivity|]. split; [rewrite length_app; simpl; lia|].
    intros u Hu. apply in_app_or in Hu. destruct Hu as [Hu|[<-|[]]].
    + specialize (Hin u Hu). simpl in *. tauto.
    + simpl. tauto.
Qed.

Lemma run_requests E opts l L w :
  exists L' w' extra,
    for_of l (visit E opts) L w = (Ok L', w') /\
    requests w' = requests w ++ extra /\
    List.length extra <= 2 * List.length l /\
    incl extra (lookup_urls l).
Proof.
  revert L w. induction l as [|v l IH]; intros L w.
  - exists L, w, []. simpl. rewrite app_nil_r.
    repeat split; [lia | apply incl_nil_l].
  - simpl for_of. unfold bind. unfold visit at 1.
    destruct (migrate_dep_spec E opts (fst v) (snd v) L w)
      as (L1 & w1 & Heq & Hs).
    rewrite Heq.
    destruct (migrate_step_requests _ _ _ _ _ _ _ _ Hs)
      as (first & Hf & Hflen & Hfin).
    destruct (IH L1 w1) as (L' & w' & extra & Hrun & Hr & Hlen & Hin).
    exists L', w', (first ++ extra). split; [exact Hrun|].
    split; [rewrite Hr, Hf, app_assoc; reflexivity|].
    split; [rewrite length_app; simpl; lia|].
    unfold lookup_urls. simpl. fold (lookup_urls l).
    intros u Hu. apply in_app_or in Hu. destruct Hu as [Hu|Hu].
    + specialize (Hfin u Hu). simpl in *. tauto.
    + specialize (Hin u Hu). simpl. tauto.
Qed.

(** A run asks the network only for the names of the manifest: every URL it
    requests is the registry URL or the search URL of a name it visits, and
    there are at most two requests per visit. *)
Theorem run_requests_only_manifest_names (E : env) (opts : options)
  (w : world) (p : manifest) :
  exists L w1 extra,
    migrate_loop E opts p w = (Ok L, w1) /\
    requests w1 = requests w ++ extra /\
    List.length extra <= 2 * List.length (visits p) /\
    forall u, In u extra ->
              exists v, In v (visits p) /\
                        (u = registry_url (snd v) \/ u = search_url (snd v)).
Proof.
  destruct (run_requests E opts (visits p) (initial_locals p) w)
    as (L & w1 & extra & Hrun & Hr & Hlen & Hin).
  exists L, w1, extra. split; [rewrite migrate_loop_flat; exact Hrun|].
  split; [exact Hr|]. split; [exact Hlen|].
  intros u Hu. specialize (Hin u Hu). unfold lookup_urls in Hin.
  apply in_flat_map in Hin. destruct Hin as (v & Hv & Huv).
  exists v. split; [exact Hv|]. simpl in Huv.
  destruct Huv as [<-|[<-|[]]]; auto.
Qed.

Lemma cache_miss_hit key w j :
  cache_miss key false w -> cache w !! key = Some j -> truthy j = true ->
  False.
Proof.
  intros Hm Hc Ht. eapply cache_miss_not_hit; eauto.
Qed.

(** A turn for a name the cache answers issues no request and leaves the
    cache as it was. *)
Lemma migrate_step_cached E opts s dep L w L' w' :
  refresh opts = false -> cache_answers E (cache w) dep ->
  migrate_step E opts s dep L w L' w' ->
  requests w' = requests w /\ cache w' = cache w.
Proof.
  intros Hr (info & Hc & Ht & Halt) Hs.
  assert (Hinfo : forall res w1,
    info_lookup E dep (refresh opts) (log_output (migrating dep) w) res w1 ->
    res = Ok info /\ w1 = log_output (migrating dep) w).
  { intros res w1 Hi. rewrite Hr in Hi.
    inversion Hi as [j _ Hcj Htj | j Hm _ | Hm _ | Hm _]; subst;
      try (exfalso; exact (cache_miss_hit _ _ _ Hm Hc Ht)).
    simpl in Hcj. split; [congruence | reflexivity]. }
  destruct (migrate_step_lookups _ _ _ _ _ _ _ _ Hs)
    as [(res & w1 & Hi & -> & ->)
       | (i & m & w1 & alt & w2 & Hi & Hm & Htm & Ha & -> & ->)].
  { destruct (Hinfo _ _ Hi) as [_ ->]. simpl. auto. }
  destruct (Hinfo _ _ Hi) as [Hres ->]. injection Hres as ->.
  destruct (Halt m Hm Htm) as (a & Hca & Hta).
  rewrite Hr in Ha.
  inversion Ha as [j _ Hcj Htj | doc sg Hmiss _ _ | doc e Hmiss _ _
                  | Hmiss _ | Hmiss _]; subst;
    try (exfalso; exact (cache_miss_hit _ _ _ Hmiss Hca Hta)).
  simpl. auto.
Qed.

(** A run without refresh over a manifest whose every name the cache answers
    (a truthy document, and a truthy suggestion for the deprecated ones) is
    served from the cache alone: it issues no request and leaves the cache
    as it was. *)
Theorem cached_run_is_offline (E : env) (opts : options) (w : world)
  (p : manifest) :
  refresh opts = false ->
  (forall v, In v (visits p) -> cache_answers E (cache w) (snd v)) ->
  exists L w1,
    migrate_loop E opts p w = (Ok L, w1) /\
    requests w1 = requests w /\ cache w1 = cache w.
Proof.
  intros Hr Hall.
  destruct (run_returns E opts (visits p) (initial_locals p) w)
    as (L & w1 & Hrun).
  exists L, w1. split; [rewrite migrate_loop_flat; exact Hrun|].
  apply (run_preserves E opts
           (fun _ wa => requests wa = requests w /\ cache wa = cache w)
           (visits p) (initial_locals p) w L w1); [|auto|exact Hrun].
  intros v La wa Lb wb Hin [H1 H2] Hs.
  destruct (migrate_step_cached _ _ _ _ _ _ _ _ Hr
              ltac:(rewrite H2; apply Hall; exact Hin) Hs) as [H3 H4].
  split; congruence.
Qed.

Lemma cached_run_is_offline_witness :
  let E := scenario (left_pad_net ["string-pad"]) (fun _ => "") in
  let w0 := fresh_world (Some left_pad_manifest) in
  let w := snd (migrate_loop E dry_run left_pad_manifest w0) in
  exists L w1,
    migrate_loop offline silent_run left_pad_manifest w = (Ok L, w1) /\
    requests w1 = requests w /\ cache w1 = cache w.
Proof.
  intros E w0 w.
  apply (cached_run_is_offline offline silent_run w left_pad_manifest
           eq_refl).
  intros v [<-|[]].
  exists (deprecated_doc "use String.prototype.padStart()").
  split; [vm_compute; reflexivity|]. split; [reflexivity|].
  intros m _ _. exists (JStr "string-pad").
  split; [vm_compute; reflexivity | reflexivity].
Defined.

Lemma migrate_step_cache E opts s dep L w L' w' :
  migrate_step E opts s dep L w L' w' ->
  (forall k, is_Some (cache w !! k) -> is_Some (cache w' !! k)) /\
  (forall k, k <> npmInfo_key dep -> k <> alt_key dep ->
             cache w' !! k = cache w !! k).
Proof.
  intros H.
  assert (Hins : forall (c : gmap string json) key j,
    (forall k, is_Some (c !! k) -> is_Some (<[key := j]> c !! k)) /\
    (forall k, k <> key -> <[key := j]> c !! k = c !! k)).
  { intros c key j. split.
    - intros k Hk. rewrite lookup_insert. case_decide; eauto.
    - intros k Hk. apply lookup_insert_ne. congruence. }
  assert (Hinfo : forall res w1,
    info_lookup E dep (refresh opts) (log_output (migrating dep) w) res w1 ->
    (forall k, is_Some (cache w !! k) -> is_Some (cache w1 !! k)) /\
    (forall k, k <> npmInfo_key dep -> cache w1 !! k = cache w !! k)).
  { intros res w1 Hi.
    destruct (info_lookup_cache _ _ _ _ _ _ Hi) as [-> | [j ->]]; simpl;
      [auto | apply Hins]. }
  destruct (migrate_step_lookups _ _ _ _ _ _ _ _ H)
    as [(res & w1 & Hi & _ & ->)
       | (info & m & w1 & alt & w2 & Hi & _ & _ & Ha & _ & ->)].
  { destruct (Hinfo _ _ Hi) as [H1 H2]. split; auto. }
  destruct (Hinfo _ _ Hi) as [H1 H2].
  destruct (alt_lookup_cache _ _ _ _ _ _ Ha) as [-> | [j ->]].
  - split; auto.
  - destruct (Hins (cache w1) (alt_key dep) j) as [H3 H4]. split.
    + intros k Hk. apply H3, H1, Hk.
    + intros k Hk1 Hk2. rewrite H4; auto.
Qed.

(** A run never removes a cache entry, and the entries of the packages that
    the manifest does not name are after the run what they were before. *)
Theorem run_only_adds_to_cache (E : env) (opts : options) (w : world)
  (p : manifest) :
  exists L w1,
    migrate_loop E opts p w = (Ok L, w1) /\
    (forall k, is_Some (cache w !! k) -> is_Some (cache w1 !! k)) /\
    (forall q, ~ In q (List.map snd (visits p)) ->
               cache w1 !! npmInfo_key q = cache w !! npmInfo_key q /\
               cache w1 !! alt_key q = cache w !! alt_key q).
Proof.
  destruct (run_returns E opts (visits p) (initial_locals p) w)
    as (L & w1 & Hrun).
  exists L, w1. split; [rewrite migrate_loop_flat; exact Hrun|].
  apply (run_preserves E opts
           (fun _ wa =>
              (forall k, is_Some (cache w !! k) -> is_Some (cache wa !! k)) /\
              (forall q, ~ In q (List.map snd (visits p)) ->
                         cache wa !! npmInfo_key q = cache w !! npmInfo_key q /\
                         cache wa !! alt_key q = cache w !! alt_key q))
           (visits p) (initial_locals p) w L w1); [|auto|exact Hrun].
  intros v La wa Lb wb Hin [H1 H2] Hs.
  destruct (migrate_step_cache _ _ _ _ _ _ _ _ Hs) as [H3 H4]. split.
  - intros k Hk. apply H3, H1, Hk.
  - intros q Hq. destruct (H2 q Hq) as [<- <-].
    assert (Hne : q <> snd v).
    { intros ->. apply Hq. apply in_map. exact Hin. }
    split; apply H4.
    + intros Hk. apply npmInfo_key_inj in Hk. contradiction.
    + apply npmInfo_key_not_alt.
    + intros Hk. symmetry in Hk. revert Hk. apply npmInfo_key_not_alt.
    + intros Hk. apply alt_key_inj in Hk. contradiction.
Qed.

Lemma run_only_adds_to_cache_witness :
  let E := scenario (left_pad_net ["string-pad"]) (fun _ => "") in
  let w := store_cache (alt_key "request") (JStr "got")
             (fresh_world (Some left_pad_manifest)) in
  exists L w1,
    migrate_loop E silent_run left_pad_manifest w = (Ok L, w1) /\
    cache w1 !! alt_key "request" = Some (JStr "got").
Proof.
  intros E w.
  destruct (run_only_adds_to_cache E silent_run w left_pad_manifest)
    as (L & w1 & Hloop & _ & Hother).
  exists L, w1. split; [exact Hloop|].
  assert (Hnot : ~ In "request" (List.map snd (visits left_pad_manifest))).
  { simpl. intros [H|[]]. discriminate H. }
  destruct (Hother "request" Hnot) as [_ ->].
  vm_compute. reflexivity.
Defined.

(** ** The scan and the project *)

(** A scan reads the manifest and nothing more: whatever its options and
    whatever the registry answers, it leaves the file as it was, writes
    nothing, runs no install command and asks the operator nothing. *)
Theorem scan_is_read_only (E : env) (opts : scan_options) (w : world) :
  let w' := snd (scanDependencies E opts w) in
  package_json w' = package_json w /\ writes w' = writes w /\
  installs w' = installs w /\ questions w' = questions w.
Proof.
  destruct (start_outcome (package_json w)) as [[]|e] eqn:Hstart.
  - destruct (package_json w) as [[| |p]|] eqn:Hp; try discriminate Hstart.
    destruct (scan_loop_returns E opts p w) as (L & w1 & Hloop).
    rewrite (scanDependencies_outcome E opts w p L w1 Hp Hloop). simpl.
    rewrite <- Hp. apply (scan_loop_frame E opts p w L w1 Hloop).
  - rewrite (scanDependencies_not_started E opts w e Hstart). simpl. auto.
Qed.

(** ** The names a scan visits *)

Lemma In_object_keys_define {V} k k0 (v : V) o :
  In k (object_keys (obj_define k0 v o)) <-> k = k0 \/ In k (object_keys o).
Proof.
  rewrite !obj_lookup_In_keys. setoid_rewrite obj_lookup_define.
  destruct (String.eqb_spec k0 k) as [->|Hne].
  - split; eauto.
  - split; [auto|]. intros [->|H]; [contradiction | exact H].
Qed.

Lemma spread_keys {V} (l o : list (string * V)) :
  let merged := fold_left (fun o kv => obj_define (fst kv) (snd kv) o) l o in
  (List.NoDup (object_keys o) -> List.NoDup (object_keys merged)) /\
  (forall k, In k (object_keys merged) <->
             In k (object_keys o) \/ In k (object_keys l)).
Proof.
  revert o. induction l as [|[k0 v0] l IH]; intros o; simpl.
  - split; [auto|]. intros k. tauto.
  - destruct (IH (obj_define k0 v0 o)) as [Hnd Hin]. split.
    + intros H. apply Hnd. apply obj_define_NoDup. exact H.
    + intros k. rewrite Hin, In_object_keys_define. split.
      * intros [[->|H]|H]; auto.
      * intros [H|[->|H]]; auto.
Qed.

Lemma scan_step_spinner E opts dep L w L' w' :
  scan_step E opts dep L w L' w' ->
  spinner_starts (console w') =
  spinner_starts (console w) ++ ["Checking " +:+ dep +:+ "..."].
Proof.
  intros H. scan_cases H;
    destruct (info_lookup_frame _ _ _ _ _ _ Hi) as (_ & _ & _ & Hcon & _);
    try (simpl in *; rewrite Hcon; rewrite !spinner_starts_app; simpl;
         rewrite app_nil_r; reflexivity).
  destruct (alt_lookup_frame _ _ _ _ _ _ Ha) as (_ & _ & _ & H2 & _).
  rewrite settle_spinner.
  simpl in *. rewrite H2, Hcon. rewrite spinner_starts_app. reflexivity.
Qed.

Lemma scan_spinner E opts l L w :
  exists L' w',
    for_of l (scan_dep E opts) L w = (Ok L', w') /\
    spinner_starts (console w') =
    spinner_starts (console w) ++
    List.map (fun k => "Checking " +:+ k +:+ "...") l.
Proof.
  revert L w. induction l as [|dep l IH]; intros L w.
  - exists L, w. simpl. rewrite app_nil_r. auto.
  - simpl for_of. unfold bind.
    destruct (scan_dep_spec E opts dep L w) as (L1 & w1 & Heq & Hs).
    rewrite Heq. destruct (IH L1 w1) as (L' & w' & Hrun & Hcon).
    exists L', w'. split; [exact Hrun|].
    rewrite Hcon, (scan_step_spinner _ _ _ _ _ _ _ Hs), <- app_assoc.
    reflexivity.
Qed.

(** A scan visits each declared name once: the names it checks, in order,
    are the keys of the merge of the two sections, among which no name
    comes twice, and a name is checked exactly when it is a key of
    [dependencies] or of [devDependencies]. *)
Theorem scan_checks_each_name_once (E : env) (opts : scan_options)
  (p : manifest) (w : world) :
  let names := object_keys (scanned_deps p) in
  exists L w1,
    scan_loop E opts p w = (Ok L, w1) /\
    spinner_starts (console w1) =
    spinner_starts (console w) ++
    List.map (fun k => "Checking " +:+ k +:+ "...") names /\
    List.NoDup names /\
    forall k, In k names <->
              In k (object_keys (default [] (dependencies p))) \/
              In k (object_keys (default [] (devDependencies p))).
Proof.
  intros names.
  destruct (scan_spinner E opts names
              {| scan_results := []; deprecatedCount := 0 |} w)
    as (L & w1 & Hrun & Hcon).
  exists L, w1. split; [exact Hrun|]. split; [exact Hcon|].
  unfold names, scanned_deps, obj_spread.
  destruct (spread_keys
              (default [] (dependencies p) ++ default [] (devDependencies p))
              (@nil (string * string))) as [Hnd Hin].
  split; [apply Hnd; constructor|].
  intros k. rewrite Hin. unfold object_keys at 2 3. rewrite map_app, in_app_iff.
  simpl. tauto.
Qed.

(** ** The report of a scan *)

Lemma scan_counted E opts l L w :
  exists L' w' extra,
    for_of l (scan_dep E opts) L w = (Ok L', w') /\
    scan_results L' = scan_results L ++ extra /\
    deprecatedCount L' =
    deprecatedCount L + List.length (List.filter is_scan_deprecated extra) /\
    (forall r, In r extra -> In (scan_record_name r) l) /\
    (if scan_jsonOutput opts
     then List.length extra + count_failed (console w') =
          List.length l + count_failed (console w)
     else List.length (List.filter is_scan_deprecated extra) =
          List.length extra).
Proof.
  revert L w. induction l as [|dep l IH]; intros L w.
  - exists L, w, []. simpl. rewrite app_nil_r.
    destruct (scan_jsonOutput opts); repeat split; try lia; try (intros r []).
  - simpl for_of. unfold bind.
    destruct (scan_dep_spec E opts dep L w) as (L1 & w1 & Heq & Hs).
    rewrite Heq.
    destruct (IH L1 w1) as (L' & w' & extra & Hrun & Hres & Hd & Hn & Hc).
    assert (Hturn :
      exists first,
        scan_results L1 = scan_results L ++ first /\
        deprecatedCount L1 =
        deprecatedCount L +
        List.length (List.filter is_scan_deprecated first) /\
        (forall r, In r first -> scan_record_name r = dep) /\
        (if scan_jsonOutput opts
         then List.length first + count_failed (console w1) =
              1 + count_failed (console w)
         else List.length (List.filter is_scan_deprecated first) =
              List.length first)).
    { destruct Hs as [e wa Hi | info e wa Hi Hm | info m wa Hi Hm Ht
                     | info m alt wa wb Hi Hm Ht Ha];
        destruct (info_lookup_frame _ _ _ _ _ _ Hi) as (_ & _ & _ & Hcon & _);
        simpl in Hcon.
      - exists []. rewrite app_nil_r. simpl. rewrite Hcon.
        rewrite !count_failed_app. simpl.
        destruct (scan_jsonOutput opts); repeat split; try lia; try (intros r []).
      - exists []. rewrite app_nil_r. simpl. rewrite Hcon.
        rewrite !count_failed_app. simpl.
        destruct (scan_jsonOutput opts); repeat split; try lia; try (intros r []).
      - simpl. rewrite Hcon. rewrite !count_failed_app. simpl.
        destruct (scan_jsonOutput opts).
        + exists [ScanHealthy dep]. simpl. repeat split; try lia;
            try (intros r [<-|[]]; reflexivity).
        + exists []. rewrite app_nil_r. simpl. repeat split; try lia;
            try (intros r []).
      - destruct (alt_lookup_frame _ _ _ _ _ _ Ha) as (_ & _ & _ & Hca & _).
        exists [ScanDeprecated dep m alt].
        destruct (scan_jsonOutput opts); simpl; rewrite ?Hca, ?Hcon,
          ?count_failed_app; simpl; repeat split; try lia;
          try (intros r [<-|[]]; reflexivity). }
    destruct Hturn as (first & Hf1 & Hf2 & Hf3 & Hf4).
    exists L', w', (first ++ extra). split; [exact Hrun|].
    split; [rewrite Hres, Hf1, app_assoc; reflexivity|].
    rewrite !List.filter_app, !length_app.
    split; [lia|]. split.
    + intros r Hr. apply in_app_or in Hr. destruct Hr as [Hr|Hr].
      * left. symmetry. apply Hf3. exact Hr.
      * right. apply Hn. exact Hr.
    + destruct (scan_jsonOutput opts); simpl in *; lia.
Qed.

(** The records of a scan: the deprecated count is the number of deprecated
    records and every record is for a scanned name.  In JSON mode there is
    one record for each name whose check did not fail, so the records and
    the failed checks add up to the total, and the report printed is the
    list of records; otherwise only the deprecated names are recorded. *)
Theorem scan_records_add_up (E : env) (opts : scan_options) (p : manifest)
  (w : world) :
  let names := object_keys (scanned_deps p) in
  exists L w1,
    scan_loop E opts p w = (Ok L, w1) /\
    deprecatedCount L =
    List.length (List.filter is_scan_deprecated (scan_results L)) /\
    (forall r, In r (scan_results L) -> In (scan_record_name r) names) /\
    (if scan_jsonOutput opts
     then List.length (scan_results L) + count_failed (console w1) =
          List.length names + count_failed (console w)
     else List.length (scan_results L) = deprecatedCount L) /\
    (package_json w = Some (Manifest p) -> scan_jsonOutput opts = true ->
     scanDependencies E opts w =
     (Ok tt, log_output (ScanReport (scan_results L)) w1)).
Proof.
  intros names.
  destruct (scan_counted E opts names
              {| scan_results := []; deprecatedCount := 0 |} w)
    as (L & w1 & extra & Hrun & Hres & Hd & Hn & Hc).
  simpl in Hres, Hd. subst extra.
  exists L, w1. split; [exact Hrun|]. split; [exact Hd|].
  split; [exact Hn|]. split.
  - destruct (scan_jsonOutput opts); [exact Hc | lia].
  - intros Hp Hjson.
    rewrite (scanDependencies_outcome E opts w p L w1 Hp Hrun), Hjson.
    reflexivity.
Qed.

Lemma scan_records_add_up_witness :
  let E := scenario (left_pad_net ["string-pad"]) (fun _ => "") in
  let opts := {| scan_jsonOutput := true; scan_refresh := false |} in
  let w := fresh_world (Some left_pad_manifest) in
  exists L w1,
    scan_loop E opts left_pad_manifest w = (Ok L, w1) /\
    scanDependencies E opts w =
    (Ok tt, log_output (ScanReport (scan_results L)) w1).
Proof.
  intros E opts w.
  destruct (scan_records_add_up E opts left_pad_manifest w)
    as (L & w1 & Hloop & _ & _ & _ & Hreport).
  exists L, w1. split; [exact Hloop|]. apply Hreport; reflexivity.
Defined.

(** ** The install command *)

Lemma runInstall_detect E w :
  runInstall (detectPackageManager E) w =
  (Ok tt, log_install (detectPackageManager E +:+ " install") w).
Proof.
  unfold runInstall, detectPackageManager.
  destruct (exists_in_cwd E "yarn.lock"); [reflexivity|].
  destruct (exists_in_cwd E "pnpm-lock.yaml"); [reflexivity|].
  destruct (exists_in_cwd E "bun.lockb"); reflexivity.
Qed.

(** When a run writes the manifest it runs one install command, that of the
    package manager whose lock file is in the working directory: [yarn] when
    [yarn.lock] is there, else [pnpm] when [pnpm-lock.yaml] is, else [bun]
    when [bun.lockb] is, else [npm]; a run that writes nothing installs
    nothing. *)
Theorem install_follows_the_lock_file (E : env) (opts : options) (w : world)
  (p : manifest) :
  package_json w = Some (Manifest p) ->
  exists L w1 w',
    migrate_loop E opts p w = (Ok L, w1) /\
    migrateDependencies E opts w = (Ok tt, w') /\
    installs w' =
    installs w ++
    (if negb (dryRun opts) && modified L
     then [detectPackageManager E +:+ " install"] else []) /\
    (detectPackageManager E = "yarn" <-> exists_in_cwd E "yarn.lock" = true) /\
    (detectPackageManager E = "pnpm" <->
     exists_in_cwd E "yarn.lock" = false /\
     exists_in_cwd E "pnpm-lock.yaml" = true) /\
    (detectPackageManager E = "bun" <->
     exists_in_cwd E "yarn.lock" = false /\
     exists_in_cwd E "pnpm-lock.yaml" = false /\
     exists_in_cwd E "bun.lockb" = true) /\
    (detectPackageManager E = "npm" <->
     exists_in_cwd E "yarn.lock" = false /\
     exists_in_cwd E "pnpm-lock.yaml" = false /\
     exists_in_cwd E "bun.lockb" = false).
Proof.
  intros Hp.
  destruct (run_returns E opts (visits p) (initial_locals p) w)
    as (L & w1 & Hrun).
  destruct (run_files E opts _ _ _ _ _ Hrun) as (_ & _ & Hf3).
  rewrite <- migrate_loop_flat in Hrun.
  exists L, w1,
    (log_output
       (if jsonOutput opts then MigrateReport (results L)
        else MigrateSummary (replacedCount L) (skippedCount L))
       (if negb (dryRun opts) && modified L
        then log_install (detectPackageManager E +:+ " install")
               (store_manifest (pkg L) w1)
        else w1)).
  split; [exact Hrun|]. split.
  { unfold migrateDependencies, readPackageJson. unfold bind at 1.
    rewrite Hp. unfold bind at 1. unfold members_of at 1. unfold ret at 1.
    unfold bind at 1. rewrite Hrun.
    destruct (negb (dryRun opts) && modified L).
    - unfold bind at 1. unfold bind at 1. unfold writePackageJson.
      rewrite runInstall_detect. unfold print.
      destruct (jsonOutput opts); reflexivity.
    - unfold bind, ret, print. destruct (jsonOutput opts); reflexivity. }
  split.
  { destruct (negb (dryRun opts) && modified L); simpl; rewrite Hf3;
      [reflexivity | rewrite app_nil_r; reflexivity]. }
  unfold detectPackageManager.
  destruct (exists_in_cwd E "yarn.lock");
    destruct (exists_in_cwd E "pnpm-lock.yaml");
    destruct (exists_in_cwd E "bun.lockb");
    repeat split; try discriminate; try reflexivity;
    intros H; try discriminate H; try (destruct H as [H1 H2]);
    try discriminate; try (destruct H2; discriminate).
Qed.

Lemma install_follows_the_lock_file_witness :
  let E := {| https_get := fun _ url => left_pad_net ["string-pad"] url;
              operator := fun _ _ => "";
              exists_in_cwd := fun f => f =? "pnpm-lock.yaml";
              string_gt_zero := fun _ => false;
              big_number_to_string := double_to_string |} in
  let w := fresh_world (Some left_pad_manifest) in
  exists w', migrateDependencies E silent_run w = (Ok tt, w') /\
             installs w' = ["pnpm install"].
Proof.
  intros E w.
  destruct (install_follows_the_lock_file E silent_run w left_pad_manifest
              eq_refl) as (L & w1 & w' & Hloop & Hall & Hinst & _).
  exists w'. split; [exact Hall|]. rewrite Hinst.
  vm_compute in Hloop. injection Hloop as <- _. reflexivity.
Defined.

(** ** The menu *)

Lemma includes_In f flags : includes f flags = true <-> In f flags.
Proof.
  unfold includes. rewrite existsb_exists. split.
  - intros (x & Hx & He). apply String.eqb_eq in He. subst x. exact Hx.
  - intros H. exists f. split; [exact H | apply String.eqb_refl].
Qed.

(** Without a manifest the migration stops before its loops. *)
Lemma migrateDependencies_not_started E opts w e :
  start_outcome (package_json w) = Throw e ->
  migrateDependencies E opts w = (Throw e, w).
Proof.
  intros Hp. unfold migrateDependencies, readPackageJson. unfold bind at 1.
  destruct (package_json w) as [[| |p]|]; simpl in Hp;
    try discriminate Hp; injection Hp as <-; reflexivity.
Qed.

(** How a choice at the menu ends.  A scan or a migration ends normally,
    whatever the registry and the operator answer, when [package.json] holds
    a manifest.  Otherwise it stops before any lookup, question, spinner or
    report and leaves everything as it was: the process exits with code 1
    when the file is missing (the message about the missing file is not
    among the console events kept here), the [SyntaxError] of [JSON.parse]
    is thrown when the file holds a text that is not JSON, and the
    [TypeError] of reading a member of [null] when it holds [null].  The
    help ends normally; any other choice exits with code 0 and does
    nothing. *)
Theorem menu_outcome (E : env) (action : string) (flags : list string)
  (w : world) :
  fst (showMenu E action flags w) =
  (if (action =? "scan") || (action =? "migrate")
   then start_outcome (package_json w)
   else if action =? "help" then Ok tt else Throw (ProcessExit 0)) /\
  (fst (showMenu E action flags w) <> Ok tt ->
   snd (showMenu E action flags w) = w).
Proof.
  unfold showMenu.
  destruct ((action =? "scan") || (action =? "migrate")).
  - destruct (start_outcome (package_json w)) as [[]|e] eqn:Hstart.
    + destruct (package_json w) as [[| |p]|] eqn:Hp; try discriminate Hstart.
      destruct (action =? "scan").
      * destruct (scan_loop_returns E
                    {| scan_jsonOutput := includes "json" flags;
                       scan_refresh := includes "refresh" flags |} p w)
          as (L & w1 & Hloop).
        rewrite (scanDependencies_outcome _ _ w p L w1 Hp Hloop). simpl.
        split; [reflexivity | congruence].
      * destruct (migrateDependencies_outcome E
                    {| interactive := includes "interactive" flags;
                       dryRun := includes "dryRun" flags;
                       jsonOutput := includes "json" flags;
                       refresh := includes "refresh" flags |} w p Hp)
          as (L & w1 & w' & _ & _ & Hall & _).
        rewrite Hall. simpl. split; [reflexivity | congruence].
    + destruct (action =? "scan").
      * rewrite (scanDependencies_not_started _ _ w e Hstart). simpl. auto.
      * rewrite (migrateDependencies_not_started _ _ w e Hstart). simpl.
        auto.
  - destruct (action =? "help"); simpl; split; auto; congruence.
Qed.

(** A file that cannot be used: the scan of a text that is not JSON and the
    migration of a file that holds [null] throw, and leave everything as it
    was. *)
Example menu_on_unusable_file :
  let garbled := {| package_json := Some Garbled; writes := [];
                    installs := []; console := []; cache := ∅;
                    requests := []; questions := [] |} in
  let null := {| package_json := Some HoldsNull; writes := [];
                 installs := []; console := []; cache := ∅;
                 requests := []; questions := [] |} in
  showMenu offline "scan" [] garbled = (Throw SyntaxError, garbled) /\
  showMenu offline "migrate" [] garbled = (Throw SyntaxError, garbled) /\
  showMenu offline "scan" ["json"] null = (Throw TypeError, null) /\
  showMenu offline "migrate" ["dryRun"] null = (Throw TypeError, null).
Proof. vm_compute. auto. Qed.

Lemma menu_outcome_witness :
  showMenu offline "migrate" ["dryRun"] (fresh_world None) =
  (Throw (ProcessExit 1), fresh_world None).
Proof.
  destruct (menu_outcome offline "migrate" ["dryRun"] (fresh_world None))
    as [Hres Hworld].
  rewrite (surjective_pairing (showMenu _ _ _ _)), Hres, Hworld.
  - reflexivity.
  - rewrite Hres. discriminate.
Defined.

Lemma showMenu_scan E flags :
  showMenu E "scan" flags =
  scanDependencies E
    {| scan_jsonOutput := includes "json" flags;
       scan_refresh := includes "refresh" flags |}.
Proof. reflexivity. Qed.

Lemma showMenu_migrate E flags :
  showMenu E "migrate" flags =
  migrateDependencies E
    {| interactive := includes "interactive" flags;
       dryRun := includes "dryRun" flags;
       jsonOutput := includes "json" flags;
       refresh := includes "refresh" flags |}.
Proof. reflexivity. Qed.

Lemma showMenu_other E action flags w :
  action <> "scan" -> action <> "migrate" ->
  snd (showMenu E action flags w) = w.
Proof.
  intros H1 H2. unfold showMenu.
  destruct (String.eqb_spec action "scan"); [contradiction|].
  destruct (String.eqb_spec action "migrate"); [contradiction|].
  simpl. destruct (action =? "help"); reflexivity.
Qed.

(** From the menu only a migration without the dry-run flag can touch the
    project: a scan with any flags, a migration with the dry-run flag among
    its flags, the help and the exit leave the manifest file as it was,
    write nothing and run no install command. *)
Theorem only_a_real_migration_writes (E : env) (action : string)
  (flags : list string) (w : world) :
  action <> "migrate" \/ In "dryRun" flags ->
  let w' := snd (showMenu E action flags w) in
  package_json w' = package_json w /\ writes w' = writes w /\
  installs w' = installs w.
Proof.
  intros Hsafe.
  destruct (String.eqb_spec action "scan") as [->|Hscan].
  - rewrite showMenu_scan.
    destruct (start_outcome (package_json w)) as [[]|e] eqn:Hstart.
    + destruct (package_json w) as [[| |p]|] eqn:Hp; try discriminate Hstart.
      destruct (scan_loop_returns E
                  {| scan_jsonOutput := includes "json" flags;
                     scan_refresh := includes "refresh" flags |} p w)
        as (L & w1 & Hloop).
      rewrite (scanDependencies_outcome _ _ w p L w1 Hp Hloop). simpl.
      destruct (scan_loop_frame _ _ _ _ _ _ Hloop) as (H1 & H2 & H3 & _).
      rewrite <- Hp. auto.
    + rewrite (scanDependencies_not_started _ _ w e Hstart). simpl. auto.
  - destruct (String.eqb_spec action "migrate") as [->|Hmig].
    + rewrite showMenu_migrate.
      destruct Hsafe as [Hne|Hdry]; [contradiction|].
      apply includes_In in Hdry.
      destruct (start_outcome (package_json w)) as [[]|e] eqn:Hstart.
      * destruct (package_json w) as [[| |p]|] eqn:Hp;
          try discriminate Hstart.
        destruct (migrateDependencies_outcome E
                    {| interactive := includes "interactive" flags;
                       dryRun := includes "dryRun" flags;
                       jsonOutput := includes "json" flags;
                       refresh := includes "refresh" flags |} w p Hp)
          as (L & w1 & w' & _ & _ & Hall & Hwr).
        rewrite Hall. simpl in *. rewrite Hdry in Hwr. simpl in Hwr.
        rewrite Hp in Hwr. tauto.
      * rewrite (migrateDependencies_not_started _ _ w e Hstart). simpl.
        auto.
    + simpl. rewrite (showMenu_other E action flags w Hscan Hmig). auto.
Qed.

Lemma only_a_real_migration_writes_witness :
  let E := scenario (left_pad_net ["string-pad"]) (fun _ => "") in
  let w := fresh_world (Some left_pad_manifest) in
  let w' := snd (showMenu E "migrate" ["json"; "dryRun"] w) in
  package_json w' = Some (Manifest left_pad_manifest) /\ writes w' = [] /\
  installs w' = [].
Proof.
  intros E w.
  apply (only_a_real_migration_writes E "migrate" ["json"; "dryRun"] w).
  right. simpl. auto.
Defined.

(** ** A yes in an interactive run *)

(** When the operator's answer at this point is a yes, the interactive turn
    does for the dependency what the silent turn does, provided it can put
    its question: the same lookups, the same record, the same change of the
    manifest; the two end in the same world but for the question asked, if
    the dependency was deprecated.  The question interpolates the
    suggestion: when the suggestion cannot be converted to a string the
    interactive turn fails before it asks and records nothing, while the
    silent turn goes on to its decision. *)
Theorem yes_answer_acts_as_silent (E : env) (opts : options)
  (s : section_name) (dep : string) (L : locals) (w : world) :
  (forall query,
      accepts (operator E (List.length (questions w)) query) = true) ->
  exists L' w',
    migrate_dep E (with_interactive false opts) s dep L w = (Ok L', w') /\
    (migrate_dep E (with_interactive true opts) s dep L w = (Ok L', w') \/
     exists alt,
       fst (fetchAlternative E dep (refresh opts)
              (snd (fetchNpmInfo E dep (refresh opts) w))) = Ok alt /\
       match replace_question E dep alt with
       | Ok query =>
           migrate_dep E (with_interactive true opts) s dep L w =
           (Ok L', log_question query w')
       | Throw _ =>
           let failed := SpinnerFail (dep +:+ " migration check failed") in
           exists w2,
             migrate_dep E (with_interactive true opts) s dep L w =
             (Ok L, log_output failed w2) /\
             L' = fst (record_decision E opts s dep alt true L) /\
             w' = settle failed
                    (snd (record_decision E opts s dep alt true L)) w2
       end).
Proof.
  intros Hyes.
  rewrite !migrate_dep_eq. cbv zeta.
  change (refresh (with_interactive false opts)) with (refresh opts).
  change (refresh (with_interactive true opts)) with (refresh opts).
  rewrite fetchNpmInfo_log_output.
  destruct (fst (fetchNpmInfo E dep (refresh opts) w)) as [info|e];
    [|eexists _, _; split; [reflexivity|]; auto].
  destruct (deprecated_message E info) as [m|e];
    [|eexists _, _; split; [reflexivity|]; auto].
  destruct (js_truthy m); [|eexists _, _; split; [reflexivity|]; auto].
  rewrite fetchAlternative_log_output.
  destruct (fetchAlternative_spec E dep (refresh opts)
              (snd (fetchNpmInfo E dep (refresh opts) w)))
    as (alt & w2 & Ha & Hl).
  assert (Hq : questions w2 = questions w).
  { rewrite <- (fetchNpmInfo_questions E dep (refresh opts) w).
    rewrite <- (fetchAlternative_questions E dep (refresh opts)
                  (snd (fetchNpmInfo E dep (refresh opts) w))).
    rewrite Ha. reflexivity. }
  rewrite Ha. simpl fst. simpl snd.
  unfold confirm.
  change (interactive (with_interactive false opts)) with false.
  change (interactive (with_interactive true opts)) with true.
  cbv iota. unfold ret at 1.
  change (record_decision E (with_interactive false opts))
    with (record_decision E opts).
  change (record_decision E (with_interactive true opts))
    with (record_decision E opts).
  eexists _, _. split; [reflexivity|]. right. exists alt.
  split; [reflexivity|].
  unfold bind at 1, lift.
  destruct (replace_question E dep alt) as [query|e].
  - unfold askQuestion, askQuestionRaw, bind, ret.
    change (questions (log_output (migrating dep) w2)) with (questions w2).
    rewrite Hq, Hyes.
    destruct (snd (record_decision E opts s dep alt true L)); reflexivity.
  - cbv zeta. exists (log_output (migrating dep) w2). auto.
Qed.

Lemma yes_answer_acts_as_silent_witness :
  let E := scenario (left_pad_net ["string-pad"]) (fun _ => "Yes please") in
  let w := fresh_world (Some left_pad_manifest) in
  let L := initial_locals left_pad_manifest in
  exists L' w',
    migrate_dep E silent_run Dependencies "left-pad" L w = (Ok L', w') /\
    fst (migrate_dep E interactive_run Dependencies "left-pad" L w) = Ok L'.
Proof.
  intros E w L.
  destruct (yes_answer_acts_as_silent E silent_run Dependencies "left-pad"
              L w (fun _ => eq_refl)) as (L' & w' & Hs & Hi).
  exists L', w'. split; [exact Hs|].
  change interactive_run with (with_interactive true silent_run).
  destruct Hi as [-> | (alt & Halt & Hq)]; [reflexivity|].
  vm_compute in Halt. injection Halt as <-.
  set (query := replace_question E "left-pad" (JStr "string-pad")) in Hq.
  vm_compute in query. subst query. cbv iota in Hq.
  rewrite Hq. reflexivity.
Defined.
